(** * DashProxy: a shallow embedding of [server.py]

    The development follows the source file top-down: the Python
    built-ins the code relies on, the duration parser, the template
    expander, the manifest parser, the track selector of the [stream]
    handler, the handlers [debug] and [check_drm_protection] and the
    producer thread [segment_fetcher].

    Conventions of the model.
    - Python [str] is [string]; a character is a code point below 256, so
      the regex class [\d] is exactly [0-9] and [str.lower] is the Latin-1
      case map.
    - Python [int] is [Z]; the conversions between [int] and [str] raise
      [ValueError] beyond 4300 digits, as the interpreter does. Python
      [float] is an IEEE binary64 value, [spec_float] with [prec = 53] and
      [emax = 1024].
    - A raised exception is a value of [exn] carried by [result].
    - The queue between the producer and the consumer holds at most ten
      items; a [put] on a full queue waits until the consumer has taken
      one.
    - [jsonify] writes the members of an object sorted by key.
    - [print] and [traceback.print_exc] are log output only and are left
      out. *)

From Stdlib Require Import ZArith Ascii String SpecFloat DecimalString Sorted.
From stdpp Require Import base tactics option list gmap strings.

Local Open Scope Z_scope.
Set Warnings "-register-all".

(** Let [simpl] compute the append of strings. *)
#[local] Arguments String.append !s1 s2 : simpl nomatch.

(** ** Exceptions *)

(** Every exception the modelled code can raise is an instance of Python's
    [Exception]; the classes the handlers of [server.py] tell apart are
    kept apart here. *)
Inductive exn : Set :=
  | RequestException    (* requests.RequestException and its subclasses *)
  | ParseError          (* xml.etree.ElementTree.ParseError *)
  | ValueError
  | ZeroDivisionError
  | OverflowError
  | OtherException.     (* any other instance of Exception *)

Inductive result (A : Type) : Type :=
  | Ok (a : A)
  | Raise (e : exn).
Arguments Ok {A} a.
Arguments Raise {A} e.

#[global] Instance result_ret : MRet result := λ A a, Ok a.
#[global] Instance result_bind : MBind result := λ A B f m,
  match m with
  | Ok a => f a
  | Raise e => Raise e
  end.

(** [[f(x) for x in xs]] with a body that may raise: left to right, the
    first exception wins. *)
Fixpoint map_result {A B} (f : A → result B) (xs : list A) : result (list B) :=
  match xs with
  | [] => Ok []
  | x :: xs' => y ← f x; ys ← map_result f xs'; Ok (y :: ys)
  end.

(** ** Python built-ins on [str] and [int] *)

Module Py.

Definition char_in_range (lo hi c : ascii) : bool :=
  (nat_of_ascii lo <=? nat_of_ascii c)%nat && (nat_of_ascii c <=? nat_of_ascii hi)%nat.

(** [\d] on code points below 256. *)
Definition is_digit (c : ascii) : bool := char_in_range "0" "9" c.

(** [[\da-zA-Z]]. *)
Definition is_alnum (c : ascii) : bool :=
  is_digit c || char_in_range "a" "z" c || char_in_range "A" "Z" c.

Definition digit_val (c : ascii) : Z := Z.of_nat (nat_of_ascii c) - 48.

(** Longest prefix whose characters satisfy [p], and the rest: the
    greedy match of [[p]*]. *)
Fixpoint span (p : ascii → bool) (s : string) : string * string :=
  match s with
  | EmptyString => (EmptyString, EmptyString)
  | String c s' =>
      if p c then let '(a, b) := span p s' in (String c a, b)
      else (EmptyString, s)
  end.

Definition is_empty (s : string) : bool :=
  match s with EmptyString => true | _ => false end.

(** [s.startswith(p)]. *)
Definition startswith (p s : string) : bool := String.prefix p s.

(** [s[n:]]. *)
Fixpoint drop (n : nat) (s : string) : string :=
  match n, s with
  | O, _ => s
  | S _, EmptyString => EmptyString
  | S n', String _ s' => drop n' s'
  end.

(** [needle in hay]. *)
Fixpoint contains (needle hay : string) : bool :=
  startswith needle hay ||
  match hay with
  | EmptyString => false
  | String _ hay' => contains needle hay'
  end.

(** [c.lower()] for a code point below 256: [A-Z] and the Latin-1
    capitals U+00C0..U+00DE except the multiplication sign U+00D7. *)
Definition lower_char (c : ascii) : ascii :=
  let n := nat_of_ascii c in
  if char_in_range "A" "Z" c then ascii_of_nat (n + 32)
  else if ((192 <=? n) && (n <=? 222) && negb (n =? 215))%nat
       then ascii_of_nat (n + 32)
  else c.

Fixpoint lower (s : string) : string :=
  match s with
  | EmptyString => EmptyString
  | String c s' => String (lower_char c) (lower s')
  end.

(** [s.replace(old, new)] for a non-empty [old]: occurrences are found
    left to right and do not overlap. [skip] counts the characters of
    the occurrence just replaced that are still to be passed over. *)
Fixpoint replace_from (skip : nat) (old new s : string) : string :=
  match s with
  | EmptyString => EmptyString
  | String c s' =>
      match skip with
      | S k => replace_from k old new s'
      | O =>
          if startswith old s
          then new +:+ replace_from (String.length old - 1) old new s'
          else String c (replace_from 0 old new s')
      end
  end.

Definition replace (old new s : string) : string := replace_from 0 old new s.

(** [s.rsplit('/', 1)[0]]: the text before the last ['/'], or all of
    [s] when it has none. *)
Fixpoint rsplit_slash_head (s : string) : string :=
  match s with
  | EmptyString => EmptyString
  | String c s' =>
      if contains "/" s' then String c (rsplit_slash_head s')
      else if Ascii.eqb c "/" then EmptyString
      else s
  end.

(** The bound that the interpreter puts on the number of digits in a
    conversion between [int] and [str] in base 10
    ([sys.int_info.default_max_str_digits]). *)
Definition max_str_digits : nat := 4300.

(** [str(n)] for an [int]: [ValueError] when [n] has more than
    [max_str_digits] digits. *)
Definition str_of_int (n : Z) : result string :=
  let s := NilZero.string_of_int (Z.to_int n) in
  let digits := match s with String "-" d => d | _ => s end in
  if (String.length digits <=? max_str_digits)%nat then Ok s
  else Raise ValueError.

(** Value of a run of decimal digits, most significant first. *)
Fixpoint digits_value (acc : Z) (s : string) : Z :=
  match s with
  | EmptyString => acc
  | String c s' => digits_value (10 * acc + digit_val c) s'
  end.

(** White space that [int(str)] strips, among code points below 256. *)
Definition is_space (c : ascii) : bool :=
  let n := nat_of_ascii c in
  ((9 <=? n) && (n <=? 13) || (28 <=? n) && (n <=? 32)
   || (n =? 133) || (n =? 160))%nat.

Fixpoint lstrip (s : string) : string :=
  match s with
  | String c s' => if is_space c then lstrip s' else s
  | EmptyString => EmptyString
  end.

(** The digit part of an [int] literal: digits, with single underscores
    allowed between two digits. [prev] tells whether the previous
    character was a digit, [count] how many digits were read. Trailing
    white space ends the literal. The result is the value and the number
    of digits. *)
Fixpoint int_digits (prev : bool) (count : nat) (acc : Z) (s : string)
    : option (Z * nat) :=
  match s with
  | EmptyString => if prev then Some (acc, count) else None
  | String c s' =>
      if is_digit c then int_digits true (S count) (10 * acc + digit_val c) s'
      else if Ascii.eqb c "_" then
        if prev then
          match s' with
          | String d _ => if is_digit d then int_digits false count acc s' else None
          | EmptyString => None
          end
        else None
      else if is_space c then
        if prev && is_empty (lstrip s') then Some (acc, count) else None
      else None
  end.

(** [int(s)] for a [str] in base 10: [ValueError] on anything that is
    not an optionally signed decimal literal surrounded by white space,
    and on a literal of more than [max_str_digits] digits, leading zeros
    counted. *)
Definition int_of_str (s : string) : result Z :=
  let body sign s' :=
    match int_digits false 0 0 s' with
    | Some (n, count) =>
        if (count <=? max_str_digits)%nat then Ok (sign * n)
        else Raise ValueError
    | None => Raise ValueError
    end in
  match lstrip s with
  | String "-" s' => body (-1) s'
  | String "+" s' => body 1 s'
  | s' => body 1 s'
  end.

(** [s.replace(old, new, 1)] for a non-empty [old]: the first occurrence
    only. *)
Fixpoint replace_first (old new s : string) : string :=
  match s with
  | EmptyString => EmptyString
  | String c s' =>
      if startswith old s then new +:+ drop (String.length old) s
      else String c (replace_first old new s')
  end.

(** The code points of [s]. *)
Definition points (s : string) : list N :=
  map N_of_ascii (list_ascii_of_string s).

(** [c.upper()] for a code point below 256, as code points: the sharp s
    becomes [SS], the micro sign and the y with diaeresis leave the range. *)
Definition upper_char (c : ascii) : list N :=
  let n := N_of_ascii c in
  if ((97 <=? n) && (n <=? 122) || (224 <=? n) && (n <=? 254) && negb (n =? 247))%N
  then [(n - 32)%N]
  else if (n =? 223)%N then [83%N; 83%N]
  else if (n =? 181)%N then [924%N]
  else if (n =? 255)%N then [376%N]
  else [n].

(** [s.upper()], as code points. *)
Definition upper (s : string) : list N :=
  flat_map upper_char (list_ascii_of_string s).

(** [hay] begins with [needle]. *)
Fixpoint starts_with_points (needle hay : list N) : bool :=
  match needle, hay with
  | [], _ => true
  | _ :: _, [] => false
  | x :: needle', y :: hay' => (x =? y)%N && starts_with_points needle' hay'
  end.

(** [needle in hay] on code points. *)
Fixpoint contains_points (needle hay : list N) : bool :=
  starts_with_points needle hay ||
  match hay with
  | [] => false
  | _ :: hay' => contains_points needle hay'
  end.

End Py.

(** ** Python [float]: IEEE binary64 *)

Module PyFloat.

Definition prec : Z := 53.
Definition emax : Z := 1024.

Abbreviation float := spec_float.

Definition zero : float := S754_zero false.

(** The binary64 value nearest to [n / d] (ties to even) for positive
    [n] and [d]: the quotient is cut where the format needs it and the
    remainder decides the rounding. Large quotients round to infinity. *)
Definition round_ratio (s : bool) (n d : positive) : float :=
  let '(q, e, l) := SFdiv_core_binary prec emax (Zpos n) 0 (Zpos d) 0 in
  binary_round_aux prec emax s q e l.

(** [float(n)] for an [int] that converts without overflow. *)
Definition of_Z (n : Z) : float := binary_normalize prec emax n 0 false.

(** [float(s)] for [s] matched by [\d+(?:\.\d+)?]: the correctly rounded
    value of the decimal numeral [ip.fp]. *)
Definition of_decimal (ip fp : string) : float :=
  match Py.digits_value 0 (ip +:+ fp) with
  | Zpos n => round_ratio false n (Z.to_pos (10 ^ Z.of_nat (String.length fp)))
  | _ => zero
  end.

Definition mul : float → float → float := SFmul prec emax.
Definition add : float → float → float := SFadd prec emax.

(** [x > 0] for a float [x] and the [int] zero. *)
Definition gt_zero (x : float) : bool := SFltb zero x.

(** [a / b] on [int]s: true division, correctly rounded. *)
Definition int_truediv (a b : Z) : result float :=
  match a, b with
  | _, Z0 => Raise ZeroDivisionError
  | Z0, Zpos _ => Ok (S754_zero false)
  | Z0, Zneg _ => Ok (S754_zero true)
  | Zpos n, Zpos d | Zneg n, Zneg d =>
      match round_ratio false n d with
      | S754_infinity _ => Raise OverflowError
      | q => Ok q
      end
  | Zpos n, Zneg d | Zneg n, Zpos d =>
      match round_ratio true n d with
      | S754_infinity _ => Raise OverflowError
      | q => Ok q
      end
  end.

(** [x / y] on floats: only a zero divisor raises. *)
Definition div (x y : float) : result float :=
  match y with
  | S754_zero _ => Raise ZeroDivisionError
  | _ => Ok (SFdiv prec emax x y)
  end.

(** [math.ceil(x)]: an [int]; infinities and NaN raise. *)
Definition ceil (x : float) : result Z :=
  match x with
  | S754_zero _ => Ok 0
  | S754_infinity _ => Raise OverflowError
  | S754_nan => Raise ValueError
  | S754_finite s m e =>
      let n := cond_Zopp s (Zpos m) in
      match e with
      | Zneg k => Ok (- ((- n) / Z.pow 2 (Zpos k)))
      | _ => Ok (n * Z.pow 2 e)
      end
  end.

End PyFloat.

(** ** [_get_attrib] and the element tree *)

(** An [xml.etree.ElementTree.Element]: its expanded tag, its attributes
    and its children in document order. *)
Inductive Element : Type :=
  | Elem (tag : string) (attrib : list (string * string)) (children : list Element).

Definition tag (e : Element) : string := let 'Elem t _ _ := e in t.
Definition attrib (e : Element) : list (string * string) := let 'Elem _ a _ := e in a.
Definition children (e : Element) : list Element := let 'Elem _ _ c := e in c.

(** [d.get(k)] on the attribute dictionary. *)
Fixpoint dict_get {V} (d : list (string * V)) (k : string) : option V :=
  match d with
  | [] => None
  | (k', v) :: d' => if String.eqb k' k then Some v else dict_get d' k
  end.

(** [_get_attrib(element, attrib_name)]: [None] is the Python [None]. The
    call sites that pass a default apply it themselves, see [int_attrib]. *)
Definition _get_attrib (element : Element) (attrib_name : string) : option string :=
  dict_get (attrib element) attrib_name.

(** [int(_get_attrib(element, name, default))] with an [int] default:
    [int] of an [int] is the identity, [int] of a [str] parses it. *)
Definition int_attrib (element : Element) (name : string) (default : Z) : result Z :=
  match _get_attrib element name with
  | Some s => Py.int_of_str s
  | None => Ok default
  end.

(** The namespace map [ns] of the source resolves the prefix [mpd:]. *)
Definition mpd (local : string) : string :=
  "{urn:mpeg:dash:schema:mpd:2011}" +:+ local.

(** [element.find(path, ns)] and [element.findall(path, ns)] for a path
    that is one prefixed tag name: the direct children with that tag. *)
Definition findall (e : Element) (name : string) : list Element :=
  filter (λ c, tag c = mpd name) (children e).

Definition find (e : Element) (name : string) : option Element :=
  head (findall e name).

(** ** [_parse_duration] *)

Definition is_unit (c : ascii) : bool :=
  Ascii.eqb c "H" || Ascii.eqb c "M" || Ascii.eqb c "S".

(** One match of [(\d+(?:\.\d+)?)([HMS])] anchored at the head of [s]:
    the two groups and the text after the match. The digit runs are
    greedy; a shorter run would leave a digit where [\.] or [[HMS]] is
    needed, so only the longest can succeed. The optional fraction is
    tried first and dropped when the match cannot be completed with it. *)
Definition match_number_unit (s : string) : option (string * ascii * string) :=
  let '(ip, r1) := Py.span Py.is_digit s in
  if Py.is_empty ip then None else
  let plain :=
    match r1 with
    | String u r2 => if is_unit u then Some (ip, u, r2) else None
    | EmptyString => None
    end in
  match r1 with
  | String "." r2 =>
      let '(fp, r3) := Py.span Py.is_digit r2 in
      match r3 with
      | String u r4 =>
          if negb (Py.is_empty fp) && is_unit u
          then Some (ip +:+ "." +:+ fp, u, r4)
          else plain
      | EmptyString => plain
      end
  | _ => plain
  end.

(** [pattern.findall(s)]: matches are searched left to right; after a
    match the search resumes behind it, otherwise one character on.
    [fuel] bounds the number of positions still to visit. *)
Fixpoint duration_findall_from (fuel : nat) (s : string) : list (string * ascii) :=
  match fuel with
  | O => []
  | S fuel' =>
      match match_number_unit s with
      | Some (value, unit, rest) => (value, unit) :: duration_findall_from fuel' rest
      | None =>
          match s with
          | EmptyString => []
          | String _ s' => duration_findall_from fuel' s'
          end
      end
  end.

Definition duration_findall (s : string) : list (string * ascii) :=
  duration_findall_from (S (String.length s)) s.

(** [float(value)] for a [value] captured by the first group. *)
Definition float_of_value (value : string) : PyFloat.float :=
  let '(ip, r) := Py.span Py.is_digit value in
  match r with
  | String "." fp => PyFloat.of_decimal ip fp
  | _ => PyFloat.of_decimal ip ""
  end.

(** The body of the [for value, unit in parts] loop. *)
Definition add_part (duration : PyFloat.float) (part : string * ascii) : PyFloat.float :=
  let '(value, unit) := part in
  let v := float_of_value value in
  if Ascii.eqb unit "H" then PyFloat.add duration (PyFloat.mul v (PyFloat.of_Z 3600))
  else if Ascii.eqb unit "M" then PyFloat.add duration (PyFloat.mul v (PyFloat.of_Z 60))
  else if Ascii.eqb unit "S" then PyFloat.add duration v
  else duration.

Definition _parse_duration (duration_str : option string) : PyFloat.float :=
  match duration_str with
  | None => PyFloat.zero
  | Some s =>
      if Py.is_empty s || negb (Py.startswith "PT" s) then PyFloat.zero
      else foldl add_part PyFloat.zero (duration_findall (Py.drop 2 s))
  end.

(** ** Library functions taken as given *)

(** Two library functions are not re-implemented: the URL resolution of
    [urllib.parse] and the format-specification language of [format].
    Everything below holds for any behaviour of the two. *)
Class PythonLib := {
  (** [urljoin(base, url)]; it raises [ValueError] on some inputs, a
      bracket in the host part that is not closed for one. *)
  urljoin : string → string → result string;
  (** [format(value, spec)] for an [int] and a non-empty [spec], which is
      what [f"{value:{spec}}"] evaluates; a bad [spec] raises. *)
  format_int : Z → string → result string;
}.

(** ** [_format_template] *)

(** One match of [\$(Number|Time)(%[\da-zA-Z]+)?\$] anchored at the head
    of [s]: group 1, group 2 ([None] when the optional group took no
    part) and the text after the match. The run of [[\da-zA-Z]+] is
    greedy, and a shorter run would leave a letter or digit where [\$] is
    needed. *)
Definition match_placeholder (s : string) : option (string * option string * string) :=
  match s with
  | String "$" s1 =>
      let named :=
        if Py.startswith "Number" s1 then Some ("Number", Py.drop 6 s1)
        else if Py.startswith "Time" s1 then Some ("Time", Py.drop 4 s1)
        else None in
      match named with
      | None => None
      | Some (name, s2) =>
          let plain :=
            match s2 with
            | String "$" rest => Some (name, None, rest)
            | _ => None
            end in
          match s2 with
          | String "%" s3 =>
              let '(spec, s4) := Py.span Py.is_alnum s3 in
              match s4 with
              | String "$" rest =>
                  if negb (Py.is_empty spec)
                  then Some (name, Some ("%" +:+ spec), rest)
                  else plain
              | _ => plain
              end
          | _ => plain
          end
      end
  | _ => None
  end.

(** [fmt.lstrip('%')]. *)
Fixpoint lstrip_percent (fmt : string) : string :=
  match fmt with
  | String "%" fmt' => lstrip_percent fmt'
  | _ => fmt
  end.

Section Template.
Context {lib : PythonLib}.

(** The inner function [replace_func] applied to a match with groups
    [name] and [fmt]. *)
Definition replace_func (number time : option Z)
    (name : string) (fmt : option string) : result string :=
  let value := if String.eqb name "Number" then number else time in
  match value with
  | None => Ok ""
  | Some v =>
      match fmt with
      | Some f => format_int v (lstrip_percent f)
      | None => Py.str_of_int v
      end
  end.

(** [re.sub(pattern, replace_func, s)]: the leftmost match is replaced
    and the scan resumes behind it; a character that starts no match is
    copied. [fuel] bounds the number of positions still to visit. *)
Fixpoint format_template_from (fuel : nat) (number time : option Z)
    (s : string) : result string :=
  match fuel with
  | O => Ok ""
  | S fuel' =>
      match match_placeholder s with
      | Some (name, fmt, rest) =>
          r ← replace_func number time name fmt;
          tail ← format_template_from fuel' number time rest;
          Ok (r +:+ tail)
      | None =>
          match s with
          | EmptyString => Ok ""
          | String c s' =>
              tail ← format_template_from fuel' number time s';
              Ok (String c tail)
          end
      end
  end.

Definition _format_template (template_str : string)
    (number time : option Z) : result string :=
  format_template_from (S (String.length template_str)) number time template_str.

End Template.

(** ** [parse_mpd] *)

(** A track as stored in the dictionary [tracks]; the fields are the keys
    ['key'], ['id'], ['type'], ['bandwidth'] and ['urls']. *)
Record Track := {
  track_key : string;
  track_id : string;
  track_type : string;
  track_bandwidth : Z;
  track_urls : list string;
}.

(** A Python [dict] with [str] keys: the items in insertion order, every
    key once. *)
Definition dict (V : Type) : Type := list (string * V).

(** [d[k] = v]: an existing key keeps its place and takes the new value,
    a new key goes to the end. *)
Fixpoint dict_set {V} (d : dict V) (k : string) (v : V) : dict V :=
  match d with
  | [] => [(k, v)]
  | (k', v') :: d' =>
      if String.eqb k' k then (k, v) :: d' else (k', v') :: dict_set d' k v
  end.

(** What [requests.get] followed by [raise_for_status] hands to the
    parser: the final URL and the outcome of [ET.fromstring] on the body. *)
Record Response := {
  resp_url : string;
  resp_xml : result Element;
}.

(** The cursors of the timeline loop together with the list [urls]. *)
Record cursor := {
  cur_urls : list string;
  current_time : Z;
  current_number : Z;
}.

Section Parser.
Context {lib : PythonLib}.

(** [urljoin(base_url, _format_template(t, number, time)
             .replace('$RepresentationID$', rep_id))]. *)
Definition segment_url (base_url rep_id template : string)
    (number time : option Z) : result string :=
  path ← _format_template template number time;
  urljoin base_url (Py.replace "$RepresentationID$" rep_id path).

(** [for _ in range(r + 1)], [n] iterations left. *)
Fixpoint repeat_loop (base_url rep_id media_template : string)
    (n : nat) (d : Z) (c : cursor) : result cursor :=
  match n with
  | O => Ok c
  | S n' =>
      media_url ← segment_url base_url rep_id media_template
                    (Some (current_number c)) (Some (current_time c));
      repeat_loop base_url rep_id media_template n' d
        {| cur_urls := cur_urls c ++ [media_url];
           current_time := current_time c + d;
           current_number := current_number c + 1 |}
  end.

(** The body of [for s_tag in timeline.findall('mpd:S', ns)]. *)
Definition s_tag_step (base_url rep_id media_template : string)
    (c : cursor) (s_tag : Element) : result cursor :=
  match _get_attrib s_tag "d" with
  | None => Ok c
  | Some d_str =>
      d ← Py.int_of_str d_str;
      t ← match _get_attrib s_tag "t" with
          | Some t_str => Py.int_of_str t_str
          | None => Ok (current_time c)
          end;
      r ← int_attrib s_tag "r" 0;
      repeat_loop base_url rep_id media_template (Z.to_nat (r + 1)) d
        {| cur_urls := cur_urls c; current_time := t;
           current_number := current_number c |}
  end.

Fixpoint timeline_loop (base_url rep_id media_template : string)
    (s_tags : list Element) (c : cursor) : result cursor :=
  match s_tags with
  | [] => Ok c
  | s_tag :: rest =>
      c' ← s_tag_step base_url rep_id media_template c s_tag;
      timeline_loop base_url rep_id media_template rest c'
  end.

(** [for i in range(segment_count)] of the branch without a timeline. *)
Definition vod_loop (base_url rep_id media_template : string)
    (start_number segment_count : Z) : result (list string) :=
  map_result
    (λ i : nat, segment_url base_url rep_id media_template
                  (Some (start_number + Z.of_nat i)) None)
    (seq 0 (Z.to_nat segment_count)).

(** The end of the loop body: the check [len(urls) == 0] and the
    assignment [tracks[key] = {...}]. *)
Definition record_track (rep : Element) (content_type rep_id : string)
    (urls : list string) (tracks : dict Track) : result (dict Track) :=
  let key := content_type +:+ "_" +:+ rep_id in
  if (length urls =? 0)%nat then Ok tracks
  else
    bandwidth ← int_attrib rep "bandwidth" 0;
    Ok (dict_set tracks key
          {| track_key := key; track_id := rep_id; track_type := content_type;
             track_bandwidth := bandwidth; track_urls := urls |}).

(** The media part of the loop body, from [start_number = ...] on:
    [urls] holds the initialization URL, if any. *)
Definition enumerate_media (root rep current_template : Element)
    (base_url content_type rep_id media_template : string)
    (urls : list string) (tracks : dict Track) : result (dict Track) :=
  start_number ← int_attrib current_template "startNumber" 1;
  match find current_template "SegmentTimeline" with
  | Some timeline =>
      c ← timeline_loop base_url rep_id media_template (findall timeline "S")
            {| cur_urls := urls; current_time := 0;
               current_number := start_number |};
      record_track rep content_type rep_id (cur_urls c) tracks
  | None =>
      let media_duration :=
        _parse_duration (_get_attrib root "mediaPresentationDuration") in
      timescale ← int_attrib current_template "timescale" 1;
      seg_duration_units ← int_attrib current_template "duration" 0;
      if (0 <? seg_duration_units) && (0 <? timescale)
         && PyFloat.gt_zero media_duration
      then
        segment_len_secs ← PyFloat.int_truediv seg_duration_units timescale;
        quotient ← PyFloat.div media_duration segment_len_secs;
        segment_count ← PyFloat.ceil quotient;
        media ← vod_loop base_url rep_id media_template start_number segment_count;
        record_track rep content_type rep_id (urls ++ media) tracks
      else Ok tracks
  end.

(** The body of [for rep in adaptation_set.findall(...)]; every
    [continue] returns [tracks] as it is. *)
Definition parse_representation (root : Element) (base_url content_type : string)
    (segment_template : option Element)
    (tracks : dict Track) (rep : Element) : result (dict Track) :=
  match _get_attrib rep "id" with
  | None => Ok tracks
  | Some rep_id =>
      if Py.is_empty rep_id then Ok tracks
      else
        let current_template :=
          match find rep "SegmentTemplate" with
          | Some rep_segment_template => Some rep_segment_template
          | None => segment_template
          end in
        match current_template with
        | None => Ok tracks
        | Some current_template =>
            urls ← match _get_attrib current_template "initialization" with
                   | Some init_template =>
                       if Py.is_empty init_template then Ok []
                       else
                         init_url ← segment_url base_url rep_id init_template None None;
                         Ok [init_url]
                   | None => Ok []
                   end;
            match _get_attrib current_template "media" with
            | None => Ok tracks
            | Some media_template =>
                if Py.is_empty media_template then Ok tracks
                else enumerate_media root rep current_template base_url
                       content_type rep_id media_template urls tracks
            end
        end
  end.

(** A [for] loop whose body may raise. *)
Fixpoint for_each {A S} (body : S → A → result S) (xs : list A) (s : S) : result S :=
  match xs with
  | [] => Ok s
  | x :: xs' => s' ← body s x; for_each body xs' s'
  end.

(** The body of [for adaptation_set in period.findall(...)]. *)
Definition parse_adaptation_set (root : Element) (base_url : string)
    (tracks : dict Track) (adaptation_set : Element) : result (dict Track) :=
  let content_type := default "unknown" (_get_attrib adaptation_set "contentType") in
  let segment_template := find adaptation_set "SegmentTemplate" in
  for_each (parse_representation root base_url content_type segment_template)
    (findall adaptation_set "Representation") tracks.

(** The [try] block of [parse_mpd]. [Ok None] is the early
    [return None, None]. *)
Definition parse_mpd_body (fetched : result Response)
    : result (option (dict Track * string)) :=
  response ← fetched;
  let base_url := Py.rsplit_slash_head (resp_url response) +:+ "/" in
  root ← resp_xml response;
  let mpd_type := default "static" (_get_attrib root "type") in
  match find root "Period" with
  | None => Ok None
  | Some period =>
      tracks ← for_each (parse_adaptation_set root base_url)
                 (findall period "AdaptationSet") [];
      Ok (Some (tracks, mpd_type))
  end.

(** [parse_mpd]: [None] stands for the pair [(None, None)]. The three
    handlers are tried in the order of the source; each returns
    [(None, None)]. *)
Definition parse_mpd (fetched : result Response) : option (dict Track * string) :=
  match parse_mpd_body fetched with
  | Ok r => r
  | Raise RequestException => None
  | Raise ParseError => None
  | Raise _ => None
  end.

End Parser.

(** ** The [stream] handler up to the choice of the track *)

(** What the handler does with the request: [abort(status)] or a
    streaming response for the chosen track. *)
Inductive http_result : Type :=
  | Abort (status : Z)
  | Streaming (best_track : Track) (mpd_type : string) (mimetype : string).

(** [max(xs, key=key)]: the first element whose key no later element
    exceeds; [None] stands for the [ValueError] on an empty argument. *)
Definition max_by {A} (key : A → Z) (xs : list A) : option A :=
  match xs with
  | [] => None
  | x :: xs' => Some (foldl (λ best y, if key best <? key y then y else best) x xs')
  end.

(** The condition of the comprehension that builds [target_tracks]. *)
Definition kind_matches (stream_type : string) (item : string * Track) : bool :=
  Py.contains stream_type (Py.lower item.1).

(** The condition of the comprehension that builds [valid_tracks]. *)
Definition has_urls (item : string * Track) : bool :=
  negb (length (track_urls item.2) =? 0)%nat.

(** The selection made on a parsed, non-empty [initial_tracks]. *)
Definition select_track (stream_type : string) (initial_tracks : dict Track)
    : Track + Z :=
  let target_tracks := List.filter (kind_matches stream_type) initial_tracks in
  match target_tracks with
  | [] => inr 404
  | _ =>
      let valid_tracks := List.filter has_urls target_tracks in
      match valid_tracks with
      | [] => inr 500
      | _ =>
          match max_by track_bandwidth (map snd valid_tracks) with
          | Some best_track => inl best_track
          | None => inr 500   (* not reached: the argument is not empty *)
          end
      end
  end.

Section Stream.
Context {lib : PythonLib}.

(** [stream(stream_type, mpd_url_path)], given what the fetch of the
    manifest returns. [check_drm_protection] only feeds a log line. *)
Definition stream (stream_type : string) (fetched : result Response) : http_result :=
  if negb (String.eqb stream_type "video" || String.eqb stream_type "audio")
  then Abort 404
  else
    match parse_mpd fetched with
    | None => Abort 500
    | Some ([], _) => Abort 500
    | Some (initial_tracks, mpd_type) =>
        match select_track stream_type initial_tracks with
        | inr status => Abort status
        | inl best_track =>
            Streaming best_track mpd_type
              (if String.eqb stream_type "video" then "video/mp4" else "audio/mp4")
        end
    end.

End Stream.

(** ** [reconstruct_url_from_path] *)

Definition reconstruct_url_from_path (path_segment : string) : string :=
  if Py.startswith "http:/" path_segment
     && negb (Py.startswith "http://" path_segment)
  then Py.replace_first "http:/" "http://" path_segment
  else if Py.startswith "https:/" path_segment
          && negb (Py.startswith "https://" path_segment)
  then Py.replace_first "https:/" "https://" path_segment
  else path_segment.

(** ** [check_drm_protection] *)

(** The chain of tests on the attribute [schemeIdUri] of a
    [ContentProtection] element; [None] when none of them holds. *)
Definition drm_scheme (scheme : string) : option string :=
  if Py.contains_points (Py.points "EDEF8BA9") (Py.upper scheme)
  then Some "Widevine"
  else if Py.contains_points (Py.points "9A04F079") (Py.upper scheme)
  then Some "PlayReady"
  else if Py.contains "cenc" (Py.lower scheme)
  then Some "CENC (Generic)"
  else None.

(** [for adaptation_set in period.findall('mpd:AdaptationSet', ns)] with
    its [return] statements; the end of the list falls through to
    [return False, None]. *)
Fixpoint drm_scan (adaptation_sets : list Element) : bool * option string :=
  match adaptation_sets with
  | [] => (false, None)
  | adaptation_set :: rest =>
      match find adaptation_set "ContentProtection" with
      | Some protection =>
          let scheme := default "" (dict_get (attrib protection) "schemeIdUri") in
          match drm_scheme scheme with
          | Some name => (true, Some name)
          | None => drm_scan rest
          end
      | None => drm_scan rest
      end
  end.

(** [check_drm_protection(mpd_url)], given what its own fetch of the
    manifest returns. The bare [except] turns every exception into
    [(False, None)]. The test [if period:] is the truth value of an
    element, which is whether it has children. *)
Definition check_drm_protection (fetched : result Response) : bool * option string :=
  match fetched with
  | Raise _ => (false, None)
  | Ok response =>
      match resp_xml response with
      | Raise _ => (false, None)
      | Ok root =>
          match find root "Period" with
          | Some period =>
              match children period with
              | [] => (false, None)
              | _ => drm_scan (findall period "AdaptationSet")
              end
          | None => (false, None)
          end
      end
  end.

(** ** The [debug] handler *)

(** An entry of the object ["tracks"] of the answer. *)
Record track_summary := {
  summary_id : string;
  summary_type : string;
  summary_bandwidth : Z;
  summary_segment_count : nat;
}.

(** The answer of [debug] as [jsonify] writes it: the error object with
    status 500, or the object [result] with status 200. A member that
    is [None] is written as [null]; the members of the object ["tracks"]
    are listed in the order in which they are written. *)
Inductive debug_result : Type :=
  | DebugError (url : string)
  | DebugOk (mpd_url mpd_type : string) (drm_protected : bool)
      (drm_type warning : option string) (tracks : dict track_summary).

(** [jsonify] writes the members of an object sorted by key, which is
    the default of the application ([sort_keys]); [str] keys compare by
    code point. The keys of a dictionary differ from one another, so the
    order of the members is fixed by the keys alone. *)
Fixpoint insert_by_key {V} (item : string * V) (items : dict V) : dict V :=
  match items with
  | [] => [item]
  | other :: rest =>
      if String.leb item.1 other.1 then item :: items
      else other :: insert_by_key item rest
  end.

Definition sort_keys {V} (items : dict V) : dict V :=
  foldr insert_by_key [] items.

Definition summarise (item : string * Track) : string * track_summary :=
  (item.1,
   {| summary_id := track_id item.2; summary_type := track_type item.2;
      summary_bandwidth := track_bandwidth item.2;
      summary_segment_count := length (track_urls item.2) |}).

Section Debug.
Context {lib : PythonLib}.

(** [debug(mpd_url_path)], given what the fetch of [check_drm_protection]
    and the fetch of [parse_mpd] return for the reconstructed URL; the
    answer is what [jsonify] writes for the dictionary built. *)
Definition debug (drm_fetched parse_fetched : string → result Response)
    (mpd_url_path : string) : debug_result :=
  let mpd_url := reconstruct_url_from_path mpd_url_path in
  let '(is_drm, drm_type) := check_drm_protection (drm_fetched mpd_url) in
  match parse_mpd (parse_fetched mpd_url) with
  | None | Some ([], _) => DebugError mpd_url
  | Some (tracks, mpd_type) =>
      DebugOk mpd_url mpd_type is_drm
        (if is_drm then drm_type else None)
        (if is_drm
         then Some "Content is DRM-protected and cannot be played without decryption"
         else None)
        (sort_keys (map summarise tracks))
  end.

End Debug.

(** ** The producer thread [segment_fetcher] *)

(** The surroundings of the producer. Every call into them happens at an
    instant of the producer's own clock, so that the same call can be
    answered differently later on. *)
Record World := {
  (** [stop_event.is_set()] *)
  stop_is_set : nat → bool;
  (** [session.get(url, timeout=10)], [raise_for_status()] and
      [resp.content] *)
  session_get : nat → string → result string;
  (** the fetch made by [parse_mpd(mpd_url)] *)
  manifest_get : nat → result Response;
  (** the number of items the consumer has taken out of the queue by an
      instant: its calls of [segment_queue.get()] that have returned *)
  taken : nat → nat;
}.

(** [Queue(maxsize=10)]. *)
Definition maxsize : nat := 10.

(** The state of the producer. [queue] lists the arguments of every call
    of [q.put] that has returned, oldest first, [None] being the end
    marker. [delivered] is a ghost field: the URLs whose content was
    put. *)
Record fetcher := {
  clock : nat;
  queue : list (option string);
  sent_segments : gset string;
  delivered : list string;
}.

Definition tick (st : fetcher) : fetcher :=
  {| clock := S (clock st); queue := queue st;
     sent_segments := sent_segments st; delivered := delivered st |}.

(** The item has gone into the queue. *)
Definition enqueue (item : option string) (st : fetcher) : fetcher :=
  {| clock := clock st; queue := queue st ++ [item];
     sent_segments := sent_segments st; delivered := delivered st |}.

(** How a loop was left. [Blocked] is a call of [q.put] that has not
    returned: the producer is waiting in it. [Running] is a loop cut short
    by the bound on the number of iterations considered: the thread is
    still at work. *)
Inductive signal : Set :=
  | Normal
  | Break
  | Raised (e : exn)
  | Blocked
  | Running.

(** Where the thread stands when it is observed: it has returned, it
    waits in a call of [q.put], or it is in its loop. *)
Inductive progress : Set :=
  | Finished
  | Waiting
  | Working.

Section Fetcher.
Context {lib : PythonLib}.
Variable w : World.

(** The buffer holds [maxsize] items at the instant of [st]: so many
    more were put than the consumer has taken. *)
Definition full (st : fetcher) : bool :=
  (maxsize <=? length (queue st) - taken w (clock st))%nat.

(** [q.put(item)]: the call blocks while the buffer is full and returns
    once the item is in the queue. The Boolean tells whether the call
    has returned; it has not when the buffer stayed full for [wait]
    instants, and the producer is then still in the call. *)
Fixpoint put (wait : nat) (item : option string) (st : fetcher) : fetcher * bool :=
  if full st then
    match wait with
    | O => (st, false)
    | S wait' => put wait' item (tick st)
    end
  else (enqueue item st, true).

(** The bound on the instants for which a blocked [q.put] is watched. *)
Variable patience : nat.

(** [for idx, segment_url in enumerate(all_urls)] of the static branch. *)
Fixpoint vod_for (urls : list string) (st : fetcher) : fetcher * signal :=
  match urls with
  | [] => (st, Normal)
  | segment_url :: rest =>
      if stop_is_set w (clock st) then (tick st, Break)
      else
        let st1 := tick st in
        match session_get w (clock st1) segment_url with
        | Ok content =>
            let '(st2, returned) := put patience (Some content) st1 in
            if returned then
              vod_for rest
                {| clock := S (clock st2); queue := queue st2;
                   sent_segments := sent_segments st2;
                   delivered := delivered st2 ++ [segment_url] |}
            else (st2, Blocked)
        | Raise RequestException => vod_for rest (tick st1)
        | Raise e => (tick st1, Raised e)
        end
  end.

(** [while not stop_event.is_set()] of the static branch, at most
    [fuel] iterations. *)
Fixpoint vod_while (fuel : nat) (all_urls : list string) (st : fetcher)
    : fetcher * signal :=
  match fuel with
  | O => (st, Running)
  | S fuel' =>
      if stop_is_set w (clock st) then (tick st, Normal)
      else
        let '(st1, s) := vod_for all_urls (tick st) in
        match s with
        | Raised e => (st1, Raised e)
        | Blocked => (st1, Blocked)
        | _ =>
            if stop_is_set w (clock st1) then (tick st1, Normal)
            else vod_while fuel' all_urls (tick st1)
        end
  end.

(** [for segment_url in all_current_urls] of the live branch; the
    Boolean is [found_new]. *)
Fixpoint live_for (urls : list string) (found_new : bool) (st : fetcher)
    : fetcher * bool * signal :=
  match urls with
  | [] => (st, found_new, Normal)
  | segment_url :: rest =>
      if stop_is_set w (clock st) then (tick st, found_new, Break)
      else
        let st1 := tick st in
        if bool_decide (segment_url ∈ sent_segments st1) then live_for rest found_new st1
        else
          match session_get w (clock st1) segment_url with
          | Ok content =>
              let '(st2, returned) := put patience (Some content) st1 in
              if returned then
                live_for rest true
                  {| clock := S (clock st2); queue := queue st2;
                     sent_segments := {[segment_url]} ∪ sent_segments st2;
                     delivered := delivered st2 ++ [segment_url] |}
              else (st2, true, Blocked)
          | Raise RequestException => live_for rest true (tick st1)
          | Raise e => (tick st1, true, Raised e)
          end
  end.

(** [while not stop_event.is_set()] of the live branch, at most [fuel]
    iterations. [time.sleep] lets one instant pass. *)
Fixpoint live_while (fuel : nat) (track_key : string) (st : fetcher)
    : fetcher * signal :=
  match fuel with
  | O => (st, Running)
  | S fuel' =>
      if stop_is_set w (clock st) then (tick st, Normal)
      else
        let st1 := tick st in
        match parse_mpd (manifest_get w (clock st1)) with
        | None | Some ([], _) => live_while fuel' track_key (tick (tick st1))
        | Some (live_tracks, _) =>
            match dict_get live_tracks track_key with
            | None => (tick st1, Break)
            | Some live_track =>
                match track_urls live_track with
                | [] => (tick st1, Break)
                | all_current_urls =>
                    let '(st2, found_new, s) :=
                      live_for all_current_urls false (tick st1) in
                    match s with
                    | Raised e => (st2, Raised e)
                    | Blocked => (st2, Blocked)
                    | _ =>
                        live_while fuel' track_key
                          (if found_new then st2 else tick st2)
                    end
                end
            end
        end
  end.

Definition start : fetcher :=
  {| clock := 0; queue := []; sent_segments := ∅; delivered := [] |}.

(** The [try] block of [segment_fetcher]: the loop of the mode. *)
Definition fetch_loop (fuel : nat) (track : Track) (mpd_type : string)
    : fetcher * signal :=
  if String.eqb mpd_type "static"
  then vod_while fuel (track_urls track) start
  else live_while fuel (track_key track) start.

(** [segment_fetcher(q, session, track, mpd_type, mpd_url, stop_event)]
    observed after at most [fuel] iterations of its [while] loop, a
    blocked [q.put] being watched for [patience] instants. When the
    [try] block is left, normally or by an exception, the handler
    swallows the exception and [finally] calls [q.put(None)]; the thread
    has finished when that call has returned. *)
Definition segment_fetcher (fuel : nat) (track : Track) (mpd_type : string)
    : fetcher * progress :=
  let '(st, s) := fetch_loop fuel track mpd_type in
  match s with
  | Running => (st, Working)
  | Blocked => (st, Waiting)
  | _ =>
      let '(st', returned) := put patience None st in
      (st', if returned then Finished else Waiting)
  end.

End Fetcher.

(** ** A sample of the library functions, for running the model *)

(** The two functions below agree with Python on the inputs of the
    examples of this file and make no claim beyond them: [join] is
    [urljoin] for a base that ends in ['/'] and a plain relative path
    and, as [urljoin] does, refuses a reference that opens a host part
    with a bracket it does not close,
    [format_decimal] is [format] for the specifications ['d'], ['Nd'] and
    ['0Nd']. *)
Module Sample.

Definition join (base url : string) : result string :=
  if Py.startswith "//[" url && negb (Py.contains "]" url)
  then Raise ValueError
  else Ok (base +:+ url).

Fixpoint repeat_char (c : ascii) (n : nat) : string :=
  match n with
  | O => EmptyString
  | S n' => String c (repeat_char c n')
  end.

Definition format_decimal (value : Z) (spec : string) : result string :=
  let '(zero_flag, spec1) :=
    match spec with
    | String "0" rest => (true, rest)
    | _ => (false, spec)
    end in
  let '(width, spec2) := Py.span Py.is_digit spec1 in
  match spec2 with
  | EmptyString | String "d" EmptyString =>
      let sign := if value <? 0 then "-" else "" in
      digits ← Py.str_of_int (Z.abs value);
      let fill := (Z.to_nat (Py.digits_value 0 width)
                   - String.length sign - String.length digits)%nat in
      Ok (if zero_flag then sign +:+ repeat_char "0" fill +:+ digits
          else repeat_char " " fill +:+ sign +:+ digits)
  | _ => Raise ValueError
  end.

#[export] Instance lib : PythonLib :=
  {| urljoin := join; format_int := format_decimal |}.

(** The manifest of the first example of the specification: one video
    representation [v0], segments of 4 units at time scale 1, a
    presentation of 20 seconds. *)
Definition template_vod : Element :=
  Elem (mpd "SegmentTemplate")
    [("timescale", "1"); ("duration", "4");
     ("initialization", "$RepresentationID$/init.mp4");
     ("media", "$RepresentationID$/seg_$Number%05d$.m4s")] [].

Definition manifest_vod : Element :=
  Elem (mpd "MPD") [("type", "static"); ("mediaPresentationDuration", "PT20S")]
    [Elem (mpd "Period") []
       [Elem (mpd "AdaptationSet") [("contentType", "video")]
          [Elem (mpd "Representation") [("id", "v0"); ("bandwidth", "500000")]
             [template_vod]]]].

Definition response_vod : Response :=
  {| resp_url := "http://host/path/manifest.mpd"; resp_xml := Ok manifest_vod |}.

(** The template of the first example with the same segments counted
    in thousandths of a second. *)
Definition template_scaled : Element :=
  Elem (mpd "SegmentTemplate")
    [("timescale", "1000"); ("duration", "4000");
     ("initialization", "$RepresentationID$/init.mp4");
     ("media", "$RepresentationID$/seg_$Number%05d$.m4s")] [].

(** A manifest of one video representation without a timeline and
    without initialization pattern, for a total duration, a time scale
    and a segment duration. *)
Definition response_duration (total timescale duration : string) : Response :=
  {| resp_url := "http://host/path/manifest.mpd";
     resp_xml :=
       Ok (Elem (mpd "MPD")
             [("type", "static"); ("mediaPresentationDuration", total)]
             [Elem (mpd "Period") []
                [Elem (mpd "AdaptationSet") [("contentType", "video")]
                   [Elem (mpd "Representation")
                      [("id", "v0"); ("bandwidth", "500000")]
                      [Elem (mpd "SegmentTemplate")
                         [("timescale", timescale); ("duration", duration);
                          ("media", "$RepresentationID$/seg_$Number$.m4s")]
                         []]]]]) |}.

(** The decimal numeral of [10 ^ n]. *)
Definition power_of_ten (n : nat) : string := String "1" (repeat_char "0" n).

(** The timeline of the second example: [<S d="2" r="2"/><S d="3"/>]. *)
Definition s_tags : list Element :=
  [Elem (mpd "S") [("d", "2"); ("r", "2")] [];
   Elem (mpd "S") [("d", "3")] []].

Definition template_timeline (s_tags : list Element) : Element :=
  Elem (mpd "SegmentTemplate")
    [("startNumber", "1");
     ("initialization", "init-$RepresentationID$.mp4");
     ("media", "$RepresentationID$-$Number$-$Time$.m4s")]
    [Elem (mpd "SegmentTimeline") [] s_tags].

Definition manifest_live (s_tags : list Element) : Element :=
  Elem (mpd "MPD") [("type", "dynamic")]
    [Elem (mpd "Period") []
       [Elem (mpd "AdaptationSet") [("contentType", "video")]
          [Elem (mpd "Representation") [("id", "v0"); ("bandwidth", "500000")]
             [template_timeline s_tags]]]].

Definition response_live (s_tags : list Element) : Response :=
  {| resp_url := "http://host/live/manifest.mpd";
     resp_xml := Ok (manifest_live s_tags) |}.

(** A manifest with a period and nothing in it. *)
Definition response_empty : Response :=
  {| resp_url := "http://host/manifest.mpd";
     resp_xml := Ok (Elem (mpd "MPD") [] [Elem (mpd "Period") [] []]) |}.

(** Surroundings in which the stop event is set from instant 10 on,
    the fetch made at instant 4 fails, every other fetch succeeds, the
    manifest is the live one above and the consumer takes every item as
    soon as it is put. *)
Definition world : World :=
  {| stop_is_set := λ t, (10 <=? t)%nat;
     session_get := λ t url,
       if (t =? 4)%nat then Raise RequestException else Ok ("data of " +:+ url);
     manifest_get := λ _, Ok (response_live s_tags);
     taken := λ t, t |}.

Definition track : Track :=
  {| track_key := "video_v0"; track_id := "v0"; track_type := "video";
     track_bandwidth := 500000; track_urls := ["a"; "b"] |}.

(** The track that the first manifest yields. *)
Definition track_vod : Track :=
  {| track_key := "video_v0"; track_id := "v0"; track_type := "video";
     track_bandwidth := 500000;
     track_urls :=
       ["http://host/path/v0/init.mp4";
        "http://host/path/v0/seg_00001.m4s"; "http://host/path/v0/seg_00002.m4s";
        "http://host/path/v0/seg_00003.m4s"; "http://host/path/v0/seg_00004.m4s";
        "http://host/path/v0/seg_00005.m4s"] |}.

(** Surroundings in which the stop event is never set and every fetch
    raises an exception that is not a [RequestException]. *)
Definition faulty_world : World :=
  {| stop_is_set := λ _, false;
     session_get := λ _ _, Raise OtherException;
     manifest_get := λ _, Ok (response_live s_tags);
     taken := λ t, t |}.

(** The first manifest without its total duration. *)
Definition response_vod_no_duration : Response :=
  {| resp_url := "http://host/path/manifest.mpd";
     resp_xml :=
       Ok (Elem (mpd "MPD") [("type", "static")]
             [Elem (mpd "Period") []
                [Elem (mpd "AdaptationSet") [("contentType", "video")]
                   [Elem (mpd "Representation") [("id", "v0"); ("bandwidth", "500000")]
                      [template_vod]]]]) |}.



(** The first manifest with an audio set behind the video set. *)
Definition response_two_tracks : Response :=
  {| resp_url := "http://host/path/manifest.mpd";
     resp_xml :=
       Ok (Elem (mpd "MPD")
             [("type", "static"); ("mediaPresentationDuration", "PT20S")]
             [Elem (mpd "Period") []
                [Elem (mpd "AdaptationSet") [("contentType", "video")]
                   [Elem (mpd "Representation")
                      [("id", "v0"); ("bandwidth", "500000")] [template_vod]];
                 Elem (mpd "AdaptationSet") [("contentType", "audio")]
                   [Elem (mpd "Representation")
                      [("id", "a0"); ("bandwidth", "64000")] [template_vod]]]]) |}.

(** A protected manifest. The video set declares the common encryption
    scheme first and Widevine second; the audio set declares PlayReady. *)
Definition manifest_protected : Element :=
  Elem (mpd "MPD") [("type", "static")]
    [Elem (mpd "Period") []
       [Elem (mpd "AdaptationSet") [("contentType", "video")]
          [Elem (mpd "ContentProtection")
             [("schemeIdUri", "urn:mpeg:dash:mp4protection:2011")] [];
           Elem (mpd "ContentProtection")
             [("schemeIdUri", "urn:uuid:edef8ba9-79d6-4ace-a3c8-27dcd51d21ed")] []];
        Elem (mpd "AdaptationSet") [("contentType", "audio")]
          [Elem (mpd "ContentProtection")
             [("schemeIdUri", "urn:uuid:9a04f079-9840-4286-ab92-e65be0885f95")] []]]].

Definition response_protected : Response :=
  {| resp_url := "http://host/path/manifest.mpd"; resp_xml := Ok manifest_protected |}.

End Sample.

(** ** Notions used in the statements *)

(** Every character of [s] satisfies [p]. *)
Fixpoint all_chars (p : ascii → bool) (s : string) : bool :=
  match s with
  | EmptyString => true
  | String c s' => p c && all_chars p s'
  end.


Definition digits (s : string) : Prop :=
  Py.is_empty s = false ∧ all_chars Py.is_digit s = true.






(** A character other than the dollar sign. *)
Definition not_dollar (c : ascii) : bool := negb (Ascii.eqb c "$").

(** The text between the dollar signs of a placeholder the expander
    recognises: [Number] or [Time], alone or followed by [%] and a
    non-empty run of letters and digits. *)
Definition recognised_name (name : string) : bool :=
  let tail_ok s :=
    match s with
    | EmptyString => true
    | String "%" spec => negb (Py.is_empty spec) && all_chars Py.is_alnum spec
    | _ => false
    end in
  if Py.startswith "Number" name then tail_ok (Py.drop 6 name)
  else if Py.startswith "Time" name then tail_ok (Py.drop 4 name)
  else false.

(** [s] continues an opening dollar sign to a recognised placeholder. *)
Definition opens_placeholder (s : string) : Prop :=
  ∃ name rest, recognised_name name = true ∧ s = name +:+ "$" +:+ rest.

(** What a recognised placeholder is replaced by: nothing when the
    value was not supplied, else the value in its default string form or
    formatted by the specification that follows the percent sign. *)
Definition rendered {lib : PythonLib} (value : option Z) (spec : option string)
    : result string :=
  match value with
  | None => Ok ""
  | Some v =>
      match spec with
      | None => Py.str_of_int v
      | Some sp => format_int v sp
      end
  end.

(** The segment numbers and times of [n] segments of duration [d] that
    start with number [number] at time [time]: after each segment the
    number goes up by one and the time by [d]. *)
Fixpoint timeline_points (number time d : Z) (n : nat) : list (Z * Z) :=
  match n with
  | O => []
  | S n' => (number, time) :: timeline_points (number + 1) (time + d) d n'
  end.

(** The URLs of the media segments with the given numbers and times. *)
Definition media_urls {lib : PythonLib} (base_url rep_id media_template : string)
    (points : list (Z * Z)) : result (list string) :=
  map_result
    (λ p, segment_url base_url rep_id media_template (Some p.1) (Some p.2))
    points.

(** The URLs of [n] media segments numbered from [start] on, without a
    time. *)
Definition numbered_urls {lib : PythonLib} (base_url rep_id media_template : string)
    (start : Z) (n : nat) : result (list string) :=
  map_result
    (λ i : nat, segment_url base_url rep_id media_template
                  (Some (start + Z.of_nat i)) None)
    (seq 0 n).

(** What holds of every entry of a dictionary of tracks that the parser
    returns. *)
Definition track_ok (item : string * Track) : Prop :=
  item.1 = track_key item.2 ∧
  track_key item.2 = track_type item.2 +:+ "_" +:+ track_id item.2 ∧
  track_urls item.2 ≠ [].

(** A track the selector may choose for [kind]: its key, in lower case,
    contains the kind, in lower case, and it has segment URLs. *)
Definition candidate (kind : string) (tracks : dict Track) (t : Track) : Prop :=
  ∃ k, (k, t) ∈ tracks ∧
       Py.contains (Py.lower kind) (Py.lower k) = true ∧
       track_urls t ≠ [].

(** The arguments of [q.put] that carry a payload. *)
Definition payloads (q : list (option string)) : list string :=
  omap id q.

(** No end marker has been put, and every payload put is accounted for
    by a delivered URL. *)
Definition queue_ok (st : fetcher) : Prop :=
  Forall is_Some (queue st) ∧ length (queue st) = length (delivered st).

(** The set of sent segments holds exactly the delivered URLs, and none
    was delivered twice. *)
Definition seen_ok (st : fetcher) : Prop :=
  NoDup (delivered st) ∧ ∀ u, u ∈ sent_segments st ↔ u ∈ delivered st.

(** [st'] is a later state of the producer than [st]. *)
Definition extends (st st' : fetcher) : Prop :=
  sent_segments st ⊆ sent_segments st' ∧
  delivered st `prefix_of` delivered st' ∧
  queue st `prefix_of` queue st' ∧
  (clock st ≤ clock st')%nat.

(** A character other than the percent sign. *)
Definition not_percent (c : ascii) : bool := negb (Ascii.eqb c "%").

(** A float that is neither negative nor NaN: [+0.0], a positive
    finite number or [+inf]. *)
Definition nonneg_float (x : PyFloat.float) : Prop :=
  match x with
  | S754_zero false | S754_infinity false | S754_finite false _ _ => True
  | _ => False
  end.


(** [n] is the least integer that is not below the float [x], for a
    finite [x]: the float [(-1)^s * m * 2^e] lies in [(n - 1, n]]. *)
Definition float_ceiling (x : PyFloat.float) (n : Z) : Prop :=
  match x with
  | S754_zero _ => n = 0
  | S754_finite s m e =>
      let v := cond_Zopp s (Zpos m) in
      if 0 <=? e then n = v * 2 ^ e
      else (n - 1) * 2 ^ (- e) < v ≤ n * 2 ^ (- e)
  | _ => False
  end.

(** What [check_drm_protection] reads off an adaptation set: the scheme
    named by the attribute [schemeIdUri] of its first [ContentProtection]
    child, when there is such a child and [drm_scheme] knows the name. *)
Definition protection_of (adaptation_set : Element) : option string :=
  protection ← find adaptation_set "ContentProtection";
  drm_scheme (default "" (dict_get (attrib protection) "schemeIdUri")).

(** A delivered URL [u] and the queue entry put for it: [u] comes from
    [src], and the entry is the content of a fetch of [u] that succeeded,
    made right after the stop event was seen clear, before the instant
    [now]. *)
Definition fetched_from (w : World) (src : string → Prop) (now : nat)
    (u : string) (item : option string) : Prop :=
  src u ∧
  ∃ t content, item = Some content ∧ stop_is_set w t = false ∧
               session_get w (S t) u = Ok content ∧ (S t < now)%nat.

(** Every entry of the queue is accounted for in this way by the
    delivered URL at the same position. *)
Definition provenance (w : World) (src : string → Prop) (st : fetcher) : Prop :=
  Forall2 (fetched_from w src (clock st)) (delivered st) (queue st).

(** [u] is a URL of the track [track_key] in the manifest as parsed at
    some instant. *)
Definition listed_live {lib : PythonLib} (w : World) (track_key u : string) : Prop :=
  ∃ t live_tracks mpd_type live_track,
    parse_mpd (manifest_get w t) = Some (live_tracks, mpd_type) ∧
    dict_get live_tracks track_key = Some live_track ∧
    u ∈ track_urls live_track.

(** The names [check_drm_protection] can return. *)
Definition drm_names : list string := ["Widevine"; "PlayReady"; "CENC (Generic)"].

(** ** Strings and the [result] monad *)

Lemma append_assoc (a b c : string) : (a +:+ b) +:+ c = a +:+ (b +:+ c).
Proof. induction a as [|x a IH]; simpl; [done | by rewrite IH]. Qed.

Lemma append_nil_r (a : string) : a +:+ "" = a.
Proof. induction a as [|x a IH]; simpl; [done | by rewrite IH]. Qed.

Lemma length_append (a b : string) :
  String.length (a +:+ b) = (String.length a + String.length b)%nat.
Proof. induction a as [|x a IH]; simpl; [done | by rewrite IH]. Qed.

Lemma bind_Ok_inv {A B} (m : result A) (f : A → result B) (b : B) :
  m ≫= f = Ok b → ∃ a, m = Ok a ∧ f a = Ok b.
Proof. destruct m as [a|e]; [by exists a | done]. Qed.

Lemma span_spec (p : ascii → bool) (s a b : string) :
  Py.span p s = (a, b) →
  s = a +:+ b ∧ all_chars p a = true ∧
  match b with String c _ => p c = false | EmptyString => True end.
Proof.
  revert a b. induction s as [|c s IH]; simpl; intros a b Hs.
  - by inversion Hs.
  - destruct (p c) eqn:Hc.
    + destruct (Py.span p s) as [a' b'] eqn:Hsp. inversion Hs; subst.
      destruct (IH a' b eq_refl) as (-> & Ha & Hb).
      simpl. by rewrite Hc, Ha.
    + inversion Hs; subst. simpl. by rewrite Hc.
Qed.

Lemma span_append (p : ascii → bool) (a b : string) :
  all_chars p a = true →
  match b with String c _ => p c = false | EmptyString => True end →
  Py.span p (a +:+ b) = (a, b).
Proof.
  intros Ha Hb. induction a as [|c a IH]; simpl in *.
  - destruct b as [|c b]; simpl; [done | by rewrite Hb].
  - apply andb_prop in Ha as [Hc Ha]. by rewrite Hc, (IH Ha).
Qed.

Lemma span_length (p : ascii → bool) (s a b : string) :
  Py.span p s = (a, b) →
  String.length s = (String.length a + String.length b)%nat.
Proof. intros Hs. apply span_spec in Hs as (-> & _). apply length_append. Qed.

(** ** The duration parser *)















(** ** The template expander *)

Lemma drop_length (n : nat) (s : string) :
  (String.length (Py.drop n s) ≤ String.length s)%nat.
Proof.
  revert s. induction n as [|n IH]; intros [|c s]; simpl; try lia.
  specialize (IH s). lia.
Qed.

Lemma match_placeholder_shorter (s name rest : string) (fmt : option string) :
  match_placeholder s = Some (name, fmt, rest) →
  (String.length rest < String.length s)%nat.
Proof.
  unfold match_placeholder. destruct s as [|c s1]; [done|].
  destruct (Ascii.eqb c "$") eqn:Hc;
    [apply Ascii.eqb_eq in Hc as -> | by destruct c as [[] [] [] [] [] [] [] []]].
  set (named := if Py.startswith "Number" s1 then _ else _).
  assert (∀ nm s2, named = Some (nm, s2) →
            (String.length s2 ≤ String.length s1)%nat) as Hnamed.
  { subst named. intros nm s2.
    destruct (Py.startswith "Number" s1);
      [intros [= _ <-]; apply (drop_length 6 s1)|].
    destruct (Py.startswith "Time" s1);
      [intros [= _ <-]; apply (drop_length 4 s1)|done]. }
  destruct named as [[nm s2]|]; [|done].
  specialize (Hnamed nm s2 eq_refl). simpl.
  assert (∀ o : option (string * option string * string),
            o = match s2 with
                | String "$" r => Some (nm, None, r)
                | _ => None
                end →
            o = Some (name, fmt, rest) →
            (String.length rest < S (String.length s1))%nat) as Hplain.
  { intros o -> Ho. destruct s2 as [|d r]; [done|].
    destruct (Ascii.eqb d "$") eqn:Hd;
      [apply Ascii.eqb_eq in Hd as -> | by destruct d as [[] [] [] [] [] [] [] []]].
    inversion Ho; subst. simpl in Hnamed. lia. }
  destruct s2 as [|d s3]; [done|].
  destruct (Ascii.eqb d "%") eqn:Hd.
  - apply Ascii.eqb_eq in Hd as ->.
    destruct (Py.span Py.is_alnum s3) as [spec s4] eqn:Hsp.
    apply span_length in Hsp. simpl in Hnamed.
    destruct s4 as [|e r]; [by intros; eapply Hplain|].
    destruct (Ascii.eqb e "$") eqn:He.
    + apply Ascii.eqb_eq in He as ->.
      destruct (negb (Py.is_empty spec)); [|by intros; eapply Hplain].
      intros [= _ _ <-]. simpl in Hsp. lia.
    + intros Hm. eapply (Hplain _ eq_refl).
      by destruct e as [[] [] [] [] [] [] [] []].
  - intros Hm. eapply (Hplain _ eq_refl).
    by destruct d as [[] [] [] [] [] [] [] []].
Qed.

Section TemplateFacts.
Context {lib : PythonLib}.

Lemma format_template_from_fuel (fuel fuel' : nat) (number time : option Z) (s : string) :
  (String.length s < fuel)%nat → (String.length s < fuel')%nat →
  format_template_from fuel number time s = format_template_from fuel' number time s.
Proof.
  revert fuel' s. induction fuel as [|fuel IH]; intros fuel' s Hf Hf'; [lia|].
  destruct fuel' as [|fuel']; [lia|]. simpl.
  destruct (match_placeholder s) as [[[name fmt] rest]|] eqn:Hm.
  - apply match_placeholder_shorter in Hm.
    destruct (replace_func number time name fmt); [simpl|done].
    rewrite (IH fuel' rest) by lia. done.
  - destruct s as [|c s]; [done|]. simpl in *.
    rewrite (IH fuel' s) by lia. done.
Qed.

(** The expander, one step at a time. *)
Lemma format_template_step (number time : option Z) (s : string) :
  _format_template s number time =
  match match_placeholder s with
  | Some (name, fmt, rest) =>
      r ← replace_func number time name fmt;
      tail ← _format_template rest number time;
      Ok (r +:+ tail)
  | None =>
      match s with
      | EmptyString => Ok ""
      | String c s' =>
          tail ← _format_template s' number time;
          Ok (String c tail)
      end
  end.
Proof.
  unfold _format_template at 1. simpl.
  destruct (match_placeholder s) as [[[name fmt] rest]|] eqn:Hm.
  - apply match_placeholder_shorter in Hm.
    destruct (replace_func number time name fmt); [simpl|done].
    unfold _format_template.
    rewrite (format_template_from_fuel _ (S (String.length rest))) by lia. done.
  - destruct s as [|c s]; [done|]. done.
Qed.

Lemma format_template_char (number time : option Z) (c : ascii) (s : string) :
  not_dollar c = true →
  _format_template (String c s) number time =
  tail ← _format_template s number time; Ok (String c tail).
Proof.
  intros Hc. rewrite format_template_step.
  replace (match_placeholder (String c s)) with
    (@None (string * option string * string)); [done|].
  unfold not_dollar in Hc. by destruct c as [[] [] [] [] [] [] [] []].
Qed.

Lemma format_template_literal (number time : option Z) (pre s : string) :
  all_chars not_dollar pre = true →
  _format_template (pre +:+ s) number time =
  tail ← _format_template s number time; Ok (pre +:+ tail).
Proof.
  intros Hpre. induction pre as [|c pre IH]; simpl in *.
  - by destruct (_format_template s number time).
  - apply andb_prop in Hpre as [Hc Hpre].
    rewrite (format_template_char _ _ _ _ Hc), (IH Hpre).
    by destruct (_format_template s number time).
Qed.

End TemplateFacts.

Lemma all_chars_append (p : ascii → bool) (a b : string) :
  all_chars p (a +:+ b) = all_chars p a && all_chars p b.
Proof. induction a as [|c a IH]; simpl; [done | by rewrite IH, andb_assoc]. Qed.

Lemma all_chars_impl (p q : ascii → bool) (s : string) :
  (∀ c, p c = true → q c = true) → all_chars p s = true → all_chars q s = true.
Proof.
  intros Hpq. induction s as [|c s IH]; simpl; [done|].
  intros [Hc Hs]%andb_prop. by rewrite (Hpq c Hc), (IH Hs).
Qed.

Lemma is_alnum_not_dollar (c : ascii) : Py.is_alnum c = true → not_dollar c = true.
Proof.
  unfold not_dollar. destruct (Ascii.eqb c "$") eqn:Hc; [|done].
  by apply Ascii.eqb_eq in Hc as ->.
Qed.

Lemma startswith_split (p s : string) :
  Py.startswith p s = true → s = p +:+ Py.drop (String.length p) s.
Proof.
  unfold Py.startswith. revert s.
  induction p as [|x p IH]; intros s; simpl; [by destruct s|].
  destruct s as [|y s]; [done|]. simpl.
  destruct (ascii_dec x y) as [->|]; [|done].
  intros Hp. by rewrite <- (IH s Hp).
Qed.

Lemma first_dollar_unique (a a' b b' : string) :
  all_chars not_dollar a = true → all_chars not_dollar a' = true →
  a +:+ String "$" b = a' +:+ String "$" b' → a = a' ∧ b = b'.
Proof.
  revert a'. induction a as [|c a IH]; intros [|c' a']; simpl.
  - by intros _ _ [= ->].
  - intros _ [Hc _]%andb_prop [= <- _]. done.
  - intros [Hc _]%andb_prop _ [= -> _]. done.
  - intros [_ Ha]%andb_prop [_ Ha']%andb_prop [= -> Heq].
    by destruct (IH a' Ha Ha' Heq) as [-> ->].
Qed.

Lemma recognised_name_not_dollar (name : string) :
  recognised_name name = true → all_chars not_dollar name = true.
Proof.
  unfold recognised_name.
  assert (∀ s,
    match s with
    | EmptyString => true
    | String "%" spec => negb (Py.is_empty spec) && all_chars Py.is_alnum spec
    | _ => false
    end = true → all_chars not_dollar s = true) as Htail.
  { intros [|c spec]; [done|].
    destruct (Ascii.eqb c "%") eqn:Hc;
      [apply Ascii.eqb_eq in Hc as -> | by destruct c as [[] [] [] [] [] [] [] []]].
    intros [_ Hs]%andb_prop. simpl.
    by apply (all_chars_impl _ _ _ is_alnum_not_dollar). }
  destruct (Py.startswith "Number" name) eqn:Hn.
  - intros Ht%Htail. rewrite (startswith_split _ _ Hn), all_chars_append.
    change (String.length "Number") with 6%nat. by rewrite Ht.
  - destruct (Py.startswith "Time" name) eqn:Hti; [|done].
    intros Ht%Htail. rewrite (startswith_split _ _ Hti), all_chars_append.
    change (String.length "Time") with 4%nat. by rewrite Ht.
Qed.

Lemma match_placeholder_plain (name rest : string) :
  name = "Number" ∨ name = "Time" →
  match_placeholder ("$" +:+ name +:+ "$" +:+ rest) = Some (name, None, rest).
Proof. by intros [-> | ->]. Qed.

Lemma match_placeholder_format (name spec rest : string) :
  name = "Number" ∨ name = "Time" →
  Py.is_empty spec = false → all_chars Py.is_alnum spec = true →
  match_placeholder ("$" +:+ name +:+ "%" +:+ spec +:+ "$" +:+ rest)
  = Some (name, Some ("%" +:+ spec), rest).
Proof.
  intros Hname He Hs.
  assert (Py.span Py.is_alnum (spec +:+ String "$" rest) = (spec, String "$" rest))
    as Hspan by by apply span_append.
  destruct Hname as [-> | ->]; unfold match_placeholder; simpl;
    simpl in Hspan; by rewrite Hspan, He.
Qed.

(** A match at a dollar sign reads a recognised name up to the next
    dollar sign. *)
Lemma match_placeholder_opens (s nm rest : string) (fmt : option string) :
  match_placeholder ("$" +:+ s) = Some (nm, fmt, rest) →
  ∃ name, recognised_name name = true ∧ s = name +:+ "$" +:+ rest.
Proof.
  unfold match_placeholder. simpl.
  assert (∀ word : string,
    word = "Number" ∨ word = "Time" →
    Py.startswith word s = true →
    match Py.drop (String.length word) s with
    | String "%" s3 =>
        let '(spec, s4) := Py.span Py.is_alnum s3 in
        match s4 with
        | String "$" rest0 =>
            if negb (Py.is_empty spec)
            then Some (word, Some ("%" +:+ spec), rest0)
            else match Py.drop (String.length word) s with
                 | String "$" rest1 => Some (word, None, rest1)
                 | _ => None
                 end
        | _ => match Py.drop (String.length word) s with
               | String "$" rest1 => Some (word, None, rest1)
               | _ => None
               end
        end
    | _ => match Py.drop (String.length word) s with
           | String "$" rest1 => Some (word, None, rest1)
           | _ => None
           end
    end = Some (nm, fmt, rest) →
    ∃ name, recognised_name name = true ∧ s = name +:+ "$" +:+ rest) as Hword.
  { intros word Hword Hsw Hm. pose proof (startswith_split _ _ Hsw) as Hs.
    destruct (Py.drop (String.length word) s) as [|d s3] eqn:Hd; [done|].
    destruct (Ascii.eqb d "$") eqn:Hd1.
    { apply Ascii.eqb_eq in Hd1 as ->. simpl in Hm. inversion Hm; subst nm fmt rest.
      exists word. split; [by destruct Hword as [-> | ->]|]. done. }
    destruct (Ascii.eqb d "%") eqn:Hd2.
    - apply Ascii.eqb_eq in Hd2 as ->.
      destruct (Py.span Py.is_alnum s3) as [spec s4] eqn:Hsp.
      apply span_spec in Hsp as (-> & Hspec & _).
      destruct s4 as [|e rest0]; [done|].
      destruct (Ascii.eqb e "$") eqn:He;
        [apply Ascii.eqb_eq in He as -> | by destruct e as [[] [] [] [] [] [] [] []]].
      destruct (Py.is_empty spec) eqn:Hempty; [done|]. simpl in Hm.
      inversion Hm; subst nm fmt rest.
      exists (word +:+ "%" +:+ spec). split.
      + destruct Hword as [-> | ->]; unfold recognised_name; simpl;
          by rewrite Hempty, Hspec.
      + rewrite Hs. by rewrite !append_assoc.
    - exfalso. by destruct d as [[] [] [] [] [] [] [] []]. }
  destruct (Py.startswith "Number" s) eqn:Hn.
  - apply (Hword "Number"); auto.
  - destruct (Py.startswith "Time" s) eqn:Ht; [|done].
    apply (Hword "Time"); auto.
Qed.

Lemma match_placeholder_none (s : string) :
  ¬ opens_placeholder s → match_placeholder ("$" +:+ s) = None.
Proof.
  intros Hs. destruct (match_placeholder ("$" +:+ s)) as [[[nm fmt] rest]|] eqn:Hm; [|done].
  destruct Hs. apply match_placeholder_opens in Hm as (name & Hname & ->).
  by exists name, rest.
Qed.

Lemma unknown_name_opens_nothing (name rest : string) :
  all_chars not_dollar name = true → recognised_name name = false →
  ¬ opens_placeholder (name +:+ "$" +:+ rest).
Proof.
  intros Hname Hrec (name' & rest' & Hrec' & Heq).
  apply first_dollar_unique in Heq as [-> _];
    [congruence | done | by apply recognised_name_not_dollar].
Qed.

Lemma recognised_name_split (name : string) :
  recognised_name name = true →
  ∃ word, (word = "Number" ∨ word = "Time") ∧
    (name = word ∨
     ∃ spec, Py.is_empty spec = false ∧ all_chars Py.is_alnum spec = true ∧
             name = word +:+ "%" +:+ spec).
Proof.
  unfold recognised_name.
  assert (∀ word s,
    match s with
    | EmptyString => true
    | String "%" spec => negb (Py.is_empty spec) && all_chars Py.is_alnum spec
    | _ => false
    end = true →
    name = word +:+ s →
    name = word ∨
    ∃ spec, Py.is_empty spec = false ∧ all_chars Py.is_alnum spec = true ∧
            name = word +:+ "%" +:+ spec) as Htail.
  { intros word [|c spec] Hs ->; [left; apply append_nil_r|]. right.
    destruct (Ascii.eqb c "%") eqn:Hc;
      [apply Ascii.eqb_eq in Hc as -> | by destruct c as [[] [] [] [] [] [] [] []]].
    apply andb_prop in Hs as [He%negb_true_iff Hs]. by exists spec. }
  destruct (Py.startswith "Number" name) eqn:Hn.
  - intros Ht. exists "Number". split; [by left|].
    apply (Htail _ _ Ht), (startswith_split _ _ Hn).
  - destruct (Py.startswith "Time" name) eqn:Hti; [|done].
    intros Ht. exists "Time". split; [by right|].
    apply (Htail _ _ Ht), (startswith_split _ _ Hti).
Qed.

Lemma opens_placeholder_match (s : string) :
  opens_placeholder s ↔ match_placeholder ("$" +:+ s) ≠ None.
Proof.
  split.
  - intros (name & rest & Hname & ->).
    apply recognised_name_split in Hname as (word & Hword & [-> | Hspec]).
    + by rewrite (match_placeholder_plain word rest Hword).
    + destruct Hspec as (spec & He & Hs & ->).
      pose proof (match_placeholder_format word spec rest Hword He Hs) as Hm.
      rewrite !append_assoc. by rewrite Hm.
  - destruct (match_placeholder ("$" +:+ s)) as [[[nm fmt] rest]|] eqn:Hm; [|done].
    intros _. apply match_placeholder_opens in Hm as (name & Hname & ->).
    by exists name, rest.
Qed.

Lemma lstrip_percent_spec (spec : string) :
  all_chars Py.is_alnum spec = true → lstrip_percent ("%" +:+ spec) = spec.
Proof.
  simpl. destruct spec as [|c spec]; [done|]. simpl.
  intros [Hc _]%andb_prop.
  by destruct c as [[] [] [] [] [] [] [] []].
Qed.

Section TemplateSpec.
Context {lib : PythonLib}.
Variables number time : option Z.

Local Abbreviation expand s := (_format_template s number time).

Lemma replace_func_rendered (name : string) (spec : option string) :
  (∀ sp, spec = Some sp → all_chars Py.is_alnum sp = true) →
  replace_func number time name (String.append "%" <$> spec)
  = rendered (if String.eqb name "Number" then number else time) spec.
Proof.
  intros Hspec. unfold replace_func, rendered.
  destruct (if String.eqb name "Number" then number else time); [|done].
  destruct spec as [sp|]; [|done]. cbn [fmap option_fmap option_map].
  by rewrite lstrip_percent_spec by auto.
Qed.

Lemma expand_plain (name rest : string) :
  name = "Number" ∨ name = "Time" →
  expand ("$" +:+ name +:+ "$" +:+ rest) =
  r ← rendered (if String.eqb name "Number" then number else time) None;
  tail ← expand rest; Ok (r +:+ tail).
Proof.
  intros Hname. rewrite format_template_step.
  rewrite (match_placeholder_plain name rest Hname).
  by rewrite <- (replace_func_rendered name None).
Qed.

Lemma expand_format (name spec rest : string) :
  name = "Number" ∨ name = "Time" →
  Py.is_empty spec = false → all_chars Py.is_alnum spec = true →
  expand ("$" +:+ name +:+ "%" +:+ spec +:+ "$" +:+ rest) =
  r ← rendered (if String.eqb name "Number" then number else time) (Some spec);
  tail ← expand rest; Ok (r +:+ tail).
Proof.
  intros Hname He Hs. rewrite format_template_step.
  rewrite (match_placeholder_format name spec rest Hname He Hs).
  rewrite <- (replace_func_rendered name (Some spec)); [done|].
  by intros sp [= <-].
Qed.

Lemma expand_dollar (s : string) :
  ¬ opens_placeholder s →
  expand ("$" +:+ s) = tail ← expand s; Ok ("$" +:+ tail).
Proof.
  intros Hs. rewrite format_template_step.
  by rewrite (match_placeholder_none s Hs).
Qed.

Lemma expand_unknown (name rest : string) :
  all_chars not_dollar name = true → recognised_name name = false →
  expand ("$" +:+ name +:+ "$" +:+ rest) =
  tail ← expand ("$" +:+ rest); Ok ("$" +:+ name +:+ tail).
Proof.
  intros Hname Hrec.
  rewrite (expand_dollar _ (unknown_name_opens_nothing name rest Hname Hrec)).
  rewrite (format_template_literal _ _ name _ Hname).
  by destruct (expand ("$" +:+ rest)).
Qed.

(** C8, as amended. Scanning left to right, [$Number$] and [$Time$],
    alone or with [%] and a format specification of letters and
    digits, are replaced by the value: nothing when it was not
    supplied, its default string form, or the value formatted by the
    specification. Text without a dollar sign is copied, and so is a
    dollar sign that opens no recognised placeholder. A placeholder
    [$name$] with another name keeps its opening dollar sign and its
    name; its closing dollar sign is scanned anew, so [$name$] stays
    as it is unless the text behind it makes that dollar sign open a
    recognised placeholder. The representation id is substituted in
    the expanded text, after the expansion. *)
Theorem format_template_spec :
  (∀ rest, expand ("$Number$" +:+ rest) =
     r ← rendered number None; tail ← expand rest; Ok (r +:+ tail)) ∧
  (∀ rest, expand ("$Time$" +:+ rest) =
     r ← rendered time None; tail ← expand rest; Ok (r +:+ tail)) ∧
  (∀ spec rest,
     Py.is_empty spec = false → all_chars Py.is_alnum spec = true →
     expand ("$Number%" +:+ spec +:+ "$" +:+ rest) =
     r ← rendered number (Some spec); tail ← expand rest; Ok (r +:+ tail)) ∧
  (∀ spec rest,
     Py.is_empty spec = false → all_chars Py.is_alnum spec = true →
     expand ("$Time%" +:+ spec +:+ "$" +:+ rest) =
     r ← rendered time (Some spec); tail ← expand rest; Ok (r +:+ tail)) ∧
  (∀ pre s, all_chars not_dollar pre = true →
     expand (pre +:+ s) = tail ← expand s; Ok (pre +:+ tail)) ∧
  (∀ s, ¬ opens_placeholder s →
     expand ("$" +:+ s) = tail ← expand s; Ok ("$" +:+ tail)) ∧
  (∀ name rest,
     all_chars not_dollar name = true → recognised_name name = false →
     expand ("$" +:+ name +:+ "$" +:+ rest) =
     tail ← expand ("$" +:+ rest); Ok ("$" +:+ name +:+ tail)) ∧
  (∀ name rest,
     all_chars not_dollar name = true → recognised_name name = false →
     ¬ opens_placeholder rest →
     expand ("$" +:+ name +:+ "$" +:+ rest) =
     tail ← expand rest; Ok ("$" +:+ name +:+ "$" +:+ tail)) ∧
  expand "" = Ok "" ∧
  (∀ base_url rep_id template,
     segment_url base_url rep_id template number time =
     path ← expand template;
     urljoin base_url (Py.replace "$RepresentationID$" rep_id path)).
Proof.
  repeat split.
  - intros rest. apply (expand_plain "Number"). by left.
  - intros rest. apply (expand_plain "Time"). by right.
  - intros spec rest. apply (expand_format "Number"). by left.
  - intros spec rest. apply (expand_format "Time"). by right.
  - intros pre s. apply format_template_literal.
  - apply expand_dollar.
  - apply expand_unknown.
  - intros name rest Hname Hrec Hrest.
    rewrite (expand_unknown name rest Hname Hrec), (expand_dollar rest Hrest).
    by destruct (expand rest).
Qed.

End TemplateSpec.

Section TemplateRuns.
#[local] Existing Instance Sample.lib.

(** C8 as first stated fails on [$Foo$Number$]: [Foo] is not a
    recognised name, yet the dollar sign that closes [$Foo$] is taken
    as the opening of [$Number$], and the output no longer contains
    [$Foo$]. *)
Lemma format_template_unknown_name_counterexample :
  all_chars not_dollar "Foo" = true ∧ recognised_name "Foo" = false ∧
  _format_template "$Foo$Number$" (Some 5) None = Ok "$Foo5" ∧
  Py.contains "$Foo$" "$Foo5" = false.
Proof. by repeat split. Qed.

(** A closed instance: [$Bandwidth$] is kept, [$Number%05d$] becomes
    the zero-padded number. *)
Lemma format_template_spec_witness :
  _format_template "$Bandwidth$/seg" (Some 7) None = Ok "$Bandwidth$/seg" ∧
  _format_template "$Number%05d$.m4s" (Some 7) None = Ok "00007.m4s".
Proof.
  destruct (format_template_spec (Some 7) None)
    as (_ & _ & Hformat & _ & _ & _ & _ & Hunknown & _).
  split.
  - apply (Hunknown "Bandwidth" "/seg"); [(vm_compute; reflexivity) | (vm_compute; reflexivity) |].
    intros Hopen. by apply opens_placeholder_match in Hopen.
  - apply (Hformat "05d" ".m4s"); (vm_compute; reflexivity).
Defined.

End TemplateRuns.

(** ** Enumeration of the segments *)

Lemma map_result_Forall2 {A B} (f : A → result B) (xs : list A) (ys : list B) :
  map_result f xs = Ok ys ↔ Forall2 (λ x y, f x = Ok y) xs ys.
Proof.
  revert ys. induction xs as [|x xs IH]; intros ys; simpl.
  - split; [by intros [= <-]; constructor | by inversion 1].
  - split.
    + intros (y & Hy & Hrest)%bind_Ok_inv.
      apply bind_Ok_inv in Hrest as (ys' & Hys & [= <-]).
      constructor; [done | by apply IH].
    + inversion 1 as [|? y ? ys' Hy Hys]; subst.
      apply IH in Hys. by rewrite Hy, Hys.
Qed.

Lemma map_result_length {A B} (f : A → result B) (xs : list A) (ys : list B) :
  map_result f xs = Ok ys → length ys = length xs.
Proof. intros Hm%map_result_Forall2. symmetry. by eapply Forall2_length. Qed.



Section Enumeration.
Context {lib : PythonLib}.
Variables base_url rep_id media_template : string.

Lemma repeat_loop_spec (n : nat) (d : Z) (c : cursor) :
  repeat_loop base_url rep_id media_template n d c =
  urls ← media_urls base_url rep_id media_template
           (timeline_points (current_number c) (current_time c) d n);
  Ok {| cur_urls := cur_urls c ++ urls;
        current_time := current_time c + Z.of_nat n * d;
        current_number := current_number c + Z.of_nat n |}.
Proof.
  revert c. induction n as [|n IH]; intros [urls t k]; simpl.
  - rewrite app_nil_r. do 2 f_equal; lia.
  - unfold media_urls. simpl.
    destruct (segment_url base_url rep_id media_template (Some k) (Some t))
      as [u|e]; [simpl|done].
    rewrite IH. unfold media_urls. simpl.
    destruct (map_result _ (timeline_points (k + 1) (t + d) d n)) as [us|e];
      [simpl|done].
    rewrite <- app_assoc. simpl. do 2 f_equal; lia.
Qed.




End Enumeration.

Section EnumerationRuns.
#[local] Existing Instance Sample.lib.


End EnumerationRuns.

(** ** Enumeration by duration *)

Lemma binary_round_aux_sign (s : bool) (m e : Z) (l : location) :
  match binary_round_aux PyFloat.prec PyFloat.emax s m e l with
  | S754_zero s' | S754_infinity s' | S754_finite s' _ _ => s' = s
  | S754_nan => True
  end.
Proof.
  unfold binary_round_aux.
  destruct (shr_fexp _ _ m e l) as [mrs' e'].
  destruct (shr_fexp _ _ _ e' loc_Exact) as [mrs'' e''].
  destruct (shr_m mrs''); [done | | done].
  by destruct (_ <=? _).
Qed.

Lemma round_ratio_sign (s : bool) (n d : positive) :
  match PyFloat.round_ratio s n d with
  | S754_zero s' | S754_infinity s' | S754_finite s' _ _ => s' = s
  | S754_nan => True
  end.
Proof.
  unfold PyFloat.round_ratio.
  destruct (SFdiv_core_binary _ _ _ _ _ _) as [[q e] l].
  apply binary_round_aux_sign.
Qed.

Lemma ceil_nonneg (m : positive) (e n : Z) :
  PyFloat.ceil (S754_finite false m e) = Ok n → 0 ≤ n.
Proof.
  unfold PyFloat.ceil. simpl. destruct e as [|k|k]; intros [= <-].
  - lia.
  - pose proof (Z.pow_nonneg 2 (Z.pos k)). nia.
  - assert (- Z.pos m / 2 ^ Z.pos k ≤ 0); [|lia].
    apply Z.div_le_upper_bound; [apply Z.pow_pos_nonneg|]; lia.
Qed.

(** [math.ceil] returns the least integer that is not below its
    argument, and raises on an infinity and on NaN. *)
Lemma ceil_spec (x : PyFloat.float) (n : Z) :
  PyFloat.ceil x = Ok n ↔ float_ceiling x n.
Proof.
  destruct x as [s|s| |s m e]; simpl; try (split; [done | by intros []]).
  - split; [by intros [= <-] | by intros ->].
  - destruct e as [|k|k]; simpl.
    + split; [by intros [= <-] | by intros ->].
    + split; [by intros [= <-] | by intros ->].
    + change (- Z.neg k) with (Z.pos k).
      assert (0 < 2 ^ Z.pos k) as Hpow by (by apply Z.pow_pos_nonneg).
      generalize dependent (2 ^ Z.pos k). intros d Hd.
      generalize (cond_Zopp s (Z.pos m)). intros v.
      pose proof (Z.div_mod (- v) d ltac:(lia)) as Hdiv.
      pose proof (Z.mod_pos_bound (- v) d Hd) as Hmod.
      split.
      * intros [= <-]. nia.
      * intros [Hlow Hhigh]. f_equal.
        assert (- n = - v / d); [|lia].
        apply (Z.div_unique_pos _ _ _ (n * d - v)); lia.
Qed.

Lemma ceil_raise (x : PyFloat.float) (e : exn) :
  PyFloat.ceil x = Raise e ↔
  (∃ s, x = S754_infinity s) ∧ e = OverflowError ∨ x = S754_nan ∧ e = ValueError.
Proof.
  destruct x as [s|s| |s m ex]; simpl.
  - split; [done | by intros [[[? ?] _] | [? _]]].
  - split; [intros [= <-]; left; by eauto | by intros [[_ ->] | [? _]]].
  - split; [intros [= <-]; by right | by intros [[[? ?] _] | [_ ->]]].
  - split; [by destruct ex | by intros [[[? ?] _] | [? _]]].
Qed.

(** True division of positive integers gives a float that is not
    negative, and raises nothing but [OverflowError]. *)
Lemma int_truediv_positive (a b : Z) :
  0 < a → 0 < b →
  PyFloat.int_truediv a b = Raise OverflowError ∨
  ∃ len, PyFloat.int_truediv a b = Ok len ∧
         match len with
         | S754_zero s | S754_finite s _ _ => s = false
         | S754_infinity _ => False
         | S754_nan => True
         end.
Proof.
  intros Ha Hb. destruct a as [|n|n]; [lia| |lia]. destruct b as [|d|d]; [lia| |lia].
  unfold PyFloat.int_truediv.
  pose proof (round_ratio_sign false n d) as Hsign.
  destruct (PyFloat.round_ratio false n d) as [s|s| |s mx ex];
    [right | by left | right | right]; by eexists.
Qed.

(** The quotient of a positive float by a positive finite float is not
    negative. *)
Lemma quotient_sign (total : PyFloat.float) (m : positive) (e : Z) :
  PyFloat.gt_zero total = true →
  match SFdiv PyFloat.prec PyFloat.emax total (S754_finite false m e) with
  | S754_zero s | S754_infinity s | S754_finite s _ _ => s = false
  | S754_nan => True
  end.
Proof.
  unfold PyFloat.gt_zero, SFltb.
  destruct total as [st|[]| |[] mt et]; try done. intros _. simpl.
  destruct (SFdiv_core_binary _ _ _ _ _ _) as [[mz ez] lz].
  apply binary_round_aux_sign.
Qed.

Lemma float_ceiling_nonneg (x : PyFloat.float) (n : Z) :
  match x with
  | S754_zero s | S754_infinity s | S754_finite s _ _ => s = false
  | S754_nan => True
  end →
  float_ceiling x n → 0 ≤ n.
Proof.
  intros Hsign Hn. apply ceil_spec in Hn.
  destruct x as [s|s| |s m e]; try done.
  - inversion Hn. lia.
  - subst s. by eapply ceil_nonneg.
Qed.

(** *** True division of integers and the division of floats *)

Section FloatFacts.
Import PyFloat.

Lemma digits2_pos_bounds (p : positive) :
  2 ^ (Z.pos (digits2_pos p) - 1) ≤ Z.pos p < 2 ^ Z.pos (digits2_pos p).
Proof.
  induction p as [p IH|p IH|]; simpl; [| |done].
  - rewrite Pos2Z.inj_succ.
    replace (Z.succ (Z.pos (digits2_pos p)) - 1) with (Z.succ (Z.pos (digits2_pos p) - 1)) by lia.
    rewrite !Z.pow_succ_r by lia. lia.
  - rewrite Pos2Z.inj_succ.
    replace (Z.succ (Z.pos (digits2_pos p)) - 1) with (Z.succ (Z.pos (digits2_pos p) - 1)) by lia.
    rewrite !Z.pow_succ_r by lia. lia.
Qed.

Lemma iter_xO_value (p k : positive) :
  Z.pos (Pos.iter xO p k) = Z.pos p * 2 ^ Z.pos k.
Proof.
  induction k as [|k IH] using Pos.peano_ind.
  - simpl. lia.
  - rewrite Pos.iter_succ, Pos2Z.inj_succ, Z.pow_succ_r by lia.
    rewrite Pos2Z.inj_xO, IH. lia.
Qed.

Lemma iter_xO_digits (p k : positive) :
  digits2_pos (Pos.iter xO p k) = (digits2_pos p + k)%positive.
Proof.
  induction k as [|k IH] using Pos.peano_ind.
  - simpl. lia.
  - rewrite Pos.iter_succ. simpl. rewrite IH. lia.
Qed.

(** A mantissa that is in canonical form is not changed by rounding. *)
Lemma binary_round_aux_canonical (s : bool) (m : positive) (e : Z) :
  fexp prec emax (Z.pos (digits2_pos m) + e) = e →
  e ≤ emax - prec →
  binary_round_aux prec emax s (Z.pos m) e loc_Exact = S754_finite s m e.
Proof.
  intros Hcanon Hmax. unfold binary_round_aux, shr_fexp. simpl Zdigits2.
  rewrite Hcanon, Z.sub_diag. simpl.
  rewrite Hcanon, Z.sub_diag. simpl.
  by rewrite (proj2 (Z.leb_le _ _) Hmax).
Qed.

Lemma digits_le_prec (n : positive) :
  Z.pos n < 2 ^ 53 → Z.pos (digits2_pos n) ≤ 53.
Proof.
  intros Hn. pose proof (digits2_pos_bounds n) as [Hlow _].
  destruct (Z.le_gt_cases (Z.pos (digits2_pos n)) 53) as [|Hgt]; [done|].
  assert (2 ^ 53 ≤ 2 ^ (Z.pos (digits2_pos n) - 1))
    by (apply Z.pow_le_mono_r; lia).
  lia.
Qed.

(** [float(n)] is exact for an integer below [2^53]: the mantissa is
    [n] shifted to 53 bits. *)
Lemma of_Z_exact (n : positive) :
  Z.pos n < 2 ^ 53 →
  ∃ mz, of_Z (Z.pos n) = S754_finite false mz (Z.pos (digits2_pos n) - 53) ∧
        Z.pos mz = Z.pos n * 2 ^ (53 - Z.pos (digits2_pos n)) ∧
        Z.pos (digits2_pos mz) = 53.
Proof.
  intros Hn. pose proof (digits_le_prec n Hn) as Hd.
  unfold of_Z, binary_normalize, binary_round.
  assert (fexp prec emax (Z.pos (digits2_pos n) + 0) = Z.pos (digits2_pos n) - 53)
    as -> by (unfold fexp, emin, prec, emax; lia).
  unfold shl_align.
  destruct (Z.pos (digits2_pos n) - 53 - 0) as [|j|j] eqn:Hj; [| lia |].
  - assert (Z.pos (digits2_pos n) = 53) as Hdn by lia.
    exists n. rewrite Hdn. simpl.
    split; [|split; [lia | done]].
    apply binary_round_aux_canonical; [|done].
    rewrite Hdn. done.
  - exists (Pos.iter xO n j).
    assert (Z.pos (digits2_pos (Pos.iter xO n j)) = 53) as Hdigits
      by (rewrite iter_xO_digits; lia).
    split; [|split; [|done]].
    + apply binary_round_aux_canonical.
      * rewrite Hdigits. unfold fexp, emin, prec, emax. lia.
      * unfold prec, emax. lia.
    + rewrite iter_xO_value. f_equal. f_equal. lia.
Qed.

(** The location of a remainder does not change when the remainder and
    the divisor are scaled by a power of two. *)
Lemma new_location_scale (d r : Z) (j : Z) :
  0 < d → 0 ≤ r < d → 0 ≤ j →
  new_location (d * 2 ^ j) (r * 2 ^ j) = new_location d r.
Proof.
  intros Hd Hr Hj.
  assert (0 < 2 ^ j) as Hc by (by apply Z.pow_pos_nonneg).
  destruct (Z.eq_dec j 0) as [-> | Hj0].
  { by rewrite !Z.mul_1_r. }
  unfold new_location.
  assert (Z.even (d * 2 ^ j) = true) as ->.
  { rewrite Z.even_mul, Z.even_pow by lia. apply orb_true_r. }
  unfold new_location_even, new_location_odd.
  destruct (Z.eqb_spec r 0) as [-> | Hr0].
  { simpl. by destruct (Z.even d). }
  assert ((r * 2 ^ j =? 0) = false) as -> by (apply Z.eqb_neq; nia).
  assert ((2 * (r * 2 ^ j) ?= d * 2 ^ j) = (2 * r ?= d)) as ->.
  { destruct (Z.compare_spec (2 * r) d);
      [apply Z.compare_eq_iff | apply Z.compare_lt_iff | apply Z.compare_gt_iff];
      nia. }
  destruct (Z.even d) eqn:Heven; cbv beta;
    rewrite (proj2 (Z.eqb_neq r 0) Hr0); [done|].
  assert (d ≠ 2 * r) as Hodd.
  { intros ->. rewrite Z.even_mul in Heven. done. }
  f_equal.
  destruct (Z.compare_spec (2 * r) d), (Z.compare_spec (2 * r + 1) d);
    try done; lia.
Qed.

(** The quotient of two integers below [2^53] as [SFdiv] computes it
    from their floats is the quotient that true division rounds. *)
Lemma div_core_of_ints (n d : positive) (m1 m2 : positive) :
  Z.pos n < 2 ^ 53 → Z.pos d < 2 ^ 53 →
  Z.pos m1 = Z.pos n * 2 ^ (53 - Z.pos (digits2_pos n)) →
  Z.pos (digits2_pos m1) = 53 →
  Z.pos m2 = Z.pos d * 2 ^ (53 - Z.pos (digits2_pos d)) →
  Z.pos (digits2_pos m2) = 53 →
  SFdiv_core_binary prec emax (Z.pos m1) (Z.pos (digits2_pos n) - 53)
    (Z.pos m2) (Z.pos (digits2_pos d) - 53)
  = SFdiv_core_binary prec emax (Z.pos n) 0 (Z.pos d) 0.
Proof.
  intros Hn Hd Hm1 Hd1 Hm2 Hd2.
  pose proof (digits_le_prec n Hn) as Hdn.
  pose proof (digits_le_prec d Hd) as Hdd.
  unfold SFdiv_core_binary. simpl Zdigits2. rewrite Hd1, Hd2.
  set (dn := Z.pos (digits2_pos n)) in *. set (dd := Z.pos (digits2_pos d)) in *.
  assert (0 < dn) as Hdn0 by done. assert (0 < dd) as Hdd0 by done.
  assert (Z.min (fexp prec emax (53 + (dn - 53) - (53 + (dd - 53))))
            (dn - 53 - (dd - 53)) = dn - dd - 53) as ->
    by (unfold fexp, emin, prec, emax; lia).
  assert (Z.min (fexp prec emax (dn + 0 - (dd + 0))) (0 - 0) = dn - dd - 53) as ->
    by (unfold fexp, emin, prec, emax; lia).
  replace (dn - 53 - (dd - 53) - (dn - dd - 53)) with 53 by lia.
  destruct (0 - 0 - (dn - dd - 53)) as [|k|k] eqn:Hk; [lia | | lia].
  rewrite !Z.shiftl_mul_pow2 by lia.
  assert (Z.pos m1 * 2 ^ 53 = Z.pos n * 2 ^ Z.pos k * 2 ^ (53 - dd)) as Hscale.
  { rewrite Hm1, <- !Z.mul_assoc, <- !Z.pow_add_r by lia. f_equal. f_equal. lia. }
  rewrite Hscale, Hm2.
  assert (0 < 2 ^ (53 - dd)) as Hc by (apply Z.pow_pos_nonneg; lia).
  pose proof (Z.div_eucl_eq (Z.pos n * 2 ^ Z.pos k) (Z.pos d) ltac:(done)) as Heq.
  pose proof (Z.mod_pos_bound (Z.pos n * 2 ^ Z.pos k) (Z.pos d) ltac:(done)) as Hmod.
  unfold Z.modulo in Hmod.
  destruct (Z.div_eucl (Z.pos n * 2 ^ Z.pos k) (Z.pos d)) as [q r] eqn:Hqr.
  assert (Z.div_eucl (Z.pos n * 2 ^ Z.pos k * 2 ^ (53 - dd))
            (Z.pos d * 2 ^ (53 - dd)) = (q, r * 2 ^ (53 - dd))) as ->.
  { pose proof (Z.div_eucl_eq (Z.pos n * 2 ^ Z.pos k * 2 ^ (53 - dd))
                  (Z.pos d * 2 ^ (53 - dd)) ltac:(lia)) as Heq'.
    pose proof (Z.mod_pos_bound (Z.pos n * 2 ^ Z.pos k * 2 ^ (53 - dd))
                  (Z.pos d * 2 ^ (53 - dd)) ltac:(lia)) as Hmod'.
    unfold Z.modulo in Hmod'.
    destruct (Z.div_eucl _ (Z.pos d * 2 ^ (53 - dd))) as [q' r'].
    assert (q' = q) as ->.
    { assert (q = (Z.pos n * 2 ^ Z.pos k * 2 ^ (53 - dd))
                  `div` (Z.pos d * 2 ^ (53 - dd))) as Hq
        by (apply (Z.div_unique_pos _ _ q (r * 2 ^ (53 - dd))); nia).
      assert (q' = (Z.pos n * 2 ^ Z.pos k * 2 ^ (53 - dd))
                   `div` (Z.pos d * 2 ^ (53 - dd))) as Hq'
        by (apply (Z.div_unique_pos _ _ q' r'); lia).
      congruence. }
    f_equal. nia. }
  f_equal. apply new_location_scale; [done | done | lia].
Qed.

(** True division of two positive integers below [2^53] is the IEEE
    division of their floats, which represent them exactly. *)
Lemma int_truediv_SFdiv (a b : Z) :
  0 < a < 2 ^ 53 → 0 < b < 2 ^ 53 →
  int_truediv a b =
  match SFdiv prec emax (of_Z a) (of_Z b) with
  | S754_infinity _ => Raise OverflowError
  | q => Ok q
  end.
Proof.
  intros [Ha Ha'] [Hb Hb'].
  destruct a as [|n|n]; [lia| |lia]. destruct b as [|d|d]; [lia| |lia].
  destruct (of_Z_exact n Ha') as (m1 & -> & Hm1 & Hd1).
  destruct (of_Z_exact d Hb') as (m2 & -> & Hm2 & Hd2).
  unfold int_truediv, round_ratio. cbn [SFdiv].
  by rewrite (div_core_of_ints n d m1 m2).
Qed.
End FloatFacts.

Section Duration.
Context {lib : PythonLib}.

(** C4, as amended. Without a timeline the media URLs are counted from
    the total duration, the time scale (1 when the attribute is absent)
    and the duration of a segment in units of the time scale. When the
    three are positive, the length of a segment is the quotient of the
    two integers as true division rounds it to a float, the total is
    divided by it in binary64 arithmetic, and the count is the least
    integer not below that float. Exactly that many media URLs are
    generated, numbered [startNumber], [startNumber + 1], ... without a
    gap and without a time; the count is not negative. When an
    operation raises - the integer quotient is too large for a float,
    the length is rounded to zero, or the quotient is infinite - the
    exception leaves the loop. When one of the three is not positive no
    media URL is generated and the representation is skipped. For a
    segment duration and a time scale below [2^53], which floats
    represent exactly, the length of a segment is the IEEE quotient of
    the two as floats. *)
Theorem duration_enumeration
    (root rep current_template : Element)
    (base_url content_type rep_id media_template : string)
    (urls : list string) (tracks : dict Track)
    (start_number timescale seg_duration_units : Z) :
  find current_template "SegmentTimeline" = None →
  int_attrib current_template "startNumber" 1 = Ok start_number →
  int_attrib current_template "timescale" 1 = Ok timescale →
  int_attrib current_template "duration" 0 = Ok seg_duration_units →
  let total := _parse_duration (_get_attrib root "mediaPresentationDuration") in
  let run := enumerate_media root rep current_template base_url content_type
               rep_id media_template urls tracks in
  (0 < seg_duration_units → 0 < timescale → PyFloat.gt_zero total = true →
   (PyFloat.int_truediv seg_duration_units timescale = Raise OverflowError ∧
    run = Raise OverflowError) ∨
   ∃ len,
     PyFloat.int_truediv seg_duration_units timescale = Ok len ∧
     ((len = S754_zero false ∧ run = Raise ZeroDivisionError) ∨
      ((∃ s, SFdiv PyFloat.prec PyFloat.emax total len = S754_infinity s) ∧
       run = Raise OverflowError) ∨
      (SFdiv PyFloat.prec PyFloat.emax total len = S754_nan ∧
       run = Raise ValueError) ∨
      ∃ count,
        float_ceiling (SFdiv PyFloat.prec PyFloat.emax total len) count ∧
        0 ≤ count ∧
        run = (media ← numbered_urls base_url rep_id media_template
                         start_number (Z.to_nat count);
               record_track rep content_type rep_id (urls ++ media) tracks) ∧
        ∀ media,
          numbered_urls base_url rep_id media_template
            start_number (Z.to_nat count) = Ok media →
          Z.of_nat (length media) = count ∧
          ∀ i : nat, Z.of_nat i < count →
            ∃ u, media !! i = Some u ∧
                 segment_url base_url rep_id media_template
                   (Some (start_number + Z.of_nat i)) None = Ok u)) ∧
  (seg_duration_units ≤ 0 ∨ timescale ≤ 0 ∨ PyFloat.gt_zero total = false →
   run = Ok tracks) ∧
  (_get_attrib current_template "timescale" = None → timescale = 1) ∧
  (0 < seg_duration_units < 2 ^ 53 → 0 < timescale < 2 ^ 53 →
   PyFloat.int_truediv seg_duration_units timescale =
   match SFdiv PyFloat.prec PyFloat.emax
           (PyFloat.of_Z seg_duration_units) (PyFloat.of_Z timescale) with
   | S754_infinity _ => Raise OverflowError
   | len => Ok len
   end ∧
   ∃ m e, PyFloat.of_Z timescale = S754_finite false m e ∧
          e ≤ 0 ∧ Z.pos m = timescale * 2 ^ (- e)).
Proof.
  intros Htl Hstart Hts Hseg total run. split; [|split; [|split]].
  - intros Hseg0 Hts0 Htotal.
    assert (run =
      (segment_len_secs ← PyFloat.int_truediv seg_duration_units timescale;
       quotient ← PyFloat.div total segment_len_secs;
       segment_count ← PyFloat.ceil quotient;
       media ← vod_loop base_url rep_id media_template start_number segment_count;
       record_track rep content_type rep_id (urls ++ media) tracks)) as Hrun.
    { unfold run, enumerate_media. rewrite Hstart. simpl. rewrite Htl, Hts. simpl.
      rewrite Hseg. simpl. fold total.
      by rewrite (proj2 (Z.ltb_lt _ _) Hseg0), (proj2 (Z.ltb_lt _ _) Hts0), Htotal. }
    destruct (int_truediv_positive _ _ Hseg0 Hts0) as [Hover | (len & Hlen & Hsign)].
    { left. split; [done|]. by rewrite Hrun, Hover. }
    right. exists len. split; [done|]. rewrite Hlen in Hrun. simpl in Hrun.
    destruct len as [s|s| |s m e]; try done.
    + subst s. left. split; [done|]. by rewrite Hrun.
    + right. right. left. simpl in Hrun.
      assert (SFdiv PyFloat.prec PyFloat.emax total S754_nan = S754_nan) as Hnan
        by (by destruct total).
      split; [done|]. by rewrite Hrun, Hnan.
    + subst s. right. simpl in Hrun.
      pose proof (quotient_sign total m e Htotal) as Hqs.
      destruct (PyFloat.ceil (SFdiv PyFloat.prec PyFloat.emax total
                                (S754_finite false m e))) as [count|e0] eqn:Hceil.
      * right. right. exists count.
        apply ceil_spec in Hceil as Hcount.
        pose proof (float_ceiling_nonneg _ _ Hqs Hcount) as Hc.
        split; [done|]. split; [done|]. split; [by rewrite Hrun|].
        intros media Hmedia.
        pose proof (map_result_length _ _ _ Hmedia) as Hlength.
        rewrite length_seq in Hlength.
        split; [lia|]. intros i Hi.
        apply map_result_Forall2 in Hmedia.
        destruct (Forall2_lookup_l _ _ _ i i Hmedia) as (u & Hu & Hurl).
        { apply lookup_seq. lia. }
        by exists u.
      * apply ceil_raise in Hceil as [[Hinf ->] | [Hnan ->]].
        -- left. split; [done|]. by rewrite Hrun.
        -- right. left. split; [done|]. by rewrite Hrun.
  - intros Hnonpos. unfold run, enumerate_media.
    rewrite Hstart. simpl. rewrite Htl, Hts. simpl. rewrite Hseg. simpl.
    fold total.
    destruct Hnonpos as [Hn | [Hn | Hn]].
    + by rewrite (proj2 (Z.ltb_ge _ _) Hn).
    + rewrite (proj2 (Z.ltb_ge 0 timescale) Hn). by rewrite andb_false_r.
    + rewrite Hn. by rewrite andb_false_r.
  - intros Hnone. unfold int_attrib in Hts. rewrite Hnone in Hts. by inversion Hts.
  - intros Hunits Hscale. split; [by apply int_truediv_SFdiv|].
    destruct timescale as [|d|d]; [lia| |lia].
    destruct (of_Z_exact d (proj2 Hscale)) as (m & Hm & Hvalue & _).
    pose proof (digits_le_prec d (proj2 Hscale)) as Hdigits.
    exists m, (Z.pos (digits2_pos d) - 53).
    split; [done|]. split; [lia|]. rewrite Hvalue. f_equal. f_equal. lia.
Qed.

End Duration.

Section DurationRuns.
#[local] Existing Instance Sample.lib.

(** A closed instance: a presentation of 20 seconds cut in segments of
    4000 units at time scale 1000 has 5 media segments, numbered from
    1. *)
Lemma duration_enumeration_witness :
  PyFloat.int_truediv 4000 1000 = Ok (S754_finite false 4503599627370496 (-50)) ∧
  float_ceiling
    (SFdiv PyFloat.prec PyFloat.emax
       (_parse_duration (Some "PT20S")) (S754_finite false 4503599627370496 (-50)))
    5 ∧
  ∃ track,
    enumerate_media Sample.manifest_vod
      (Elem (mpd "Representation") [("id", "v0"); ("bandwidth", "500000")]
         [Sample.template_scaled])
      Sample.template_scaled "http://host/path/" "video" "v0"
      "$RepresentationID$/seg_$Number%05d$.m4s"
      ["http://host/path/v0/init.mp4"] [] = Ok [("video_v0", track)] ∧
    track_urls track =
    ["http://host/path/v0/init.mp4";
     "http://host/path/v0/seg_00001.m4s"; "http://host/path/v0/seg_00002.m4s";
     "http://host/path/v0/seg_00003.m4s"; "http://host/path/v0/seg_00004.m4s";
     "http://host/path/v0/seg_00005.m4s"].
Proof.
  destruct (duration_enumeration Sample.manifest_vod
              (Elem (mpd "Representation") [("id", "v0"); ("bandwidth", "500000")]
                 [Sample.template_scaled])
              Sample.template_scaled "http://host/path/" "video" "v0"
              "$RepresentationID$/seg_$Number%05d$.m4s"
              ["http://host/path/v0/init.mp4"] [] 1 1000 4000
              eq_refl eq_refl eq_refl eq_refl) as [Hpos _].
  cbv zeta in Hpos.
  destruct (Hpos eq_refl eq_refl eq_refl)
    as [[Hover _] | (len & Hlen & Hcases)]; [discriminate Hover|].
  vm_compute in Hlen. injection Hlen as <-.
  split; [vm_compute; reflexivity|].
  destruct Hcases as [[Hzero _] | [[[s Hinf] _] | [[Hnan _] | Hcount]]];
    [discriminate Hzero | vm_compute in Hinf; discriminate Hinf
    | vm_compute in Hnan; discriminate Hnan |].
  destruct Hcount as (count & Hcount & _ & Hrun & _).
  assert (count = 5) as ->.
  { apply ceil_spec in Hcount. vm_compute in Hcount. by injection Hcount as <-. }
  split; [exact Hcount|].
  rewrite Hrun. vm_compute. eexists. split; reflexivity.
Defined.

(** C4 as first stated fails on positive quantities. A presentation of
    0.9 seconds cut in segments of 3 units at time scale 100 has
    [ceil(0.9 / (3 / 100)) = 30] segments in exact arithmetic; the code
    generates 31 media URLs, because the float quotient is a little
    above 30. A segment duration of 10^400 units makes the integer
    quotient too large for a float, and the whole parse returns
    [(None, None)] instead of a count. *)
Lemma duration_enumeration_counterexample :
  - (- (9 * 100) / (10 * 3)) = 30 ∧
  (∃ track,
     parse_mpd (Ok (Sample.response_duration "PT0.9S" "100" "3"))
     = Some ([("video_v0", track)], "static") ∧
     length (track_urls track) = 31%nat) ∧
  Py.int_of_str (Sample.power_of_ten 400) = Ok (10 ^ 400) ∧
  parse_mpd (Ok (Sample.response_duration "PT20S" "1" (Sample.power_of_ten 400)))
  = None.
Proof.
  split; [vm_compute; reflexivity|]. split.
  - eexists. split; vm_compute; reflexivity.
  - split; vm_compute; reflexivity.
Qed.

End DurationRuns.

(** ** The dictionary of tracks *)

Lemma dict_set_ok (tracks : dict Track) (k : string) (t : Track) :
  Forall track_ok tracks → track_ok (k, t) → Forall track_ok (dict_set tracks k t).
Proof.
  intros Htracks Ht. induction Htracks as [|[k' t'] tracks Hhd Htl IH]; simpl.
  - by apply Forall_cons_2.
  - destruct (String.eqb k' k); by apply Forall_cons_2.
Qed.

Lemma for_each_invariant {A S} (P : S → Prop) (body : S → A → result S)
    (xs : list A) (s s' : S) :
  (∀ s x s', P s → body s x = Ok s' → P s') →
  P s → for_each body xs s = Ok s' → P s'.
Proof.
  intros Hbody. revert s. induction xs as [|x xs IH]; simpl; intros s Hs.
  - by intros [= <-].
  - intros (s1 & Hs1 & Hrest)%bind_Ok_inv. eauto.
Qed.

Section ParserFacts.
Context {lib : PythonLib}.

Lemma record_track_ok (rep : Element) (content_type rep_id : string)
    (urls : list string) (tracks tracks' : dict Track) :
  Forall track_ok tracks →
  record_track rep content_type rep_id urls tracks = Ok tracks' →
  Forall track_ok tracks'.
Proof.
  intros Htracks. unfold record_track.
  destruct urls as [|u urls]; simpl; [by intros [= <-]|].
  intros (bandwidth & _ & [= <-])%bind_Ok_inv.
  by apply dict_set_ok.
Qed.

Lemma enumerate_media_ok (root rep current_template : Element)
    (base_url content_type rep_id media_template : string)
    (urls : list string) (tracks tracks' : dict Track) :
  Forall track_ok tracks →
  enumerate_media root rep current_template base_url content_type rep_id
    media_template urls tracks = Ok tracks' →
  Forall track_ok tracks'.
Proof.
  intros Htracks. unfold enumerate_media.
  intros (start_number & _ & Hrest)%bind_Ok_inv.
  destruct (find current_template "SegmentTimeline").
  - apply bind_Ok_inv in Hrest as (c & _ & Hrec).
    by eapply record_track_ok.
  - apply bind_Ok_inv in Hrest as (timescale & _ & Hrest).
    apply bind_Ok_inv in Hrest as (seg & _ & Hrest).
    destruct (_ && _); [|by inversion Hrest; subst].
    apply bind_Ok_inv in Hrest as (len & _ & Hrest).
    apply bind_Ok_inv in Hrest as (quotient & _ & Hrest).
    apply bind_Ok_inv in Hrest as (count & _ & Hrest).
    apply bind_Ok_inv in Hrest as (media & _ & Hrec).
    by eapply record_track_ok.
Qed.

Lemma parse_representation_ok (root : Element) (base_url content_type : string)
    (segment_template : option Element) (tracks tracks' : dict Track)
    (rep : Element) :
  Forall track_ok tracks →
  parse_representation root base_url content_type segment_template tracks rep
    = Ok tracks' →
  Forall track_ok tracks'.
Proof.
  intros Htracks. unfold parse_representation.
  destruct (_get_attrib rep "id") as [rep_id|]; [|by intros [= <-]].
  destruct (Py.is_empty rep_id); [by intros [= <-]|].
  destruct (match find rep "SegmentTemplate" with
            | Some t => Some t
            | None => segment_template
            end) as [current_template|]; [|by intros [= <-]].
  intros (urls & _ & Hrest)%bind_Ok_inv.
  destruct (_get_attrib current_template "media") as [media_template|];
    [|by inversion Hrest; subst].
  destruct (Py.is_empty media_template); [by inversion Hrest; subst|].
  by eapply enumerate_media_ok.
Qed.

Lemma parse_mpd_body_ok (fetched : result Response)
    (tracks : dict Track) (mpd_type : string) :
  parse_mpd_body fetched = Ok (Some (tracks, mpd_type)) →
  Forall track_ok tracks.
Proof.
  unfold parse_mpd_body.
  intros (response & _ & Hrest)%bind_Ok_inv.
  apply bind_Ok_inv in Hrest as (root & _ & Hrest).
  destruct (find root "Period") as [period|]; [|done].
  apply bind_Ok_inv in Hrest as (tracks0 & Hloop & [= <- _]).
  revert Hloop. apply for_each_invariant; [|constructor].
  intros s adaptation_set s' Hs. unfold parse_adaptation_set.
  apply for_each_invariant; [|done].
  intros s1 rep s1' Hs1. by apply parse_representation_ok.
Qed.

Lemma parse_mpd_ok (fetched : result Response)
    (tracks : dict Track) (mpd_type : string) :
  parse_mpd fetched = Some (tracks, mpd_type) → Forall track_ok tracks.
Proof.
  unfold parse_mpd.
  destruct (parse_mpd_body fetched) as [[[tracks0 mode]|]|e] eqn:Hbody.
  - intros [= <- <-]. by eapply parse_mpd_body_ok.
  - done.
  - by destruct e.
Qed.

Lemma parse_mpd_raise (fetched : result Response) (e : exn) :
  parse_mpd_body fetched = Raise e → parse_mpd fetched = None.
Proof. unfold parse_mpd. intros ->. by destruct e. Qed.

(** C10. Whatever the fetch and the XML parse do, [parse_mpd] returns:
    either [(None, None)] or a dictionary of tracks with the mode. An
    exception raised anywhere in its body, a failed fetch, a malformed
    document and a document without a [Period] all give
    [(None, None)]. Every track of a returned dictionary is stored
    under its own ['key'], which is the content type, an underscore
    and the representation id, and has at least one URL. *)
Theorem parse_mpd_total (fetched : result Response) :
  (parse_mpd fetched = None ∨
   ∃ tracks mpd_type, parse_mpd fetched = Some (tracks, mpd_type) ∧
     ∀ k t, (k, t) ∈ tracks →
       k = track_key t ∧
       track_key t = track_type t +:+ "_" +:+ track_id t ∧
       track_urls t ≠ []) ∧
  (∀ e, parse_mpd_body fetched = Raise e → parse_mpd fetched = None) ∧
  (∀ e, fetched = Raise e → parse_mpd fetched = None) ∧
  (∀ response e,
     fetched = Ok response → resp_xml response = Raise e →
     parse_mpd fetched = None) ∧
  (∀ response root,
     fetched = Ok response → resp_xml response = Ok root →
     find root "Period" = None →
     parse_mpd fetched = None).
Proof.
  split; [|split; [|split; [|split]]].
  - destruct (parse_mpd fetched) as [[tracks mpd_type]|] eqn:Hparse; [|by left].
    right. exists tracks, mpd_type. split; [done|].
    intros k t Hin. apply parse_mpd_ok in Hparse.
    by apply (proj1 (Forall_forall _ _) Hparse (k, t)).
  - apply parse_mpd_raise.
  - intros e ->. by apply (parse_mpd_raise _ e).
  - intros response e -> Hxml. apply (parse_mpd_raise _ e).
    unfold parse_mpd_body. simpl. by rewrite Hxml.
  - intros response root -> Hxml Hperiod. unfold parse_mpd, parse_mpd_body.
    simpl. rewrite Hxml. simpl. by rewrite Hperiod.
Qed.

End ParserFacts.

Section ParserRuns.
#[local] Existing Instance Sample.lib.

(** A closed instance: a failed fetch, a malformed document and a
    document without a [Period]. *)
Lemma parse_mpd_total_witness :
  parse_mpd (Raise RequestException) = None ∧
  parse_mpd (Ok {| resp_url := "http://host/m.mpd";
                   resp_xml := Raise ParseError |}) = None ∧
  parse_mpd (Ok {| resp_url := "http://host/m.mpd";
                   resp_xml := Ok (Elem (mpd "MPD") [] []) |}) = None.
Proof.
  split; [|split].
  - apply (proj1 (proj2 (proj2 (parse_mpd_total _))) RequestException).
    (vm_compute; reflexivity).
  - eapply (proj1 (proj2 (proj2 (proj2 (parse_mpd_total _)))));
      (vm_compute; reflexivity).
  - eapply (proj2 (proj2 (proj2 (proj2 (parse_mpd_total _)))));
      (vm_compute; reflexivity).
Defined.

(** C2 fails on a representation with an initialization pattern and a
    timeline without entries: no media URL is generated, and the
    representation is stored with the initialization URL alone. *)
Lemma parse_mpd_init_only_track :
  parse_mpd (Ok (Sample.response_live [])) =
  Some ([("video_v0",
          {| track_key := "video_v0"; track_id := "v0"; track_type := "video";
             track_bandwidth := 500000;
             track_urls := ["http://host/live/init-v0.mp4"] |})],
        "dynamic").
Proof. reflexivity. Qed.

(** The branch without a timeline does skip a representation that has
    an initialization pattern and no media URL. *)
Example parse_mpd_no_duration_skips :
  parse_mpd (Ok Sample.response_vod_no_duration) = Some ([], "static").
Proof. reflexivity. Qed.

End ParserRuns.

(** ** The choice of the track *)

Lemma filter_nil_iff {A} (f : A → bool) (xs : list A) :
  List.filter f xs = [] ↔ ∀ x, x ∈ xs → f x = false.
Proof.
  induction xs as [|x xs IH]; simpl.
  - split; [by intros _ x Hx; inversion Hx | done].
  - destruct (f x) eqn:Hx.
    + split; [done|]. intros Hall. specialize (Hall x (list_elem_of_here _ _)).
      congruence.
    + rewrite IH. split.
      * intros Hall y [-> | Hy]%elem_of_cons; auto.
      * intros Hall y Hy. apply Hall. by apply list_elem_of_further.
Qed.

Lemma elem_of_filter_bool {A} (f : A → bool) (xs : list A) (x : A) :
  x ∈ List.filter f xs ↔ x ∈ xs ∧ f x = true.
Proof. rewrite !list_elem_of_In. apply List.filter_In. Qed.

(** The scan of [max]: the running best is the start or an element, and
    no element seen so far has a greater key. *)
Lemma foldl_max_spec {A} (key : A → Z) (xs : list A) (best : A) :
  let b := foldl (λ best y, if key best <? key y then y else best) best xs in
  (b = best ∨ b ∈ xs) ∧ key best ≤ key b ∧ ∀ x, x ∈ xs → key x ≤ key b.
Proof.
  revert best. induction xs as [|x xs IH]; intros best; simpl.
  - split; [by left|]. split; [lia|]. intros x Hx. inversion Hx.
  - destruct (IH (if key best <? key x then x else best)) as (Hin & Hle & Hall).
    split; [|split].
    + destruct Hin as [-> | Hin]; [|right; by apply list_elem_of_further].
      destruct (key best <? key x); [right; apply list_elem_of_here | by left].
    + destruct (key best <? key x) eqn:Hlt; [apply Z.ltb_lt in Hlt|]; lia.
    + intros y [-> | Hy]%elem_of_cons; [|by apply Hall].
      destruct (key best <? key x) eqn:Hlt; [|apply Z.ltb_ge in Hlt]; lia.
Qed.

Lemma max_by_spec {A} (key : A → Z) (xs : list A) (b : A) :
  max_by key xs = Some b → b ∈ xs ∧ ∀ x, x ∈ xs → key x ≤ key b.
Proof.
  destruct xs as [|x xs]; [done|]. simpl. intros [= <-].
  destruct (foldl_max_spec key xs x) as (Hin & Hle & Hall).
  split.
  - destruct Hin as [-> | Hin]; [apply list_elem_of_here | by apply list_elem_of_further].
  - intros y [-> | Hy]%elem_of_cons; [done | by apply Hall].
Qed.

Lemma has_urls_spec (item : string * Track) :
  has_urls item = true ↔ track_urls item.2 ≠ [].
Proof. unfold has_urls. by destruct (track_urls item.2). Qed.

Lemma select_track_inl (stream_type : string) (tracks : dict Track) (best : Track) :
  select_track stream_type tracks = inl best ↔
  max_by track_bandwidth
    (map snd (List.filter has_urls (List.filter (kind_matches stream_type) tracks)))
  = Some best.
Proof.
  unfold select_track.
  destruct (List.filter (kind_matches stream_type) tracks) as [|x target]; [done|].
  destruct (List.filter has_urls (x :: target)) as [|y valid]; [done|].
  destruct (max_by _ _); [|done]. split; congruence.
Qed.

Lemma elem_of_valid_tracks (stream_type : string) (tracks : dict Track) (t : Track) :
  t ∈ map snd (List.filter has_urls (List.filter (kind_matches stream_type) tracks)) ↔
  ∃ k, (k, t) ∈ tracks ∧ Py.contains stream_type (Py.lower k) = true ∧
       track_urls t ≠ [].
Proof.
  rewrite list_elem_of_fmap. split.
  - intros ([k t'] & -> & Hin). simpl.
    apply elem_of_filter_bool in Hin as [Hin Hurls].
    apply elem_of_filter_bool in Hin as [Hin Hkind].
    exists k. by rewrite <- (has_urls_spec (k, t')).
  - intros (k & Hin & Hkind & Hurls). exists (k, t). split; [done|].
    apply elem_of_filter_bool. split; [|by apply has_urls_spec].
    by apply elem_of_filter_bool.
Qed.

(** C5. For a requested kind, [video] or [audio], the selector looks
    only at the tracks whose key, in lower case, contains the kind and
    whose list of segment URLs is not empty; the track it returns is one
    of these, and none of these has a greater bandwidth. It returns a
    track whenever there is one of these, so a track without URLs is
    never chosen, whatever its bandwidth. *)
Theorem select_track_best (kind : string) (tracks : dict Track) :
  kind = "video" ∨ kind = "audio" →
  (∀ best, select_track kind tracks = inl best →
     candidate kind tracks best ∧
     track_urls best ≠ [] ∧
     ∀ t, candidate kind tracks t → track_bandwidth t ≤ track_bandwidth best) ∧
  ((∃ t, candidate kind tracks t) → ∃ best, select_track kind tracks = inl best).
Proof.
  intros Hkind.
  assert (Py.lower kind = kind) as Hlower by by destruct Hkind as [-> | ->].
  unfold candidate. rewrite Hlower. split.
  - intros best Hbest%select_track_inl. apply max_by_spec in Hbest as [Hin Hmax].
    pose proof (proj1 (elem_of_valid_tracks kind tracks best) Hin) as Hc.
    split; [done|]. split; [by destruct Hc as (k & _ & _ & Hurls)|].
    intros t Ht. by apply Hmax, elem_of_valid_tracks.
  - intros [t Ht%elem_of_valid_tracks].
    destruct (max_by track_bandwidth
                (map snd (List.filter has_urls
                            (List.filter (kind_matches kind) tracks))))
      as [best|] eqn:Hmax.
    + exists best. by apply select_track_inl.
    + destruct (map snd _) as [|x xs]; [by inversion Ht | done].
Qed.

(** A closed instance: the video track with the greatest bandwidth has no
    URLs and is passed over; the audio track is not looked at. *)
Lemma select_track_best_witness :
  select_track "video"
    [("video_hi", {| track_key := "video_hi"; track_id := "hi"; track_type := "video";
                     track_bandwidth := 900; track_urls := [] |});
     ("VIDEO_lo", {| track_key := "VIDEO_lo"; track_id := "lo"; track_type := "VIDEO";
                     track_bandwidth := 300; track_urls := ["u1"] |});
     ("audio_a", {| track_key := "audio_a"; track_id := "a"; track_type := "audio";
                    track_bandwidth := 999; track_urls := ["u2"] |})]
  = inl {| track_key := "VIDEO_lo"; track_id := "lo"; track_type := "VIDEO";
           track_bandwidth := 300; track_urls := ["u1"] |} ∧
  ∀ best,
    select_track "video"
      [("video_hi", {| track_key := "video_hi"; track_id := "hi"; track_type := "video";
                       track_bandwidth := 900; track_urls := [] |});
       ("VIDEO_lo", {| track_key := "VIDEO_lo"; track_id := "lo"; track_type := "VIDEO";
                       track_bandwidth := 300; track_urls := ["u1"] |});
       ("audio_a", {| track_key := "audio_a"; track_id := "a"; track_type := "audio";
                      track_bandwidth := 999; track_urls := ["u2"] |})]
    = inl best → track_urls best ≠ [].
Proof.
  split; [(vm_compute; reflexivity)|]. intros best Hbest.
  by destruct (proj1 (select_track_best "video" _ (or_introl eq_refl)) best Hbest)
    as (_ & Hurls & _).
Defined.

(** ** The status of a stream request *)

Section StreamFacts.
Context {lib : PythonLib}.

Lemma stream_parsed (stream_type : string) (fetched : result Response)
    (tracks : dict Track) (mpd_type : string) :
  stream_type = "video" ∨ stream_type = "audio" →
  parse_mpd fetched = Some (tracks, mpd_type) →
  tracks ≠ [] →
  stream stream_type fetched =
  match select_track stream_type tracks with
  | inr status => Abort status
  | inl best_track =>
      Streaming best_track mpd_type
        (if String.eqb stream_type "video" then "video/mp4" else "audio/mp4")
  end.
Proof.
  intros Hkind Hparse Hne. unfold stream. rewrite Hparse.
  destruct Hkind as [-> | ->]; simpl; by destruct tracks.
Qed.

(** C1, as amended. A request for a kind other than [video] and
    [audio] is answered 404. Otherwise the answer is 500 when the
    manifest cannot be fetched or parsed, when it has no [Period] and
    when the parse yields no track at all; it is 404 when the parse
    yields tracks and no key contains the kind; and when some key
    contains the kind a track is streamed. Were tracks with a matching
    key all without URLs, which the parser never returns, the
    selection would answer 500. *)
Theorem stream_status (stream_type : string) (fetched : result Response) :
  (stream_type ≠ "video" → stream_type ≠ "audio" →
   stream stream_type fetched = Abort 404) ∧
  (stream_type = "video" ∨ stream_type = "audio" →
   (parse_mpd fetched = None → stream stream_type fetched = Abort 500) ∧
   (∀ mpd_type, parse_mpd fetched = Some ([], mpd_type) →
      stream stream_type fetched = Abort 500) ∧
   (∀ tracks mpd_type,
      parse_mpd fetched = Some (tracks, mpd_type) → tracks ≠ [] →
      (∀ k t, (k, t) ∈ tracks → Py.contains stream_type (Py.lower k) = false) →
      stream stream_type fetched = Abort 404) ∧
   (∀ tracks mpd_type k t,
      parse_mpd fetched = Some (tracks, mpd_type) →
      (k, t) ∈ tracks → Py.contains stream_type (Py.lower k) = true →
      ∃ best_track mimetype,
        stream stream_type fetched = Streaming best_track mpd_type mimetype)) ∧
  (∀ tracks : dict Track,
     List.filter (kind_matches stream_type) tracks ≠ [] →
     (∀ k t, (k, t) ∈ tracks → Py.contains stream_type (Py.lower k) = true →
             track_urls t = []) →
     select_track stream_type tracks = inr 500).
Proof.
  split; [|split].
  - intros Hv Ha. unfold stream.
    apply String.eqb_neq in Hv, Ha. by rewrite Hv, Ha.
  - intros Hkind. split; [|split; [|split]].
    + intros Hparse. unfold stream. rewrite Hparse.
      by destruct Hkind as [-> | ->].
    + intros mpd_type Hparse. unfold stream. rewrite Hparse.
      by destruct Hkind as [-> | ->].
    + intros tracks mpd_type Hparse Hne Hnone.
      rewrite (stream_parsed _ _ _ _ Hkind Hparse Hne). unfold select_track.
      replace (List.filter (kind_matches stream_type) tracks)
        with (@nil (string * Track)); [done|].
      symmetry. apply filter_nil_iff. intros [k t] Hin. by apply (Hnone k t).
    + intros tracks mpd_type k t Hparse Hin Hmatch.
      assert (tracks ≠ []) as Hne by (intros ->; inversion Hin).
      rewrite (stream_parsed _ _ _ _ Hkind Hparse Hne).
      pose proof (parse_mpd_ok _ _ _ Hparse) as Hok.
      apply (proj1 (Forall_forall _ _) Hok) in Hin as Hkt.
      destruct Hkt as (_ & _ & Hurls). simpl in Hurls.
      destruct (select_track stream_type tracks) as [best|status] eqn:Hsel;
        [by eexists _, _|].
      exfalso.
      assert (t ∈ map snd (List.filter has_urls
                             (List.filter (kind_matches stream_type) tracks)))
        as Ht by (apply elem_of_valid_tracks; by exists k).
      destruct (max_by track_bandwidth
                  (map snd (List.filter has_urls
                              (List.filter (kind_matches stream_type) tracks))))
        as [best|] eqn:Hmax.
      * apply select_track_inl in Hmax. congruence.
      * destruct (map snd _); [by inversion Ht | done].
  - intros tracks Htarget Hempty. unfold select_track.
    destruct (List.filter (kind_matches stream_type) tracks)
      as [|x target] eqn:Hf; [done|].
    replace (List.filter has_urls (x :: target))
      with (@nil (string * Track)); [done|].
    symmetry. apply filter_nil_iff. intros [k t] Hin.
    rewrite <- Hf in Hin. apply elem_of_filter_bool in Hin as [Hin Hkind].
    unfold has_urls. simpl. by rewrite (Hempty k t Hin Hkind).
Qed.

End StreamFacts.

Section StreamRuns.
#[local] Existing Instance Sample.lib.

(** C1 as first stated fails on a manifest with a period and no
    representation: it is fetched and parsed, the parse yields no
    track, and the answer is 500, not 404. On tracks with a matching
    key that all lack URLs the selection answers 500 as well. *)
Lemma stream_no_tracks_counterexample :
  parse_mpd (Ok Sample.response_empty) = Some ([], "static") ∧
  stream "video" (Ok Sample.response_empty) = Abort 500 ∧
  select_track "video"
    [("video_v0", {| track_key := "video_v0"; track_id := "v0";
                     track_type := "video"; track_bandwidth := 1;
                     track_urls := [] |})] = inr 500.
Proof. by repeat split. Qed.

(** A closed instance: a manifest with one video track asked for audio
    gives 404, asked for video it is streamed; a manifest that yields no
    track gives 500. *)
Lemma stream_status_witness :
  stream "audio" (Ok Sample.response_vod) = Abort 404 ∧
  stream "video" (Ok Sample.response_empty) = Abort 500 ∧
  ∃ best_track mimetype,
    stream "video" (Ok Sample.response_vod) = Streaming best_track "static" mimetype.
Proof.
  split; [|split].
  - destruct (proj1 (proj2 (stream_status "audio" (Ok Sample.response_vod)))
                (or_intror eq_refl)) as (_ & _ & H404 & _).
    eapply H404; [(vm_compute; reflexivity) | done |].
    intros k t [[= -> ->] | Hin]%elem_of_cons; [(vm_compute; reflexivity) | inversion Hin].
  - destruct (proj1 (proj2 (stream_status "video" (Ok Sample.response_empty)))
                (or_introl eq_refl)) as (_ & H500 & _).
    by apply (H500 "static").
  - destruct (proj1 (proj2 (stream_status "video" (Ok Sample.response_vod)))
                (or_introl eq_refl)) as (_ & _ & _ & H200).
    eapply H200; [(vm_compute; reflexivity) | apply list_elem_of_here | (vm_compute; reflexivity)].
Defined.

End StreamRuns.

(** ** The producer *)

Lemma extends_refl (st : fetcher) : extends st st.
Proof. by repeat split. Qed.

Lemma extends_trans (st1 st2 st3 : fetcher) :
  extends st1 st2 → extends st2 st3 → extends st1 st3.
Proof.
  intros (Hs & Hd & Hq & Hc) (Hs' & Hd' & Hq' & Hc').
  repeat split; [set_solver | by etrans | by etrans | lia].
Qed.

Lemma extends_tick (st : fetcher) : extends st (tick st).
Proof. repeat split; simpl; [done | done | done | lia]. Qed.

Lemma extends_later (st st' : fetcher) :
  sent_segments st' = sent_segments st → delivered st' = delivered st →
  queue st' = queue st → (clock st ≤ clock st')%nat → extends st st'.
Proof. intros Hs Hd Hq Hc. unfold extends. rewrite Hs, Hd, Hq. by repeat split. Qed.

Lemma extends_delivery (st st2 : fetcher) (u content : string) (seen : gset string) :
  sent_segments st2 = sent_segments st → delivered st2 = delivered st →
  queue st2 = queue st ++ [Some content] → (clock st ≤ clock st2)%nat →
  sent_segments st ⊆ seen →
  extends st
    {| clock := S (clock st2); queue := queue st2; sent_segments := seen;
       delivered := delivered st2 ++ [u] |}.
Proof.
  intros Hs Hd Hq Hc Hseen. unfold extends. simpl. rewrite Hd, Hq.
  split; [done|]. split; [by apply prefix_app_r|].
  split; [by apply prefix_app_r | lia].
Qed.

Section PutFacts.
Variable w : World.

Lemma put_unfold (wait : nat) (item : option string) (st : fetcher) :
  put w wait item st =
  if full w st then
    match wait with
    | O => (st, false)
    | S wait' => put w wait' item (tick st)
    end
  else (enqueue item st, true).
Proof. by destruct wait. Qed.

(** What a call of [q.put] changes: the queue, by the item when the
    call has returned, and the clock. A call that has not returned
    leaves the buffer full. *)
Lemma put_effect (wait : nat) (item : option string) (st : fetcher) :
  let r := put w wait item st in
  sent_segments r.1 = sent_segments st ∧ delivered r.1 = delivered st ∧
  (clock st ≤ clock r.1)%nat ∧
  queue r.1 = queue st ++ (if r.2 then [item] else []) ∧
  (r.2 = false → full w r.1 = true).
Proof.
  revert st. induction wait as [|wait IH]; intros st; rewrite put_unfold.
  - destruct (full w st) eqn:Hfull; simpl; rewrite ?app_nil_r; done.
  - destruct (full w st) eqn:Hfull; [|done].
    destruct (IH (tick st)) as (Hs & Hd & Hc & Hq & Hf).
    simpl in *. repeat split; try done. lia.
Qed.

(** Watching a blocked call for longer: a call that has returned is
    seen as before, one that had not is seen at a later instant. *)
Lemma put_mono (wait wait' : nat) (item : option string) (st : fetcher) :
  (wait ≤ wait')%nat →
  let r := put w wait item st in
  let r' := put w wait' item st in
  (r.2 = true ∧ r' = r) ∨ (r.2 = false ∧ (clock r.1 ≤ clock r'.1)%nat).
Proof.
  revert wait' st. induction wait as [|wait IH]; intros wait' st Hle.
  - rewrite (put_unfold 0), (put_unfold wait').
    destruct (full w st) eqn:Hfull; [right | by left].
    split; [done|]. destruct wait' as [|wait']; [done|].
    pose proof (put_effect wait' item (tick st)) as (_ & _ & Hc & _).
    simpl in *. lia.
  - destruct wait' as [|wait']; [lia|].
    rewrite (put_unfold (S wait)), (put_unfold (S wait')).
    destruct (full w st) eqn:Hfull; [|by left]. apply IH. lia.
Qed.




End PutFacts.

Section FetcherFacts.
Variable w : World.
Variable patience : nat.

(** *** The static branch *)




End FetcherFacts.

Section StaticStable.
Variable w : World.



End StaticStable.

Section LiveFacts.
Context {lib : PythonLib}.
Variable w : World.

(** *** The live branch *)

Lemma live_put_ok (st st2 : fetcher) (u content : string) :
  u ∉ sent_segments st → queue_ok st → seen_ok st →
  sent_segments st2 = sent_segments st → delivered st2 = delivered st →
  queue st2 = queue st ++ [Some content] →
  let st' := {| clock := S (clock st2); queue := queue st2;
                sent_segments := {[u]} ∪ sent_segments st2;
                delivered := delivered st2 ++ [u] |} in
  queue_ok st' ∧ seen_ok st'.
Proof.
  intros Hu [Hq Hl] [Hnd Hsent] Hs Hd Hqq. simpl. split; split; simpl;
    rewrite ?Hs, ?Hd, ?Hqq.
  - apply Forall_app. by repeat constructor.
  - by rewrite !length_app, Hl.
  - apply NoDup_app. split; [done|]. split; [|apply NoDup_singleton].
    intros x Hx ->%list_elem_of_singleton. by apply Hu, Hsent.
  - intros x. rewrite elem_of_union, elem_of_singleton, elem_of_app,
      list_elem_of_singleton, Hsent. tauto.
Qed.

Lemma live_for_spec (patience : nat) (urls : list string) (found_new : bool)
    (st : fetcher) :
  queue_ok st → seen_ok st →
  let r := live_for w patience urls found_new st in
  queue_ok r.1.1 ∧ seen_ok r.1.1 ∧ extends st r.1.1 ∧ r.2 ≠ Running ∧
  (r.2 = Blocked → full w r.1.1 = true).
Proof.
  revert found_new st.
  induction urls as [|u urls IH]; intros found_new st Hq Hs; cbn [live_for].
  - repeat split; try done; apply Hq || apply Hs.
  - destruct (stop_is_set w (clock st)).
    { simpl. split; [done|]. split; [done|]. split; [apply extends_tick|done]. }
    case_bool_decide as Hin.
    { destruct (IH found_new (tick st)) as (Hq' & Hs' & He & Hr & Hb); [done..|].
      split; [done|]. split; [done|]. split; [|done].
      eapply extends_trans; [apply extends_tick | done]. }
    destruct (session_get w (clock (tick st)) u) as [content|e].
    + pose proof (put_effect w patience (Some content) (tick st))
        as (Hps & Hpd & Hpc & Hpq & Hpf).
      destruct (put w patience (Some content) (tick st)) as [st2 returned].
      simpl in Hps, Hpd, Hpc, Hpq, Hpf. destruct returned.
      * destruct (live_put_ok (tick st) st2 u content Hin) as [Hq1 Hs1]; [done..|].
        edestruct (IH true) as (Hq' & Hs' & He & Hr & Hb); [exact Hq1 | exact Hs1|].
        split; [exact Hq'|]. split; [exact Hs'|]. split; [|by split].
        eapply extends_trans; [|exact He].
        eapply extends_trans; [apply extends_tick|].
        apply (extends_delivery (tick st) st2 u content); simpl; try done.
        rewrite Hps. apply union_subseteq_r.
      * rewrite app_nil_r in Hpq. simpl.
        split; [by split; rewrite Hpq, ?Hpd; apply Hq|].
        split; [split; [rewrite Hpd; apply Hs | intros x; rewrite Hps, Hpd; apply Hs]|].
        split; [apply extends_later; simpl; done || lia|].
        split; [done | intros _; by apply Hpf].
    + assert (extends st (tick (tick st))) as Htt
        by (eapply extends_trans; apply extends_tick).
      destruct e;
        try (simpl; split; [done|]; split; [done|]; split; [exact Htt | done]).
      destruct (IH true (tick (tick st))) as (Hq' & Hs' & He & Hr & Hb); [done..|].
      split; [done|]. split; [done|]. split; [|done].
      by eapply extends_trans.
Qed.

Lemma live_while_spec (patience fuel : nat) (track_key : string) (st : fetcher) :
  queue_ok st → seen_ok st →
  let r := live_while w patience fuel track_key st in
  queue_ok r.1 ∧ seen_ok r.1 ∧ extends st r.1 ∧
  (r.2 = Blocked → full w r.1 = true).
Proof.
  revert st. induction fuel as [|fuel IH]; intros st Hq Hs; cbn [live_while].
  - split; [done|]. split; [done|]. split; [apply extends_refl | done].
  - destruct (stop_is_set w (clock st)).
    { simpl. split; [done|]. split; [done|]. split; [apply extends_tick | done]. }
    assert (∀ st1, queue_ok st1 → seen_ok st1 → extends st st1 →
              let r := live_while w patience fuel track_key st1 in
              queue_ok r.1 ∧ seen_ok r.1 ∧ extends st r.1 ∧
              (r.2 = Blocked → full w r.1 = true)) as Hnext.
    { intros st1 Hq1 Hs1 He1. destruct (IH st1 Hq1 Hs1) as (Hq' & Hs' & He' & Hb').
      split; [done|]. split; [done|]. split; [by eapply extends_trans | done]. }
    assert (extends st (tick (tick st))) as Htt
      by (eapply extends_trans; apply extends_tick).
    assert (extends st (tick (tick (tick st)))) as Httt
      by (eapply extends_trans; [exact Htt | apply extends_tick]).
    destruct (parse_mpd (manifest_get w (clock (tick st))))
      as [[[|item live_tracks] mode]|].
    + by apply Hnext.
    + destruct (dict_get (item :: live_tracks) track_key) as [live_track|];
        [|by simpl].
      destruct (track_urls live_track) as [|u all_current_urls]; [by simpl|].
      destruct (live_for_spec patience (u :: all_current_urls) false (tick (tick st)))
        as (Hq2 & Hs2 & He2 & Hr2 & Hb2); [done..|].
      destruct (live_for w patience (u :: all_current_urls) false (tick (tick st)))
        as [[st2 found_new] s].
      simpl in Hq2, Hs2, He2, Hr2, Hb2.
      pose proof (extends_trans _ _ _ Htt He2) as Hst2.
      destruct s; try done.
      * apply Hnext; destruct found_new; try done.
        eapply extends_trans; [exact Hst2 | apply extends_tick].
      * apply Hnext; destruct found_new; try done.
        eapply extends_trans; [exact Hst2 | apply extends_tick].
    + by apply Hnext.
Qed.


(** Watching the pass over the URLs with more patience: a pass that
    was not blocked is seen as before, one that was blocked is seen
    further on. *)
Lemma live_for_mono (patience patience' : nat) (urls : list string)
    (found_new : bool) (st : fetcher) :
  (patience ≤ patience')%nat → queue_ok st → seen_ok st →
  let r := live_for w patience urls found_new st in
  let r' := live_for w patience' urls found_new st in
  (r.2 ≠ Blocked ∧ r' = r) ∨ (r.2 = Blocked ∧ extends r.1.1 r'.1.1).
Proof.
  intros Hle. revert found_new st.
  induction urls as [|u urls IH]; intros found_new st Hq Hs; cbn [live_for].
  - by left.
  - destruct (stop_is_set w (clock st)); [by left|].
    case_bool_decide as Hin; [by apply IH|].
    destruct (session_get w (clock (tick st)) u) as [content|e].
    + pose proof (put_effect w patience (Some content) (tick st))
        as (Hps & Hpd & Hpc & Hpq & _).
      pose proof (put_effect w patience' (Some content) (tick st))
        as (Hps' & Hpd' & Hpc' & Hpq' & _).
      pose proof (put_mono w patience patience' (Some content) (tick st) Hle)
        as Hmono.
      destruct (put w patience (Some content) (tick st)) as [st2 returned].
      destruct (put w patience' (Some content) (tick st)) as [st2' returned'].
      simpl in Hps, Hpd, Hpc, Hpq, Hps', Hpd', Hpc', Hpq', Hmono.
      destruct Hmono as [[-> [= -> ->]] | [-> Hclock]].
      * destruct (live_put_ok (tick st) st2 u content Hin) as [Hq1 Hs1]; [done..|].
        by apply IH.
      * right. split; [done|]. simpl. rewrite app_nil_r in Hpq.
        destruct returned'.
        -- destruct (live_put_ok (tick st) st2' u content Hin) as [Hq1 Hs1];
             [done..|].
           destruct (live_for_spec patience' urls true _ Hq1 Hs1)
             as (_ & _ & He & _).
           eapply extends_trans; [|exact He].
           apply (extends_delivery st2 st2' u content); simpl.
           ++ by rewrite Hps', Hps.
           ++ by rewrite Hpd', Hpd.
           ++ by rewrite Hpq', Hpq.
           ++ done.
           ++ rewrite Hps', Hps. apply union_subseteq_r.
        -- simpl. rewrite app_nil_r in Hpq'. apply extends_later.
           ++ by rewrite Hps', Hps.
           ++ by rewrite Hpd', Hpd.
           ++ by rewrite Hpq', Hpq.
           ++ done.
    + destruct e; try by left. by apply IH.
Qed.

(** Watching the live loop for more iterations and with more patience
    shows a later state of the same session. *)
Lemma live_while_mono (patience patience' : nat) (track_key : string) :
  (patience ≤ patience')%nat →
  ∀ (fuel fuel' : nat) (st : fetcher),
    (fuel ≤ fuel')%nat → queue_ok st → seen_ok st →
    extends (live_while w patience fuel track_key st).1
            (live_while w patience' fuel' track_key st).1.
Proof.
  intros Hle. induction fuel as [|fuel IH]; intros fuel' st Hfuel Hq Hs.
  { cbn [live_while]. simpl. by apply live_while_spec. }
  destruct fuel' as [|fuel']; [lia|]. cbn [live_while].
  destruct (stop_is_set w (clock st)); [apply extends_refl|].
  destruct (parse_mpd (manifest_get w (clock (tick st))))
    as [[[|item live_tracks] mode]|].
  - apply IH; [lia | done | done].
  - destruct (dict_get (item :: live_tracks) track_key) as [live_track|];
      [|apply extends_refl].
    destruct (track_urls live_track) as [|u all_current_urls]; [apply extends_refl|].
    destruct (live_for_spec patience (u :: all_current_urls) false (tick (tick st)))
      as (Hq2 & Hs2 & _ & Hr2 & _); [done..|].
    destruct (live_for_spec patience' (u :: all_current_urls) false (tick (tick st)))
      as (Hq2' & Hs2' & _ & Hr2' & _); [done..|].
    pose proof (live_for_mono patience patience' (u :: all_current_urls) false
                  (tick (tick st)) Hle) as Hmono.
    destruct (live_for w patience (u :: all_current_urls) false (tick (tick st)))
      as [[st2 found_new] s].
    destruct (live_for w patience' (u :: all_current_urls) false (tick (tick st)))
      as [[st2' found_new'] s'].
    simpl in Hq2, Hs2, Hr2, Hq2', Hs2', Hr2', Hmono.
    destruct Hmono as [[Hs_ne [= -> -> ->]] | [-> Hext]]; [done | done |..].
    + destruct s; try done; try apply extends_refl;
        (apply IH; [lia | by destruct found_new | by destruct found_new]).
    + simpl.
      assert (∀ st3, queue_ok st3 → seen_ok st3 → extends st2' st3 →
                extends st2 (live_while w patience' fuel' track_key st3).1)
        as Hnext.
      { intros st3 Hq3 Hs3 He3.
        destruct (live_while_spec patience' fuel' track_key st3 Hq3 Hs3)
          as (_ & _ & He & _).
        eapply extends_trans; [exact Hext|]. by eapply extends_trans. }
      destruct s'; try done;
        (apply Hnext; destruct found_new'; try done;
         apply extends_refl || apply extends_tick).
  - apply IH; [lia | done | done].
Qed.


End LiveFacts.

Section BoundFacts.
Context {lib : PythonLib}.
Variable w : World.
Variable patience : nat.
Hypothesis taken_mono : ∀ t t', (t ≤ t')%nat → (taken w t ≤ taken w t')%nat.







End BoundFacts.

Lemma all_payloads (q : list (option string)) :
  Forall is_Some q → ∃ ps, q = Some <$> ps.
Proof.
  induction 1 as [|x q [p ->] _ [ps ->]]; [by exists [] | by exists (p :: ps)].
Qed.

Lemma payloads_length (q : list (option string)) :
  Forall is_Some q → length (payloads q) = length q.
Proof.
  intros [ps ->]%all_payloads. unfold payloads.
  induction ps as [|p ps IH]; [done|]. cbn. f_equal. exact IH.
Qed.

Lemma payloads_marker (q : list (option string)) :
  payloads (q ++ [None]) = payloads q.
Proof. unfold payloads. rewrite omap_app. simpl. apply app_nil_r. Qed.

Lemma start_ok : queue_ok start ∧ seen_ok start.
Proof.
  split; split; simpl; [constructor | done | constructor |].
  intros u. split; [set_solver | by inversion 1].
Qed.

Section Producer.
Context {lib : PythonLib}.
Variable w : World.


Lemma segment_fetcher_final (patience fuel : nat) (track : Track)
    (mpd_type : string) :
  let run := fetch_loop w patience fuel track mpd_type in
  let r := segment_fetcher w patience fuel track mpd_type in
  delivered r.1 = delivered run.1 ∧
  sent_segments r.1 = sent_segments run.1 ∧
  (clock run.1 ≤ clock r.1)%nat ∧
  queue r.1 = queue run.1 ++ match r.2 with Finished => [None] | _ => [] end.
Proof.
  unfold segment_fetcher.
  destruct (fetch_loop w patience fuel track mpd_type) as [st s]. simpl.
  pose proof (put_effect w patience None st) as (Hs & Hd & Hc & Hq & _).
  destruct (put w patience None st) as [st' returned]. simpl in Hs, Hd, Hc, Hq.
  destruct s; simpl; rewrite ?app_nil_r; try done;
    (destruct returned; simpl; rewrite ?app_nil_r in *; done).
Qed.


(** C6. In a live session, however long it has run, no URL has been
    delivered (fetched, put in the queue and added to the set of sent
    segments) twice; the set holds exactly the delivered URLs, it is
    empty at the start, and running longer, or waiting longer for a
    blocked [put], only adds to it. *)
Theorem live_session_no_repeat (patience fuel : nat) (track : Track)
    (mpd_type : string) :
  String.eqb mpd_type "static" = false →
  let st := (segment_fetcher w patience fuel track mpd_type).1 in
  NoDup (delivered st) ∧
  (∀ u, u ∈ sent_segments st ↔ u ∈ delivered st) ∧
  length (payloads (queue st)) = length (delivered st) ∧
  sent_segments (segment_fetcher w patience 0 track mpd_type).1 = ∅ ∧
  ∀ fuel' patience', (fuel ≤ fuel')%nat → (patience ≤ patience')%nat →
    let st' := (segment_fetcher w patience' fuel' track mpd_type).1 in
    sent_segments st ⊆ sent_segments st' ∧
    delivered st `prefix_of` delivered st'.
Proof.
  intros Hmode.
  destruct start_ok as [Hq0 Hs0].
  destruct (segment_fetcher_final patience fuel track mpd_type)
    as (Hd & Hs & _ & Hq).
  cbv zeta in *.
  assert (fetch_loop w patience fuel track mpd_type
          = live_while w patience fuel (track_key track) start) as Hloop
    by (unfold fetch_loop; by rewrite Hmode).
  rewrite Hloop in Hd, Hs, Hq.
  destruct (live_while_spec w patience fuel (track_key track) start Hq0 Hs0)
    as ((Hqs & Hl) & (Hnd & Hsent) & _ & _).
  rewrite Hd, Hs, Hq.
  split; [done|]. split; [done|]. split.
  { rewrite <- Hl.
    destruct (segment_fetcher w patience fuel track mpd_type).2;
      rewrite ?payloads_marker, ?app_nil_r; by apply payloads_length. }
  split.
  { unfold segment_fetcher, fetch_loop. rewrite Hmode. done. }
  intros fuel' patience' Hfuel Hpatience.
  destruct (segment_fetcher_final patience' fuel' track mpd_type)
    as (Hd' & Hs' & _ & _).
  cbv zeta in *.
  assert (fetch_loop w patience' fuel' track mpd_type
          = live_while w patience' fuel' (track_key track) start) as Hloop'
    by (unfold fetch_loop; by rewrite Hmode).
  rewrite Hloop' in Hd', Hs'. rewrite Hd', Hs'.
  destruct (live_while_mono w patience patience' (track_key track) Hpatience
              fuel fuel' start Hfuel Hq0 Hs0) as (Hsub & Hpre & _).
  by split.
Qed.


End Producer.

Section ProducerRuns.
#[local] Existing Instance Sample.lib.

(** A closed instance: a live session observed after twenty rounds has
    delivered four different URLs. *)
Lemma live_session_no_repeat_witness :
  NoDup (delivered (segment_fetcher Sample.world 5 20 Sample.track "dynamic").1) ∧
  length (delivered (segment_fetcher Sample.world 5 20 Sample.track "dynamic").1)
  = 4%nat.
Proof.
  split; [|vm_compute; reflexivity].
  by destruct (live_session_no_repeat Sample.world 5 20 Sample.track "dynamic"
                 eq_refl) as [Hnodup _].
Defined.



(** The other ways out: an exception that the inner handler does not
    catch, and a live track that is no longer in the manifest. Each ends
    with the end marker. *)
Example producer_error_path :
  segment_fetcher Sample.faulty_world 5 1 Sample.track "static"
  = ({| clock := 3; queue := [None]; sent_segments := ∅; delivered := [] |},
     Finished).
Proof. reflexivity. Qed.

Example producer_track_gone :
  segment_fetcher Sample.faulty_world 5 1
    {| track_key := "audio_a0"; track_id := "a0"; track_type := "audio";
       track_bandwidth := 1; track_urls := ["a"] |} "dynamic"
  = ({| clock := 2; queue := [None]; sent_segments := ∅; delivered := [] |},
     Finished).
Proof. reflexivity. Qed.

End ProducerRuns.

(** * Further properties of the code *)

(** ** The reconstruction of the manifest URL *)

Lemma reconstruct_http (rest : string) :
  Py.startswith "/" rest = false →
  reconstruct_url_from_path ("http:/" +:+ rest) = "http://" +:+ rest.
Proof.
  intros Hrest. unfold reconstruct_url_from_path, Py.startswith in *. simpl.
  rewrite Hrest. simpl. by destruct rest.
Qed.

Lemma reconstruct_https (rest : string) :
  Py.startswith "/" rest = false →
  reconstruct_url_from_path ("https:/" +:+ rest) = "https://" +:+ rest.
Proof.
  intros Hrest. unfold reconstruct_url_from_path, Py.startswith in *. simpl.
  rewrite Hrest. simpl. by destruct rest.
Qed.

Lemma reconstruct_canonical (rest : string) :
  reconstruct_url_from_path ("http://" +:+ rest) = "http://" +:+ rest ∧
  reconstruct_url_from_path ("https://" +:+ rest) = "https://" +:+ rest.
Proof.
  assert (String.prefix "" rest = true) as Hnil by by destruct rest.
  unfold reconstruct_url_from_path, Py.startswith. simpl. by rewrite Hnil.
Qed.

Lemma reconstruct_other (path_segment : string) :
  Py.startswith "http:/" path_segment = false →
  Py.startswith "https:/" path_segment = false →
  reconstruct_url_from_path path_segment = path_segment.
Proof. intros Hhttp Hhttps. unfold reconstruct_url_from_path. by rewrite Hhttp, Hhttps. Qed.

Lemma startswith_slash (rest : string) :
  Py.startswith "/" rest = true → ∃ rest', rest = "/" +:+ rest'.
Proof. intros Hrest%startswith_split. by exists (Py.drop 1 rest). Qed.

(** X1. A path in which the router has collapsed [http://] or [https://]
    to a single slash gets the double slash back, at the head and
    nowhere else; a path that already has it, and a path that begins
    with neither scheme, are returned unchanged. *)
Theorem reconstruct_url_spec :
  (∀ rest, Py.startswith "/" rest = false →
     reconstruct_url_from_path ("http:/" +:+ rest) = "http://" +:+ rest) ∧
  (∀ rest, Py.startswith "/" rest = false →
     reconstruct_url_from_path ("https:/" +:+ rest) = "https://" +:+ rest) ∧
  (∀ rest, reconstruct_url_from_path ("http://" +:+ rest) = "http://" +:+ rest) ∧
  (∀ rest, reconstruct_url_from_path ("https://" +:+ rest) = "https://" +:+ rest) ∧
  (∀ path_segment,
     Py.startswith "http:/" path_segment = false →
     Py.startswith "https:/" path_segment = false →
     reconstruct_url_from_path path_segment = path_segment).
Proof.
  split; [apply reconstruct_http|]. split; [apply reconstruct_https|].
  split; [apply reconstruct_canonical|]. split; [apply reconstruct_canonical|].
  apply reconstruct_other.
Qed.

(** A closed instance: the path of the first example of the source, the
    same path with a second collapsed scheme further on, and a relative
    path. *)
Lemma reconstruct_url_spec_witness :
  reconstruct_url_from_path "https:/dash.akamaized.net/akamai/bbb_30fps/bbb_30fps.mpd"
  = "https://dash.akamaized.net/akamai/bbb_30fps/bbb_30fps.mpd" ∧
  reconstruct_url_from_path "http:/host/http:/other" = "http://host/http:/other" ∧
  reconstruct_url_from_path "manifests/http:/a.mpd" = "manifests/http:/a.mpd".
Proof.
  destruct reconstruct_url_spec as (Hhttp & Hhttps & _ & _ & Hother).
  split; [|split].
  - apply (Hhttps "dash.akamaized.net/akamai/bbb_30fps/bbb_30fps.mpd"). (vm_compute; reflexivity).
  - apply (Hhttp "host/http:/other"). (vm_compute; reflexivity).
  - apply Hother; (vm_compute; reflexivity).
Defined.

(** X2. Reconstructing twice is reconstructing once: what the function
    returns is a fixed point of it. *)
Theorem reconstruct_url_idempotent (path_segment : string) :
  reconstruct_url_from_path (reconstruct_url_from_path path_segment)
  = reconstruct_url_from_path path_segment.
Proof.
  assert (∀ scheme rest,
    (∀ r, Py.startswith "/" r = false →
       reconstruct_url_from_path (scheme +:+ "/" +:+ r) = scheme +:+ "//" +:+ r) →
    (∀ r, reconstruct_url_from_path (scheme +:+ "//" +:+ r) = scheme +:+ "//" +:+ r) →
    reconstruct_url_from_path (reconstruct_url_from_path (scheme +:+ "/" +:+ rest))
    = reconstruct_url_from_path (scheme +:+ "/" +:+ rest)) as Hscheme.
  { intros scheme rest Hone Htwo.
    destruct (Py.startswith "/" rest) eqn:Hrest.
    - apply startswith_slash in Hrest as [rest' ->].
      replace (scheme +:+ "/" +:+ "/" +:+ rest') with (scheme +:+ "//" +:+ rest')
        by reflexivity.
      by rewrite !Htwo.
    - by rewrite (Hone rest Hrest), Htwo. }
  destruct (Py.startswith "http:/" path_segment) eqn:Hhttp.
  - rewrite (startswith_split _ _ Hhttp).
    apply (Hscheme "http:" _ reconstruct_http).
    intros r. apply reconstruct_canonical.
  - destruct (Py.startswith "https:/" path_segment) eqn:Hhttps.
    + rewrite (startswith_split _ _ Hhttps).
      apply (Hscheme "https:" _ reconstruct_https).
      intros r. apply reconstruct_canonical.
    + by rewrite !(reconstruct_other _ Hhttp Hhttps).
Qed.

(** ** The dictionary of tracks as a dictionary *)

Lemma dict_get_set_eq {V} (d : dict V) (k : string) (v : V) :
  dict_get (dict_set d k v) k = Some v.
Proof.
  induction d as [|[k' v'] d IH]; simpl.
  - by rewrite String.eqb_refl.
  - destruct (String.eqb k' k) eqn:Hk; simpl.
    + by rewrite String.eqb_refl.
    + by rewrite Hk.
Qed.

Lemma dict_get_set_ne {V} (d : dict V) (k k' : string) (v : V) :
  k ≠ k' → dict_get (dict_set d k v) k' = dict_get d k'.
Proof.
  intros Hne. induction d as [|[k0 v0] d IH]; simpl.
  - by rewrite (proj2 (String.eqb_neq k k') Hne).
  - destruct (String.eqb k0 k) eqn:Hk; simpl.
    + apply String.eqb_eq in Hk as ->.
      by rewrite (proj2 (String.eqb_neq k k') Hne).
    + by rewrite IH.
Qed.

Lemma dict_set_keys {V} (d : dict V) (k : string) (v : V) :
  map fst (dict_set d k v)
  = if bool_decide (k ∈ map fst d) then map fst d else map fst d ++ [k].
Proof.
  induction d as [|[k' v'] d IH]; simpl.
  - done.
  - destruct (String.eqb k' k) eqn:Hk; simpl.
    + apply String.eqb_eq in Hk as ->.
      by rewrite bool_decide_eq_true_2 by apply list_elem_of_here.
    + apply String.eqb_neq in Hk. rewrite IH.
      destruct (decide (k ∈ map fst d)) as [Hin|Hin].
      * rewrite !bool_decide_eq_true_2; [done | by apply list_elem_of_further | done].
      * rewrite !bool_decide_eq_false_2; [done | | done].
        by intros [->|?]%elem_of_cons.
Qed.

Lemma dict_set_NoDup {V} (d : dict V) (k : string) (v : V) :
  NoDup (map fst d) → NoDup (map fst (dict_set d k v)).
Proof.
  intros Hd. rewrite dict_set_keys. case_bool_decide as Hin; [done|].
  apply NoDup_app. split; [done|]. split; [|apply NoDup_singleton].
  by intros x Hx ->%list_elem_of_singleton.
Qed.

Lemma dict_get_elem_of {V} (d : dict V) (k : string) (v : V) :
  NoDup (map fst d) → dict_get d k = Some v ↔ (k, v) ∈ d.
Proof.
  induction d as [|[k' v'] d IH]; simpl; intros Hd.
  - split; [done | by inversion 1].
  - apply NoDup_cons in Hd as [Hk' Hd].
    destruct (String.eqb k' k) eqn:Hk.
    + apply String.eqb_eq in Hk as ->. split.
      * intros [= ->]. apply list_elem_of_here.
      * intros [[= ->] | Hin]%elem_of_cons; [done|].
        destruct Hk'. apply list_elem_of_fmap. by exists (k, v).
    + apply String.eqb_neq in Hk. rewrite (IH Hd). split.
      * by apply list_elem_of_further.
      * by intros [[= -> ->] | Hin]%elem_of_cons.
Qed.

(** X3. The assignment [d[k] = v] and the lookup on the dictionary: the
    key that was set is found with its new value, every other key is
    found as before; a key that was present keeps its place in the
    order of the items and a new key goes to the end, so that no key
    ever comes twice. *)
Theorem dict_set_get_spec {V} (d : dict V) (k : string) (v : V) :
  dict_get (dict_set d k v) k = Some v ∧
  (∀ k', k ≠ k' → dict_get (dict_set d k v) k' = dict_get d k') ∧
  (k ∈ map fst d → map fst (dict_set d k v) = map fst d) ∧
  (k ∉ map fst d → map fst (dict_set d k v) = map fst d ++ [k]) ∧
  (NoDup (map fst d) → NoDup (map fst (dict_set d k v))).
Proof.
  split; [apply dict_get_set_eq|]. split; [intros k'; apply dict_get_set_ne|].
  split; [|split; [|apply dict_set_NoDup]].
  - intros Hin. by rewrite dict_set_keys, bool_decide_eq_true_2.
  - intros Hin. by rewrite dict_set_keys, bool_decide_eq_false_2.
Qed.

(** A closed instance: setting the first of two keys keeps the order,
    setting a third key appends it. *)
Lemma dict_set_get_spec_witness :
  map fst (dict_set [("a", 1); ("b", 2)] "a" 3) = ["a"; "b"] ∧
  map fst (dict_set [("a", 1); ("b", 2)] "c" 3) = ["a"; "b"; "c"] ∧
  dict_get (dict_set [("a", 1); ("b", 2)] "a" 3) "b" = Some 2.
Proof.
  split; [|split].
  - apply (proj1 (proj2 (proj2 (dict_set_get_spec [("a", 1); ("b", 2)] "a" 3)))).
    apply list_elem_of_here.
  - apply (proj1 (proj2 (proj2 (proj2
             (dict_set_get_spec [("a", 1); ("b", 2)] "c" 3))))).
    intros Hin. by repeat (apply elem_of_cons in Hin as [? | Hin]; [done|]);
      inversion Hin.
  - apply (proj1 (proj2 (dict_set_get_spec [("a", 1); ("b", 2)] "a" 3)) "b").
    discriminate.
Defined.

(** ** When the template expander cannot fail *)

Lemma all_chars_drop (p : ascii → bool) (n : nat) (s : string) :
  all_chars p s = true → all_chars p (Py.drop n s) = true.
Proof.
  revert s. induction n as [|n IH]; intros [|c s]; simpl; try done.
  intros [_ Hs]%andb_prop. by apply IH.
Qed.

Lemma match_placeholder_no_percent (s nm rest : string) (fmt : option string) :
  all_chars not_percent s = true →
  match_placeholder s = Some (nm, fmt, rest) →
  fmt = None ∧ all_chars not_percent rest = true.
Proof.
  unfold match_placeholder. destruct s as [|c s1]; [done|].
  simpl. intros [_ Hs1]%andb_prop.
  destruct (Ascii.eqb c "$") eqn:Hc;
    [apply Ascii.eqb_eq in Hc as -> | by destruct c as [[] [] [] [] [] [] [] []]].
  set (named := if Py.startswith "Number" s1 then _ else _).
  assert (∀ word s2, named = Some (word, s2) → all_chars not_percent s2 = true)
    as Hnamed.
  { subst named. intros word s2.
    destruct (Py.startswith "Number" s1);
      [intros [= _ <-]; by apply (all_chars_drop _ 6)|].
    destruct (Py.startswith "Time" s1);
      [intros [= _ <-]; by apply (all_chars_drop _ 4)|done]. }
  destruct named as [[word s2]|]; [|done].
  specialize (Hnamed word s2 eq_refl).
  destruct s2 as [|d s3]; [done|]. simpl in Hnamed.
  apply andb_prop in Hnamed as [Hd Hs3].
  destruct (Ascii.eqb d "%") eqn:Hd1.
  { apply Ascii.eqb_eq in Hd1 as ->. done. }
  destruct (Ascii.eqb d "$") eqn:Hd2.
  - apply Ascii.eqb_eq in Hd2 as ->. by intros [= _ <- <-].
  - by destruct d as [[] [] [] [] [] [] [] []].
Qed.


Section TemplateTotal.
Context {lib : PythonLib}.

Lemma format_template_total (n : nat) (number time : option Z) (s : string) :
  (String.length s ≤ n)%nat →
  (number = None ∧ time = None) ∨
  (all_chars not_percent s = true ∧
   ∀ v, number = Some v ∨ time = Some v → ∃ text, Py.str_of_int v = Ok text) →
  ∃ out, _format_template s number time = Ok out.
Proof.
  revert s. induction n as [|n IH]; intros s Hlen Hcase.
  - destruct s; [by exists "" | simpl in Hlen; lia].
  - rewrite format_template_step.
    destruct (match_placeholder s) as [[[name fmt] rest]|] eqn:Hm.
    + pose proof (match_placeholder_shorter _ _ _ _ Hm) as Hshort.
      assert (∃ r, replace_func number time name fmt = Ok r) as [r ->].
      { unfold replace_func. destruct Hcase as [[-> ->] | [Hs Hstr]].
        - exists "". by destruct (String.eqb name "Number").
        - destruct (match_placeholder_no_percent _ _ _ _ Hs Hm) as [-> _].
          destruct (String.eqb name "Number").
          + destruct number as [v|]; [|by eexists]. apply Hstr. by left.
          + destruct time as [v|]; [|by eexists]. apply Hstr. by right. }
      destruct (IH rest) as [out ->]; [lia | | by eexists].
      destruct Hcase as [Hnone | [Hs Hstr]]; [by left | right].
      split; [|done].
      by destruct (match_placeholder_no_percent _ _ _ _ Hs Hm).
    + destruct s as [|c s]; [by exists ""|].
      destruct (IH s) as [out ->]; [simpl in Hlen; lia | | by eexists].
      destruct Hcase as [Hnone | [Hs Hstr]]; [by left | right].
      split; [|done].
      simpl in Hs. by apply andb_prop in Hs as [_ Hs].
Qed.



End TemplateTotal.

Section TemplateTotalRuns.
#[local] Existing Instance Sample.lib.


End TemplateTotalRuns.

(** ** What a representation does to the dictionary of tracks *)

Section RepresentationFacts.
Context {lib : PythonLib}.

Lemma timeline_loop_prefix (base_url rep_id media_template : string)
    (s_tags : list Element) (c c' : cursor) :
  timeline_loop base_url rep_id media_template s_tags c = Ok c' →
  ∃ new, cur_urls c' = cur_urls c ++ new.
Proof.
  revert c. induction s_tags as [|s_tag s_tags IH]; intros c; simpl.
  - intros [= <-]. exists []. by rewrite app_nil_r.
  - intros (c1 & Hstep & Hrest)%bind_Ok_inv.
    apply IH in Hrest as [new' Hnew'].
    assert (∃ new, cur_urls c1 = cur_urls c ++ new) as [new Hnew].
    { unfold s_tag_step in Hstep.
      destruct (_get_attrib s_tag "d") as [d_str|];
        [|inversion Hstep; subst; exists []; by rewrite app_nil_r].
      apply bind_Ok_inv in Hstep as (d & _ & Hstep).
      apply bind_Ok_inv in Hstep as (t & _ & Hstep).
      apply bind_Ok_inv in Hstep as (r & _ & Hstep).
      rewrite repeat_loop_spec in Hstep.
      apply bind_Ok_inv in Hstep as (urls & _ & [= <-]). by exists urls. }
    exists (new ++ new'). by rewrite Hnew', Hnew, app_assoc.
Qed.

Lemma record_track_effect (rep : Element) (content_type rep_id : string)
    (urls : list string) (tracks tracks' : dict Track) :
  record_track rep content_type rep_id urls tracks = Ok tracks' →
  (urls = [] ∧ tracks' = tracks) ∨
  (urls ≠ [] ∧ ∃ bandwidth,
     int_attrib rep "bandwidth" 0 = Ok bandwidth ∧
     tracks' = dict_set tracks (content_type +:+ "_" +:+ rep_id)
                 {| track_key := content_type +:+ "_" +:+ rep_id;
                    track_id := rep_id; track_type := content_type;
                    track_bandwidth := bandwidth; track_urls := urls |}).
Proof.
  unfold record_track. destruct urls as [|u urls]; simpl.
  - intros [= <-]. by left.
  - intros (bandwidth & Hb & [= <-])%bind_Ok_inv. right.
    split; [done|]. by exists bandwidth.
Qed.

Lemma enumerate_media_effect (root rep current_template : Element)
    (base_url content_type rep_id media_template : string)
    (urls : list string) (tracks tracks' : dict Track) :
  enumerate_media root rep current_template base_url content_type rep_id
    media_template urls tracks = Ok tracks' →
  tracks' = tracks ∨
  ∃ new bandwidth,
    urls ++ new ≠ [] ∧
    int_attrib rep "bandwidth" 0 = Ok bandwidth ∧
    tracks' = dict_set tracks (content_type +:+ "_" +:+ rep_id)
                {| track_key := content_type +:+ "_" +:+ rep_id;
                   track_id := rep_id; track_type := content_type;
                   track_bandwidth := bandwidth; track_urls := urls ++ new |}.
Proof.
  unfold enumerate_media.
  intros (start_number & _ & Hrest)%bind_Ok_inv.
  assert (∀ new, record_track rep content_type rep_id (urls ++ new) tracks
                 = Ok tracks' →
          tracks' = tracks ∨
          ∃ new bandwidth,
            urls ++ new ≠ [] ∧
            int_attrib rep "bandwidth" 0 = Ok bandwidth ∧
            tracks' = dict_set tracks (content_type +:+ "_" +:+ rep_id)
                        {| track_key := content_type +:+ "_" +:+ rep_id;
                           track_id := rep_id; track_type := content_type;
                           track_bandwidth := bandwidth;
                           track_urls := urls ++ new |}) as Hrecord.
  { intros new [[_ ->] | [Hne (bandwidth & Hb & ->)]]%record_track_effect;
      [by left | right]. by exists new, bandwidth. }
  destruct (find current_template "SegmentTimeline").
  - apply bind_Ok_inv in Hrest as (c & Hloop & Hrec).
    apply timeline_loop_prefix in Hloop as [new Hnew]. simpl in Hnew.
    rewrite Hnew in Hrec. by eapply Hrecord.
  - apply bind_Ok_inv in Hrest as (timescale & _ & Hrest).
    apply bind_Ok_inv in Hrest as (seg & _ & Hrest).
    destruct (_ && _); [|inversion Hrest; subst; by left].
    apply bind_Ok_inv in Hrest as (len & _ & Hrest).
    apply bind_Ok_inv in Hrest as (quotient & _ & Hrest).
    apply bind_Ok_inv in Hrest as (count & _ & Hrest).
    apply bind_Ok_inv in Hrest as (media & _ & Hrec).
    by eapply Hrecord.
Qed.

Lemma parse_representation_effect (root : Element) (base_url content_type : string)
    (segment_template : option Element) (tracks tracks' : dict Track)
    (rep : Element) :
  parse_representation root base_url content_type segment_template tracks rep
    = Ok tracks' →
  tracks' = tracks ∨
  ∃ rep_id current_template t,
    _get_attrib rep "id" = Some rep_id ∧
    match find rep "SegmentTemplate" with
    | Some rep_segment_template => Some rep_segment_template
    | None => segment_template
    end = Some current_template ∧
    tracks' = dict_set tracks (content_type +:+ "_" +:+ rep_id) t ∧
    track_key t = content_type +:+ "_" +:+ rep_id ∧
    track_id t = rep_id ∧ track_type t = content_type ∧
    int_attrib rep "bandwidth" 0 = Ok (track_bandwidth t) ∧
    track_urls t ≠ [] ∧
    ∀ init_template,
      _get_attrib current_template "initialization" = Some init_template →
      Py.is_empty init_template = false →
      ∃ init_url media,
        track_urls t = init_url :: media ∧
        segment_url base_url rep_id init_template None None = Ok init_url.
Proof.
  unfold parse_representation.
  destruct (_get_attrib rep "id") as [rep_id|]; [|intros [= <-]; by left].
  destruct (Py.is_empty rep_id); [intros [= <-]; by left|].
  destruct (match find rep "SegmentTemplate" with
            | Some t => Some t
            | None => segment_template
            end) as [current_template|]; [|intros [= <-]; by left].
  intros (urls & Hurls & Hrest)%bind_Ok_inv.
  destruct (_get_attrib current_template "media") as [media_template|];
    [|inversion Hrest; subst; by left].
  destruct (Py.is_empty media_template); [inversion Hrest; subst; by left|].
  apply enumerate_media_effect in Hrest
    as [-> | (new & bandwidth & Hne & Hb & ->)]; [by left | right].
  eexists rep_id, current_template, _.
  do 3 (split; [done|]). simpl. do 4 (split; [done|]). split; [done|].
  intros init_template Hinit Hnonempty. rewrite Hinit, Hnonempty in Hurls.
  apply bind_Ok_inv in Hurls as (init_url & Hinit_url & [= <-]).
  by exists init_url, new.
Qed.

(** X5. A representation that is processed without an exception either
    leaves the dictionary of tracks as it was, or sets the one key made
    of the content type, an underscore and its id. The track stored there
    carries that key, the id, the content type and the declared
    bandwidth, and its list of URLs is not empty; when the template in
    force (the representation's own, else that of the adaptation set)
    declares an initialization pattern, the first URL is the expansion of
    that pattern without number and time. Every other key is found as
    before. *)
Theorem parse_representation_spec (root : Element) (base_url content_type : string)
    (segment_template : option Element) (tracks tracks' : dict Track)
    (rep : Element) :
  parse_representation root base_url content_type segment_template tracks rep
    = Ok tracks' →
  (tracks' = tracks ∨
   ∃ rep_id current_template t,
     _get_attrib rep "id" = Some rep_id ∧
     match find rep "SegmentTemplate" with
     | Some rep_segment_template => Some rep_segment_template
     | None => segment_template
     end = Some current_template ∧
     tracks' = dict_set tracks (content_type +:+ "_" +:+ rep_id) t ∧
     track_key t = content_type +:+ "_" +:+ rep_id ∧
     track_id t = rep_id ∧ track_type t = content_type ∧
     int_attrib rep "bandwidth" 0 = Ok (track_bandwidth t) ∧
     track_urls t ≠ [] ∧
     ∀ init_template,
       _get_attrib current_template "initialization" = Some init_template →
       Py.is_empty init_template = false →
       ∃ init_url media,
         track_urls t = init_url :: media ∧
         segment_url base_url rep_id init_template None None = Ok init_url) ∧
  (∀ k, (∀ rep_id, _get_attrib rep "id" = Some rep_id →
                   k ≠ content_type +:+ "_" +:+ rep_id) →
        dict_get tracks' k = dict_get tracks k).
Proof.
  intros Hparse. pose proof (parse_representation_effect _ _ _ _ _ _ _ Hparse) as Heff.
  split; [exact Heff|].
  intros k Hk. destruct Heff as [-> | (rep_id & ? & t & Hid & _ & -> & _)]; [done|].
  apply dict_get_set_ne. intros <-. by apply (Hk rep_id).
Qed.

(** X6. A representation is passed over without an exception, and the
    dictionary of tracks is left as it was, when it has no id or an empty
    one, and when neither it nor its adaptation set has a segment
    template. When the template in force has no media pattern or an empty
    one, the representation is passed over in the same way unless the
    template declares an initialization pattern whose URL cannot be
    joined to the base URL: the pattern is expanded and joined before the
    media pattern is looked at, the expansion never raises, and an
    exception of [urljoin] leaves the loop. *)
Theorem parse_representation_skips (root : Element) (base_url content_type : string)
    (segment_template : option Element) (tracks : dict Track) (rep : Element) :
  (_get_attrib rep "id" = None ∨ _get_attrib rep "id" = Some "" →
   parse_representation root base_url content_type segment_template tracks rep
   = Ok tracks) ∧
  (find rep "SegmentTemplate" = None → segment_template = None →
   parse_representation root base_url content_type segment_template tracks rep
   = Ok tracks) ∧
  (∀ current_template,
     match find rep "SegmentTemplate" with
     | Some rep_segment_template => Some rep_segment_template
     | None => segment_template
     end = Some current_template →
     _get_attrib current_template "media" = None ∨
     _get_attrib current_template "media" = Some "" →
     parse_representation root base_url content_type segment_template tracks rep
     = Ok tracks ∨
     ∃ rep_id init_template path e,
       _get_attrib rep "id" = Some rep_id ∧
       _get_attrib current_template "initialization" = Some init_template ∧
       _format_template init_template None None = Ok path ∧
       urljoin base_url (Py.replace "$RepresentationID$" rep_id path) = Raise e ∧
       parse_representation root base_url content_type segment_template tracks rep
       = Raise e).
Proof.
  split; [|split].
  - unfold parse_representation. by intros [-> | ->].
  - unfold parse_representation. intros -> ->.
    destruct (_get_attrib rep "id") as [rep_id|]; [|done].
    by destruct (Py.is_empty rep_id).
  - intros current_template Htemplate Hmedia. unfold parse_representation.
    destruct (_get_attrib rep "id") as [rep_id|]; [|by left].
    destruct (Py.is_empty rep_id); [by left|]. rewrite Htemplate.
    destruct (_get_attrib current_template "initialization") as [init|];
      [|left; simpl; by destruct Hmedia as [-> | ->]].
    destruct (Py.is_empty init); [left; simpl; by destruct Hmedia as [-> | ->]|].
    unfold segment_url.
    destruct (format_template_total (String.length init) None None init)
      as [path Hpath]; [done | by left |].
    rewrite Hpath. simpl.
    destruct (urljoin base_url (Py.replace "$RepresentationID$" rep_id path))
      as [init_url|e] eqn:Hjoin; simpl.
    + left. by destruct Hmedia as [-> | ->].
    + right. by exists rep_id, init, path, e.
Qed.

End RepresentationFacts.

Section RepresentationRuns.
#[local] Existing Instance Sample.lib.

(** A closed instance: the video representation of the first example
    manifest is stored under [video_v0] with the initialization URL first
    and five media URLs behind it. *)
Lemma parse_representation_spec_witness :
  parse_representation Sample.manifest_vod "http://host/path/" "video" None []
    (Elem (mpd "Representation") [("id", "v0"); ("bandwidth", "500000")]
       [Sample.template_vod]) = Ok [("video_v0", Sample.track_vod)] ∧
  dict_get [("video_v0", Sample.track_vod)] "audio_a0" = None.
Proof.
  split; [(vm_compute; reflexivity)|].
  refine (proj2 (parse_representation_spec Sample.manifest_vod "http://host/path/"
                   "video" None [] [("video_v0", Sample.track_vod)]
                   (Elem (mpd "Representation")
                      [("id", "v0"); ("bandwidth", "500000")]
                      [Sample.template_vod])
                   _) "audio_a0" _).
  - (vm_compute; reflexivity).
  - intros rep_id [= <-]. discriminate.
Defined.

(** A closed instance: a representation without an id, one without any
    template, one whose template has an initialization pattern with a
    bad format specification and no media pattern, and one whose
    initialization URL [urljoin] refuses. *)
Lemma parse_representation_skips_witness :
  parse_representation Sample.manifest_vod "http://host/path/" "video" None []
    (Elem (mpd "Representation") [("bandwidth", "1")] [Sample.template_vod])
  = Ok [] ∧
  parse_representation Sample.manifest_vod "http://host/path/" "video" None []
    (Elem (mpd "Representation") [("id", "v0")] []) = Ok [] ∧
  parse_representation Sample.manifest_vod "http://host/path/" "video" None []
    (Elem (mpd "Representation") [("id", "v0")]
       [Elem (mpd "SegmentTemplate") [("initialization", "i-$Number%zz$.mp4")] []])
  = Ok [] ∧
  parse_representation Sample.manifest_vod "http://host/path/" "video" None []
    (Elem (mpd "Representation") [("id", "v0")]
       [Elem (mpd "SegmentTemplate") [("initialization", "//[x")] []])
  = Raise ValueError.
Proof.
  split; [|split; [|split]].
  - apply (proj1 (parse_representation_skips _ _ _ _ _ _)). by left.
  - by apply (proj1 (proj2 (parse_representation_skips _ _ _ _ _ _))).
  - destruct (proj2 (proj2 (parse_representation_skips Sample.manifest_vod
                              "http://host/path/" "video" None []
                              (Elem (mpd "Representation") [("id", "v0")]
                                 [Elem (mpd "SegmentTemplate")
                                    [("initialization", "i-$Number%zz$.mp4")] []])))
                (Elem (mpd "SegmentTemplate")
                   [("initialization", "i-$Number%zz$.mp4")] []))
      as [Hskip | (rep_id & init & path & e & _ & _ & _ & _ & Hraise)];
      [vm_compute; reflexivity | by left | exact Hskip | discriminate Hraise].
  - destruct (proj2 (proj2 (parse_representation_skips Sample.manifest_vod
                              "http://host/path/" "video" None []
                              (Elem (mpd "Representation") [("id", "v0")]
                                 [Elem (mpd "SegmentTemplate")
                                    [("initialization", "//[x")] []])))
                (Elem (mpd "SegmentTemplate") [("initialization", "//[x")] []))
      as [Hskip | (rep_id & init & path & e & _ & _ & _ & _ & Hraise)];
      [vm_compute; reflexivity | by left | discriminate Hskip|].
    rewrite Hraise. vm_compute in Hraise. by injection Hraise as <-.
Defined.

End RepresentationRuns.

(** ** What a successful parse tells *)

Section ParseResult.
Context {lib : PythonLib}.

Lemma parse_mpd_body_keys (fetched : result Response)
    (tracks : dict Track) (mpd_type : string) :
  parse_mpd_body fetched = Ok (Some (tracks, mpd_type)) →
  NoDup (map fst tracks).
Proof.
  unfold parse_mpd_body.
  intros (response & _ & Hrest)%bind_Ok_inv.
  apply bind_Ok_inv in Hrest as (root & _ & Hrest).
  destruct (find root "Period") as [period|]; [|done].
  apply bind_Ok_inv in Hrest as (tracks0 & Hloop & [= <- _]).
  revert Hloop.
  apply (for_each_invariant (λ s : dict Track, NoDup (map fst s))); [|constructor].
  intros s adaptation_set s' Hs. unfold parse_adaptation_set.
  apply (for_each_invariant (λ s : dict Track, NoDup (map fst s))); [|done].
  intros s1 rep s1' Hs1 Hrep.
  apply parse_representation_effect in Hrep as [-> | (? & ? & t & _ & _ & -> & _)];
    [done | by apply dict_set_NoDup].
Qed.

Lemma parse_mpd_inversion (fetched : result Response)
    (tracks : dict Track) (mpd_type : string) :
  parse_mpd fetched = Some (tracks, mpd_type) →
  parse_mpd_body fetched = Ok (Some (tracks, mpd_type)).
Proof.
  unfold parse_mpd. destruct (parse_mpd_body fetched) as [[r|]|e]; try done.
  - by intros ->.
  - by destruct e.
Qed.

(** X7. When [parse_mpd] returns tracks, the manifest was fetched, the
    document was parsed and has a [Period], and the mode returned is the
    attribute [type] of the root, [static] when there is none. The tracks
    form a dictionary: no key comes twice, so a lookup by key finds
    exactly the tracks that are in it. *)
Theorem parse_mpd_result (fetched : result Response)
    (tracks : dict Track) (mpd_type : string) :
  parse_mpd fetched = Some (tracks, mpd_type) →
  NoDup (map fst tracks) ∧
  (∀ k t, dict_get tracks k = Some t ↔ (k, t) ∈ tracks) ∧
  ∃ response root period,
    fetched = Ok response ∧ resp_xml response = Ok root ∧
    find root "Period" = Some period ∧
    mpd_type = default "static" (_get_attrib root "type").
Proof.
  intros Hbody%parse_mpd_inversion.
  pose proof (parse_mpd_body_keys _ _ _ Hbody) as Hkeys.
  split; [done|]. split; [intros k t; by apply dict_get_elem_of|].
  unfold parse_mpd_body in Hbody.
  apply bind_Ok_inv in Hbody as (response & -> & Hrest).
  apply bind_Ok_inv in Hrest as (root & Hroot & Hrest).
  destruct (find root "Period") as [period|] eqn:Hperiod; [|done].
  apply bind_Ok_inv in Hrest as (tracks0 & _ & [= _ <-]).
  by exists response, root, period.
Qed.

End ParseResult.

Section ParseResultRuns.
#[local] Existing Instance Sample.lib.

(** A closed instance: the live sample manifest. *)
Lemma parse_mpd_result_witness :
  ∃ tracks, parse_mpd (Ok (Sample.response_live Sample.s_tags))
            = Some (tracks, "dynamic") ∧
            NoDup (map fst tracks) ∧ map fst tracks = ["video_v0"].
Proof.
  eexists. split; [(vm_compute; reflexivity)|]. split; [|(vm_compute; reflexivity)].
  refine (proj1 (parse_mpd_result (Ok (Sample.response_live Sample.s_tags))
                   _ "dynamic" _)).
  (vm_compute; reflexivity).
Defined.

End ParseResultRuns.

(** ** Ties between tracks and the answers of [stream] *)

Lemma foldl_first_max {A} (key : A → Z) (xs : list A) (best : A) :
  let b := foldl (λ best y, if key best <? key y then y else best) best xs in
  ∃ l1 l2, best :: xs = l1 ++ b :: l2 ∧
           Forall (λ x, key x < key b) l1 ∧ Forall (λ x, key x ≤ key b) l2.
Proof.
  revert best. induction xs as [|x xs IH]; intros best; simpl.
  - exists [], []. by repeat split.
  - specialize (IH (if key best <? key x then x else best)). simpl in IH.
    remember (foldl (λ best y, if key best <? key y then y else best)
                (if key best <? key x then x else best) xs) as b eqn:Hb.
    clear Hb. destruct IH as (l1 & l2 & Hsplit & Hl1 & Hl2).
    destruct (key best <? key x) eqn:Hlt.
    + apply Z.ltb_lt in Hlt. exists (best :: l1), l2.
      split; [by rewrite Hsplit|]. split; [|done].
      apply Forall_cons_2; [|done].
      destruct l1 as [|y l1]; inversion Hsplit; subst; [done|].
      apply Forall_cons in Hl1 as [Hy _]. lia.
    + apply Z.ltb_ge in Hlt.
      destruct l1 as [|y l1]; inversion Hsplit; subst.
      * exists [], (x :: l2). split; [done|]. split; [done|].
        by apply Forall_cons_2.
      * exists (y :: x :: l1), l2. split; [done|]. split; [|done].
        apply Forall_cons in Hl1 as [Hy Hl1].
        apply Forall_cons_2; [done|]. apply Forall_cons_2; [lia | done].
Qed.

(** X8. Among the tracks that match the kind and have URLs, taken in
    the order of the dictionary, the selector returns the first of those
    with the greatest bandwidth: every one before it has a smaller
    bandwidth, and none behind it has a greater one. *)
Theorem select_track_first_max (stream_type : string) (tracks : dict Track)
    (best : Track) :
  select_track stream_type tracks = inl best →
  ∃ before behind,
    map snd (List.filter has_urls (List.filter (kind_matches stream_type) tracks))
    = before ++ best :: behind ∧
    Forall (λ t, track_bandwidth t < track_bandwidth best) before ∧
    Forall (λ t, track_bandwidth t ≤ track_bandwidth best) behind.
Proof.
  intros Hbest%select_track_inl.
  destruct (map snd _) as [|x xs]; [done|].
  simpl in Hbest. inversion Hbest as [Hb].
  destruct (foldl_first_max track_bandwidth xs x) as (l1 & l2 & Hsplit & Hl1 & Hl2).
  exists l1, l2. by rewrite Hb in *.
Qed.

(** A closed instance: two video tracks of the same bandwidth; the one
    stored first is chosen. *)
Lemma select_track_first_max_witness :
  ∃ before behind,
    map snd (List.filter has_urls (List.filter (kind_matches "video")
      [("video_a", {| track_key := "video_a"; track_id := "a"; track_type := "video";
                      track_bandwidth := 500; track_urls := ["u1"] |});
       ("video_b", {| track_key := "video_b"; track_id := "b"; track_type := "video";
                      track_bandwidth := 500; track_urls := ["u2"] |})]))
    = before ++ {| track_key := "video_a"; track_id := "a"; track_type := "video";
                   track_bandwidth := 500; track_urls := ["u1"] |} :: behind ∧
    before = [] ∧ length behind = 1%nat.
Proof.
  destruct (select_track_first_max "video"
              [("video_a", {| track_key := "video_a"; track_id := "a";
                              track_type := "video"; track_bandwidth := 500;
                              track_urls := ["u1"] |});
               ("video_b", {| track_key := "video_b"; track_id := "b";
                              track_type := "video"; track_bandwidth := 500;
                              track_urls := ["u2"] |})]
              {| track_key := "video_a"; track_id := "a"; track_type := "video";
                 track_bandwidth := 500; track_urls := ["u1"] |} eq_refl)
    as (before & behind & Hsplit & Hbefore & _).
  exists before, behind. split; [exact Hsplit|].
  destruct before as [|t before].
  - split; [done|]. by inversion Hsplit.
  - exfalso. inversion Hsplit; subst. apply Forall_cons in Hbefore as [Hlt _].
    simpl in Hlt. lia.
Defined.

Lemma select_track_inr (stream_type : string) (tracks : dict Track) (status : Z) :
  select_track stream_type tracks = inr status → status = 404 ∨ status = 500.
Proof.
  unfold select_track.
  destruct (List.filter (kind_matches stream_type) tracks) as [|x target];
    [intros [= <-]; by left|].
  destruct (List.filter has_urls (x :: target)) as [|y valid];
    [intros [= <-]; by right|].
  destruct (max_by _ _); [done | intros [= <-]; by right].
Qed.

Section StreamAnswers.
Context {lib : PythonLib}.

(** X9. The handler aborts with 404 or 500 and nothing else. When it
    streams, the kind is [video] or [audio] and the content type is
    [video/mp4] or [audio/mp4] accordingly, the mode passed on is the one
    the parse returned, and the track streamed is one of the parsed
    tracks, stored under its own key, with at least one URL. *)
Theorem stream_answers (stream_type : string) (fetched : result Response) :
  (∀ status, stream stream_type fetched = Abort status →
     status = 404 ∨ status = 500) ∧
  (∀ best_track mpd_type mimetype,
     stream stream_type fetched = Streaming best_track mpd_type mimetype →
     (stream_type = "video" ∧ mimetype = "video/mp4" ∨
      stream_type = "audio" ∧ mimetype = "audio/mp4") ∧
     ∃ tracks,
       parse_mpd fetched = Some (tracks, mpd_type) ∧
       (track_key best_track, best_track) ∈ tracks ∧
       track_urls best_track ≠ []).
Proof.
  unfold stream.
  destruct (String.eqb stream_type "video") eqn:Hv;
    [apply String.eqb_eq in Hv|];
    (destruct (String.eqb stream_type "audio") eqn:Ha;
       [apply String.eqb_eq in Ha|]); simpl;
    try (split; [intros status [= <-]; by left | done]).
  all: destruct (parse_mpd fetched) as [[[|item tracks] mode]|] eqn:Hparse;
    try (split; [intros status [= <-]; by right | done]).
  all: destruct (select_track stream_type (item :: tracks)) as [best|status0] eqn:Hsel;
    [|split; [intros status [= <-]; by eapply select_track_inr | done]].
  all: split; [done|]; intros best_track mpd_type mimetype [= <- <- <-].
  all: apply select_track_inl, max_by_spec in Hsel as [Hin _];
    apply elem_of_valid_tracks in Hin as (k & Hin & _ & Hurls);
    pose proof (parse_mpd_ok _ _ _ Hparse) as Hok;
    pose proof (proj1 (Forall_forall _ _) Hok (k, best) Hin) as (Hk & _);
    simpl in Hk; subst k.
  all: split; [auto | by exists (item :: tracks)].
Qed.

End StreamAnswers.

Section StreamAnswersRuns.
#[local] Existing Instance Sample.lib.

(** A closed instance: the first sample manifest asked for video. *)
Lemma stream_answers_witness :
  stream "video" (Ok Sample.response_vod)
  = Streaming Sample.track_vod "static" "video/mp4" ∧
  ∃ tracks, parse_mpd (Ok Sample.response_vod) = Some (tracks, "static") ∧
            (track_key Sample.track_vod, Sample.track_vod) ∈ tracks.
Proof.
  assert (stream "video" (Ok Sample.response_vod)
          = Streaming Sample.track_vod "static" "video/mp4") as Hrun
    by (vm_compute; reflexivity).
  split; [exact Hrun|].
  destruct (proj2 (stream_answers "video" (Ok Sample.response_vod))
              Sample.track_vod "static" "video/mp4" Hrun)
    as (_ & tracks & Hparse & Hin & _).
  by exists tracks.
Defined.

End StreamAnswersRuns.

(** ** The detection of protected content *)

Lemma drm_scan_step (adaptation_set : Element) (rest : list Element) :
  drm_scan (adaptation_set :: rest) =
  match protection_of adaptation_set with
  | Some name => (true, Some name)
  | None => drm_scan rest
  end.
Proof.
  unfold protection_of. simpl.
  by destruct (find adaptation_set "ContentProtection") as [protection|].
Qed.

Lemma drm_scan_clear (adaptation_sets : list Element) :
  drm_scan adaptation_sets = (false, None) ↔
  Forall (λ a, protection_of a = None) adaptation_sets.
Proof.
  induction adaptation_sets as [|a rest IH]; [by split|].
  rewrite drm_scan_step, Forall_cons.
  destruct (protection_of a) as [name|]; [by split; [|intros [? _]] | tauto].
Qed.

Lemma drm_scan_found (adaptation_sets : list Element) (name : string) :
  drm_scan adaptation_sets = (true, Some name) ↔
  ∃ before a behind,
    adaptation_sets = before ++ a :: behind ∧
    Forall (λ a', protection_of a' = None) before ∧
    protection_of a = Some name.
Proof.
  induction adaptation_sets as [|a rest IH].
  { split; [done | by intros ([|??] & ? & ? & ? & _)]. }
  rewrite drm_scan_step. destruct (protection_of a) as [name'|] eqn:Ha.
  - split.
    + intros [= ->]. by exists [], a, rest.
    + intros ([|a' before] & a0 & behind & [= <- ->] & Hbefore & Hname);
        [congruence|].
      apply Forall_cons in Hbefore as [Hnone _]. congruence.
  - rewrite IH. split.
    + intros (before & a0 & behind & -> & Hbefore & Hname).
      exists (a :: before), a0, behind. split; [done|].
      split; [by apply Forall_cons_2 | done].
    + intros ([|a' before] & a0 & behind & [= <- ->] & Hbefore & Hname);
        [congruence|].
      apply Forall_cons in Hbefore as [_ Hbefore]. by exists before, a0, behind.
Qed.

Lemma drm_scheme_names (scheme name : string) :
  drm_scheme scheme = Some name → name ∈ drm_names.
Proof.
  unfold drm_scheme, drm_names.
  repeat (case_match; [intros [= <-]; set_solver|]). done.
Qed.

Lemma protection_of_names (a : Element) (name : string) :
  protection_of a = Some name → name ∈ drm_names.
Proof.
  unfold protection_of. destruct (find a "ContentProtection"); [|done].
  apply drm_scheme_names.
Qed.

Lemma findall_children (e : Element) (name : string) :
  children e = [] → findall e name = [].
Proof. unfold findall. by intros ->. Qed.

(** The test [if period:] changes nothing: a period without children has
    no adaptation sets to scan. *)
Lemma check_drm_protection_scan (fetched : result Response) :
  check_drm_protection fetched =
  match fetched with
  | Ok response =>
      match resp_xml response with
      | Ok root =>
          match find root "Period" with
          | Some period => drm_scan (findall period "AdaptationSet")
          | None => (false, None)
          end
      | Raise _ => (false, None)
      end
  | Raise _ => (false, None)
  end.
Proof.
  unfold check_drm_protection. destruct fetched as [response|]; [|done].
  destruct (resp_xml response) as [root|]; [|done].
  destruct (find root "Period") as [period|]; [|done].
  destruct (children period) eqn:Hchildren; [|done].
  by rewrite findall_children.
Qed.

(** X10. [check_drm_protection] reports protection with a name exactly
    when the manifest was fetched and parsed, has a [Period], and among
    the adaptation sets of that period, in document order, there is one
    whose first [ContentProtection] child names a known scheme while no
    set before it does; the name reported is the one of that set. Only
    children of the adaptation set are looked at, and of those only the
    first [ContentProtection]. *)
Theorem check_drm_protection_detects (fetched : result Response) (name : string) :
  check_drm_protection fetched = (true, Some name) ↔
  ∃ response root period before a behind,
    fetched = Ok response ∧ resp_xml response = Ok root ∧
    find root "Period" = Some period ∧
    findall period "AdaptationSet" = before ++ a :: behind ∧
    Forall (λ a', protection_of a' = None) before ∧
    protection_of a = Some name.
Proof.
  rewrite check_drm_protection_scan. split.
  - destruct fetched as [response|]; [|done].
    destruct (resp_xml response) as [root|] eqn:Hroot; [|done].
    destruct (find root "Period") as [period|] eqn:Hperiod; [|done].
    intros (before & a & behind & Hsets & Hbefore & Hname)%drm_scan_found.
    by exists response, root, period, before, a, behind.
  - intros (response & root & period & before & a & behind
            & -> & -> & -> & Hsets & Hbefore & Hname).
    apply drm_scan_found. by exists before, a, behind.
Qed.

(** X11. [check_drm_protection] always returns: either [(False, None)]
    or [True] with one of the three names. It returns [(False, None)]
    exactly when the fetch failed, the document did not parse, it has no
    [Period], or no adaptation set of the period names a known scheme
    in its first [ContentProtection] child. *)
Theorem check_drm_protection_clear (fetched : result Response) :
  (check_drm_protection fetched = (false, None) ∨
   ∃ name, name ∈ drm_names ∧ check_drm_protection fetched = (true, Some name)) ∧
  (check_drm_protection fetched = (false, None) ↔
   ∀ response root period,
     fetched = Ok response → resp_xml response = Ok root →
     find root "Period" = Some period →
     Forall (λ a, protection_of a = None) (findall period "AdaptationSet")).
Proof.
  rewrite check_drm_protection_scan.
  destruct fetched as [response|]; [|split; [by left | by split]].
  destruct (resp_xml response) as [root|] eqn:Hroot.
  2: { split; [by left|]. split; [|done].
       intros _ ? ? ? [= <-] Hroot'. congruence. }
  destruct (find root "Period") as [period|] eqn:Hperiod.
  2: { split; [by left|]. split; [|done].
       intros _ ? ? ? [= <-] Hroot' Hperiod'. congruence. }
  split.
  - induction (findall period "AdaptationSet") as [|a rest IH]; [by left|].
    rewrite drm_scan_step. destruct (protection_of a) as [name|] eqn:Ha; [|done].
    right. exists name. split; [by eapply protection_of_names | done].
  - rewrite drm_scan_clear. split.
    + intros Hclear ? ? ? [= <-] Hroot' Hperiod'.
      rewrite Hroot in Hroot'. injection Hroot' as <-.
      rewrite Hperiod in Hperiod'. by injection Hperiod' as <-.
    + intros Hclear. by apply (Hclear response root period).
Qed.

(** The sample: the video set is passed over, since its first
    [ContentProtection] is the common encryption scheme under its
    MPEG name; the audio set then gives PlayReady. *)
Example check_drm_protection_sample :
  check_drm_protection (Ok Sample.response_protected) = (true, Some "PlayReady") ∧
  check_drm_protection (Ok Sample.response_vod) = (false, None) ∧
  check_drm_protection (Raise RequestException) = (false, None).
Proof. by repeat split. Qed.

(** A closed instance: in the sample, one adaptation set is passed over
    before the one that is reported. *)
Lemma check_drm_protection_detects_witness :
  ∃ response root period before a behind,
    Ok Sample.response_protected = Ok response ∧ resp_xml response = Ok root ∧
    find root "Period" = Some period ∧
    findall period "AdaptationSet" = before ++ a :: behind ∧
    Forall (λ a', protection_of a' = None) before ∧
    protection_of a = Some "PlayReady".
Proof.
  apply (proj1 (check_drm_protection_detects (Ok Sample.response_protected)
                  "PlayReady")).
  (vm_compute; reflexivity).
Defined.

(** ** Letter case in scheme names *)

Lemma upper_lower_char (c : ascii) :
  Py.upper_char (Py.lower_char c) = Py.upper_char c.
Proof. destruct c as [[] [] [] [] [] [] [] []]; reflexivity. Qed.

Lemma upper_lower (s : string) : Py.upper (Py.lower s) = Py.upper s.
Proof.
  unfold Py.upper. induction s as [|c s IH]; [done|].
  cbn [Py.lower list_ascii_of_string flat_map].
  by rewrite upper_lower_char, IH.
Qed.

(** X12. The scheme test does not depend on letter case: two values of
    [schemeIdUri] that agree once put in lower case get the same
    answer. *)
Theorem drm_scheme_case (scheme scheme' : string) :
  Py.lower scheme = Py.lower scheme' →
  drm_scheme scheme = drm_scheme scheme'.
Proof.
  intros Hlower. unfold drm_scheme.
  by rewrite <- (upper_lower scheme), <- (upper_lower scheme'), Hlower.
Qed.

(** A closed instance: the Widevine identifier in capitals and in small
    letters. *)
Lemma drm_scheme_case_witness :
  drm_scheme "urn:uuid:EDEF8BA9-79D6-4ACE-A3C8-27DCD51D21ED" = Some "Widevine" ∧
  drm_scheme "urn:uuid:EDEF8BA9-79D6-4ACE-A3C8-27DCD51D21ED"
  = drm_scheme "URN:UUID:edef8ba9-79d6-4ace-a3c8-27dcd51d21ed".
Proof.
  split; [(vm_compute; reflexivity)|].
  apply (drm_scheme_case "urn:uuid:EDEF8BA9-79D6-4ACE-A3C8-27DCD51D21ED"
           "URN:UUID:edef8ba9-79d6-4ace-a3c8-27dcd51d21ed").
  (vm_compute; reflexivity).
Defined.

(** ** The [debug] handler *)

Lemma drm_scan_shape (adaptation_sets : list Element) :
  drm_scan adaptation_sets = (false, None) ∨
  ∃ name, drm_scan adaptation_sets = (true, Some name).
Proof.
  induction adaptation_sets as [|a rest IH]; [by left|].
  rewrite drm_scan_step. destruct (protection_of a) as [name|]; [|done].
  right. by exists name.
Qed.

Lemma check_drm_protection_shape (fetched : result Response) :
  check_drm_protection fetched = (false, None) ∨
  ∃ name, check_drm_protection fetched = (true, Some name).
Proof.
  rewrite check_drm_protection_scan.
  destruct fetched as [response|]; [|by left].
  destruct (resp_xml response) as [root|]; [|by left].
  destruct (find root "Period") as [period|]; [|by left].
  apply drm_scan_shape.
Qed.

Lemma dict_get_summarise (tracks : dict Track) (k : string) :
  dict_get (map summarise tracks) k
  = (λ t, (summarise (k, t)).2) <$> dict_get tracks k.
Proof.
  induction tracks as [|[k' t] tracks IH]; [done|]. simpl.
  by destruct (String.eqb k' k).
Qed.

Lemma map_fst_summarise (tracks : dict Track) :
  map fst (map summarise tracks) = map fst tracks.
Proof. induction tracks as [|[k t] tracks IH]; [done|]. simpl. by rewrite IH. Qed.

(** *** The order of [str] keys and the sorting of members *)

Lemma string_compare_trans (a b c : string) :
  String.compare a b ≠ Gt → String.compare b c ≠ Gt → String.compare a c ≠ Gt.
Proof.
  revert b c. induction a as [|x a IH]; intros [|y b] [|z c]; simpl; try done.
  unfold Ascii.compare.
  destruct (N.compare_spec (N_of_ascii x) (N_of_ascii y)) as [Hxy | Hxy | Hxy];
    destruct (N.compare_spec (N_of_ascii y) (N_of_ascii z)) as [Hyz | Hyz | Hyz];
    destruct (N.compare_spec (N_of_ascii x) (N_of_ascii z)) as [Hxz | Hxz | Hxz];
    try done; try lia.
  apply IH.
Qed.

Lemma string_leb_trans (a b c : string) :
  String.leb a b = true → String.leb b c = true → String.leb a c = true.
Proof.
  unfold String.leb. intros Hab Hbc.
  pose proof (string_compare_trans a b c) as Htrans.
  destruct (String.compare a b), (String.compare b c), (String.compare a c);
    try done; by destruct Htrans.
Qed.

Lemma insert_by_key_perm {V} (item : string * V) (items : dict V) :
  insert_by_key item items ≡ₚ item :: items.
Proof.
  induction items as [|other rest IH]; simpl; [done|].
  destruct (String.leb item.1 other.1); [done|].
  rewrite IH. apply Permutation_swap.
Qed.

Lemma sort_keys_perm {V} (items : dict V) : sort_keys items ≡ₚ items.
Proof.
  induction items as [|item items IH]; [done|]. unfold sort_keys. simpl.
  rewrite insert_by_key_perm. by apply Permutation_skip.
Qed.

Lemma insert_by_key_sorted {V} (item : string * V) (items : dict V) :
  StronglySorted (λ a b, String.leb a.1 b.1 = true) items →
  StronglySorted (λ a b, String.leb a.1 b.1 = true) (insert_by_key item items).
Proof.
  induction 1 as [|other rest Hrest IH Hother]; simpl.
  { by repeat constructor. }
  destruct (String.leb item.1 other.1) eqn:Hle.
  - constructor; [by constructor|]. apply Forall_cons_2; [done|].
    eapply Forall_impl; [exact Hother|]. intros x Hx. simpl in Hx.
    by eapply string_leb_trans.
  - constructor; [done|]. rewrite insert_by_key_perm.
    apply Forall_cons_2; [|done].
    destruct (String.leb_total item.1 other.1); [congruence | done].
Qed.

Lemma sort_keys_sorted {V} (items : dict V) :
  StronglySorted (λ a b, String.leb a.1 b.1 = true) (sort_keys items).
Proof.
  induction items as [|item items IH]; [constructor|].
  by apply insert_by_key_sorted.
Qed.

Lemma dict_get_perm {V} (d d' : dict V) (k : string) :
  NoDup (map fst d) → d ≡ₚ d' → dict_get d k = dict_get d' k.
Proof.
  intros Hd Hperm.
  assert (NoDup (map fst d')) as Hd' by (by rewrite <- Hperm).
  apply option_eq. intros v.
  by rewrite (dict_get_elem_of d k v Hd), (dict_get_elem_of d' k v Hd'), Hperm.
Qed.

Section DebugFacts.
Context {lib : PythonLib}.

(** X13. The answer of [debug], as [jsonify] writes it. It is the error
    object, with the reconstructed URL, exactly when the parse gave no
    tracks. Otherwise it names the reconstructed URL and the mode the
    parse returned, and its object [tracks] has one member for each
    parsed track and no other, under the key of the track, with a segment
    count of at least one; the members are written sorted by key, not in
    the order of the parse. [drm_type] and [warning] are [null] unless
    [drm_protected] is true, and [drm_type] is then what
    [check_drm_protection] reported. *)
Theorem debug_spec (drm_fetched parse_fetched : string → result Response)
    (mpd_url_path : string) :
  let mpd_url := reconstruct_url_from_path mpd_url_path in
  match debug drm_fetched parse_fetched mpd_url_path with
  | DebugError url =>
      url = mpd_url ∧
      ∀ tracks mpd_type,
        parse_mpd (parse_fetched mpd_url) = Some (tracks, mpd_type) → tracks = []
  | DebugOk url mpd_type drm_protected drm_type warning listing =>
      url = mpd_url ∧
      (∃ tracks,
         parse_mpd (parse_fetched mpd_url) = Some (tracks, mpd_type) ∧
         tracks ≠ [] ∧
         listing ≡ₚ map summarise tracks ∧
         ∀ k, dict_get listing k = (λ t, (summarise (k, t)).2) <$> dict_get tracks k) ∧
      NoDup (map fst listing) ∧
      StronglySorted (λ k k', String.leb k k' = true) (map fst listing) ∧
      Forall (λ entry, (1 ≤ summary_segment_count entry.2)%nat) listing ∧
      check_drm_protection (drm_fetched mpd_url) = (drm_protected, drm_type) ∧
      (drm_protected = true ↔ is_Some drm_type) ∧
      (drm_protected = true ↔ is_Some warning)
  end.
Proof.
  intros mpd_url. unfold debug. fold mpd_url.
  destruct (check_drm_protection_shape (drm_fetched mpd_url)) as [Hdrm | [name Hdrm]];
    rewrite Hdrm.
  all: destruct (parse_mpd (parse_fetched mpd_url)) as [[[|item tracks] mode]|]
         eqn:Hparse;
    [split; [done | by intros ? ? [= <- _]]
    | | split; [done | done]].
  all: pose proof (parse_mpd_ok _ _ _ Hparse) as Hok;
    pose proof (parse_mpd_body_keys _ _ _ (parse_mpd_inversion _ _ _ Hparse)) as Hkeys.
  all: assert (NoDup (map fst (map summarise (item :: tracks)))) as Hkeys'
    by (by rewrite map_fst_summarise).
  all: pose proof (sort_keys_perm (map summarise (item :: tracks))) as Hperm.
  all: split; [done|]; split;
    [exists (item :: tracks); split; [done|]; split; [done|];
     split; [exact Hperm|]; intros k;
     rewrite <- dict_get_summarise; symmetry; by apply dict_get_perm|].
  all: split; [by rewrite Hperm|]; split;
    [generalize (sort_keys_sorted (map summarise (item :: tracks)));
     generalize (sort_keys (map summarise (item :: tracks)));
     induction 1; simpl; constructor; [done | by apply Forall_fmap]|].
  all: split;
    [rewrite Hperm; apply Forall_fmap; eapply Forall_impl; [exact Hok|];
     intros [k t] (_ & _ & Hurls); simpl in *;
     destruct (track_urls t); [done | simpl; lia]|].
  all: split; [done|]; split; split; try done; by intros [? [=]].
Qed.

(** X14. [debug] and [stream] on the same parse. When [debug] answers
    with the error object, [stream] aborts with 500 for either kind. When
    [stream] streams a track, [debug] answers with a listing in which that
    track stands under its own key, with its identifier, type, bandwidth
    and number of URLs, and no entry of the listing whose key contains the
    kind has a greater bandwidth. *)
Theorem debug_agrees_with_stream (stream_type : string)
    (drm_fetched parse_fetched : string → result Response) (mpd_url_path : string) :
  let mpd_url := reconstruct_url_from_path mpd_url_path in
  (∀ url, debug drm_fetched parse_fetched mpd_url_path = DebugError url →
     stream_type = "video" ∨ stream_type = "audio" →
     stream stream_type (parse_fetched mpd_url) = Abort 500) ∧
  (∀ best_track mpd_type mimetype,
     stream stream_type (parse_fetched mpd_url)
     = Streaming best_track mpd_type mimetype →
     ∃ drm_protected drm_type warning listing,
       debug drm_fetched parse_fetched mpd_url_path
       = DebugOk mpd_url mpd_type drm_protected drm_type warning listing ∧
       dict_get listing (track_key best_track)
       = Some {| summary_id := track_id best_track;
                 summary_type := track_type best_track;
                 summary_bandwidth := track_bandwidth best_track;
                 summary_segment_count := length (track_urls best_track) |} ∧
       ∀ k entry, (k, entry) ∈ listing →
         Py.contains stream_type (Py.lower k) = true →
         summary_bandwidth entry ≤ track_bandwidth best_track).
Proof.
  intros mpd_url. unfold debug, stream. fold mpd_url.
  destruct (check_drm_protection (drm_fetched mpd_url)) as [is_drm drm_type].
  destruct (parse_mpd (parse_fetched mpd_url)) as [[[|item tracks] mode]|] eqn:Hparse.
  - split; [|by destruct (negb _)].
    by intros _ _ [-> | ->].
  - split; [done|]. intros best_track mpd_type mimetype.
    destruct (negb _); [done|].
    destruct (select_track stream_type (item :: tracks)) as [best|] eqn:Hsel; [|done].
    intros [= <- <- <-]. eexists _, _, _, _. split; [done|].
    pose proof (parse_mpd_ok _ _ _ Hparse) as Hok.
    pose proof (parse_mpd_body_keys _ _ _ (parse_mpd_inversion _ _ _ Hparse)) as Hkeys.
    assert (NoDup (map fst (map summarise (item :: tracks)))) as Hkeys'
      by (by rewrite map_fst_summarise).
    pose proof (sort_keys_perm (map summarise (item :: tracks))) as Hperm.
    apply select_track_inl, max_by_spec in Hsel as [Hin Hmax].
    split.
    + apply elem_of_valid_tracks in Hin as (k & Hin & _ & _).
      pose proof (proj1 (Forall_forall _ _) Hok (k, best) Hin) as (Hk & _).
      simpl in Hk; subst k.
      rewrite <- (dict_get_perm _ _ _ Hkeys' (symmetry Hperm)).
      rewrite dict_get_summarise.
      by rewrite (proj2 (dict_get_elem_of _ _ _ Hkeys) Hin).
    + intros k entry Hentry Hkind. rewrite Hperm in Hentry.
      apply list_elem_of_fmap in Hentry as ([k' t] & [= -> ->] & Hkt). simpl.
      apply Hmax, elem_of_valid_tracks. exists k'.
      pose proof (proj1 (Forall_forall _ _) Hok (k', t) Hkt) as (_ & _ & Hurls).
      done.
  - split; [|by destruct (negb _)].
    by intros _ _ [-> | ->].
Qed.

End DebugFacts.

Section DebugRuns.
#[local] Existing Instance Sample.lib.

(** A closed instance: a manifest with a video track and an audio
    track, in this order, asked for with the path form of its URL and
    reported as protected; the answer lists the audio track first. *)
Lemma debug_spec_witness :
  debug (λ _, Ok Sample.response_protected) (λ _, Ok Sample.response_two_tracks)
    "http:/host/path/manifest.mpd"
  = DebugOk "http://host/path/manifest.mpd" "static" true (Some "PlayReady")
      (Some "Content is DRM-protected and cannot be played without decryption")
      [("audio_a0", {| summary_id := "a0"; summary_type := "audio";
                       summary_bandwidth := 64000;
                       summary_segment_count := 6 |});
       ("video_v0", {| summary_id := "v0"; summary_type := "video";
                       summary_bandwidth := 500000;
                       summary_segment_count := 6 |})] ∧
  (fst <$> default [] (fst <$> parse_mpd (Ok Sample.response_two_tracks)))
  = ["video_v0"; "audio_a0"] ∧
  StronglySorted (λ k k', String.leb k k' = true) ["audio_a0"; "video_v0"].
Proof.
  split; [vm_compute; reflexivity|]. split; [vm_compute; reflexivity|].
  pose proof (debug_spec (λ _, Ok Sample.response_protected)
                (λ _, Ok Sample.response_two_tracks) "http:/host/path/manifest.mpd")
    as Hspec.
  cbv zeta in Hspec.
  assert (debug (λ _, Ok Sample.response_protected)
            (λ _, Ok Sample.response_two_tracks) "http:/host/path/manifest.mpd"
          = DebugOk "http://host/path/manifest.mpd" "static" true (Some "PlayReady")
              (Some "Content is DRM-protected and cannot be played without decryption")
              [("audio_a0", {| summary_id := "a0"; summary_type := "audio";
                               summary_bandwidth := 64000;
                               summary_segment_count := 6 |});
               ("video_v0", {| summary_id := "v0"; summary_type := "video";
                               summary_bandwidth := 500000;
                               summary_segment_count := 6 |})]) as Hrun
    by (vm_compute; reflexivity).
  rewrite Hrun in Hspec.
  exact (proj1 (proj2 (proj2 (proj2 Hspec)))).
Defined.

(** A closed instance: the track streamed for [video] is the entry of
    the listing. *)
Lemma debug_agrees_with_stream_witness :
  ∃ drm_protected drm_type warning listing,
    debug (λ _, Raise RequestException) (λ _, Ok Sample.response_vod)
      "http:/host/path/manifest.mpd"
    = DebugOk "http://host/path/manifest.mpd" "static"
        drm_protected drm_type warning listing ∧
    dict_get listing "video_v0"
    = Some {| summary_id := "v0"; summary_type := "video";
              summary_bandwidth := 500000; summary_segment_count := 6 |}.
Proof.
  destruct (proj2 (debug_agrees_with_stream "video" (λ _, Raise RequestException)
                     (λ _, Ok Sample.response_vod) "http:/host/path/manifest.mpd")
              Sample.track_vod "static" "video/mp4")
    as (drm_protected & drm_type & warning & listing & Hdebug & Hget & _).
  { vm_compute; reflexivity. }
  by exists drm_protected, drm_type, warning, listing.
Defined.

End DebugRuns.

(** ** Where the chunks of the stream come from *)

Section ProvenanceFacts.
Variable w : World.
Variable patience : nat.
Variable src : string → Prop.

Lemma provenance_later (st st' : fetcher) :
  provenance w src st → delivered st' = delivered st → queue st' = queue st →
  (clock st ≤ clock st')%nat → provenance w src st'.
Proof.
  unfold provenance. intros Hst -> -> Hclock.
  eapply Forall2_impl; [exact Hst|].
  intros u item (Hsrc & t & content & -> & Hstop & Hget & Ht).
  split; [done|]. exists t, content. repeat split; try done. lia.
Qed.

Lemma provenance_put (st st' : fetcher) (u content : string) :
  provenance w src st → src u →
  stop_is_set w (clock st) = false →
  session_get w (S (clock st)) u = Ok content →
  delivered st' = delivered st ++ [u] →
  queue st' = queue st ++ [Some content] →
  (S (clock st) < clock st')%nat →
  provenance w src st'.
Proof.
  unfold provenance. intros Hst Hsrc Hstop Hget -> -> Hclock.
  apply Forall2_app.
  - eapply Forall2_impl; [exact Hst|].
    intros u' item (Hsrc' & t & content' & -> & Hstop' & Hget' & Ht).
    split; [done|]. exists t, content'. repeat split; try done. lia.
  - apply Forall2_cons_2; [|constructor].
    split; [done|]. by exists (clock st), content.
Qed.

Lemma provenance_payloads (st : fetcher) :
  provenance w src st →
  Forall src (delivered st) ∧
  Forall2 (λ u content, ∃ t, stop_is_set w t = false ∧
                             session_get w (S t) u = Ok content ∧
                             (S t < clock st)%nat)
    (delivered st) (payloads (queue st)).
Proof.
  unfold provenance, payloads.
  induction 1 as [|u item us items (Hsrc & t & content & -> & Hstop & Hget & Ht) _ [IH1 IH2]];
    [by split|].
  split; [by apply Forall_cons_2|]. cbn.
  apply Forall2_cons_2; [by exists t | done].
Qed.

Lemma vod_for_provenance (urls : list string) (st : fetcher) :
  Forall src urls → provenance w src st →
  provenance w src (vod_for w patience urls st).1.
Proof.
  revert st. induction urls as [|u urls IH]; intros st Hurls Hst; cbn [vod_for];
    [done|].
  apply Forall_cons in Hurls as [Hu Hurls].
  destruct (stop_is_set w (clock st)) eqn:Hstop.
  { simpl. eapply provenance_later; [exact Hst | done | done | simpl; lia]. }
  destruct (session_get w (clock (tick st)) u) as [content|e] eqn:Hget.
  - pose proof (put_effect w patience (Some content) (tick st))
      as (_ & Hd & Hc & Hq & _).
    destruct (put w patience (Some content) (tick st)) as [st2 returned].
    simpl in Hd, Hc, Hq. destruct returned.
    + apply IH; [done|].
      eapply (provenance_put st _ u content); simpl; try done;
        [by rewrite Hd | lia].
    + simpl. rewrite app_nil_r in Hq.
      eapply provenance_later; [exact Hst | done | done | lia].
  - destruct e; simpl;
      try (eapply provenance_later; [exact Hst | done | done | simpl; lia]).
    apply IH; [done|].
    eapply provenance_later; [exact Hst | done | done | simpl; lia].
Qed.

Lemma vod_while_provenance (fuel : nat) (all_urls : list string) (st : fetcher) :
  Forall src all_urls → provenance w src st →
  provenance w src (vod_while w patience fuel all_urls st).1.
Proof.
  intros Hurls. revert st.
  induction fuel as [|fuel IH]; intros st Hst; cbn [vod_while]; [done|].
  destruct (stop_is_set w (clock st)).
  { simpl. eapply provenance_later; [exact Hst | done | done | simpl; lia]. }
  assert (provenance w src (tick st)) as Htick
    by (eapply provenance_later; [exact Hst | done | done | simpl; lia]).
  pose proof (vod_for_provenance all_urls (tick st) Hurls Htick) as Hfor.
  destruct (vod_for w patience all_urls (tick st)) as [st1 s]. simpl in Hfor.
  assert (provenance w src (tick st1)) as Htick1
    by (eapply provenance_later; [exact Hfor | done | done | simpl; lia]).
  destruct s; try done;
    (destruct (stop_is_set w (clock st1)); [done | by apply IH]).
Qed.

Lemma live_for_provenance (urls : list string) (found_new : bool) (st : fetcher) :
  Forall src urls → provenance w src st →
  provenance w src (live_for w patience urls found_new st).1.1.
Proof.
  revert found_new st.
  induction urls as [|u urls IH]; intros found_new st Hurls Hst; cbn [live_for];
    [done|].
  apply Forall_cons in Hurls as [Hu Hurls].
  assert (provenance w src (tick st)) as Htick
    by (eapply provenance_later; [exact Hst | done | done | simpl; lia]).
  destruct (stop_is_set w (clock st)) eqn:Hstop; [done|].
  case_bool_decide as Hin; [by apply IH|].
  destruct (session_get w (clock (tick st)) u) as [content|e] eqn:Hget.
  - pose proof (put_effect w patience (Some content) (tick st))
      as (_ & Hd & Hc & Hq & _).
    destruct (put w patience (Some content) (tick st)) as [st2 returned].
    simpl in Hd, Hc, Hq. destruct returned.
    + apply IH; [done|].
      eapply (provenance_put st _ u content); simpl; try done;
        [by rewrite Hd | lia].
    + simpl. rewrite app_nil_r in Hq.
      eapply provenance_later; [exact Hst | done | done | lia].
  - destruct e; simpl;
      try (eapply provenance_later; [exact Hst | done | done | simpl; lia]).
    apply IH; [done|].
    eapply provenance_later; [exact Hst | done | done | simpl; lia].
Qed.

End ProvenanceFacts.

Section LiveProvenance.
Context {lib : PythonLib}.
Variable w : World.
Variable patience : nat.

Lemma live_while_provenance (fuel : nat) (track_key : string) (st : fetcher) :
  provenance w (listed_live w track_key) st →
  provenance w (listed_live w track_key)
    (live_while w patience fuel track_key st).1.
Proof.
  revert st. induction fuel as [|fuel IH]; intros st Hst; cbn [live_while]; [done|].
  assert (∀ st', delivered st' = delivered st → queue st' = queue st →
                 (clock st ≤ clock st')%nat →
                 provenance w (listed_live w track_key) st') as Hlater
    by (intros st' ? ? ?; by eapply provenance_later).
  destruct (stop_is_set w (clock st)); [apply Hlater; simpl; done || lia|].
  destruct (parse_mpd (manifest_get w (clock (tick st))))
    as [[[|item live_tracks] mode]|] eqn:Hparse.
  - apply IH, Hlater; simpl; done || lia.
  - destruct (dict_get (item :: live_tracks) track_key) as [live_track|] eqn:Hget;
      [|apply Hlater; simpl; done || lia].
    destruct (track_urls live_track) as [|u all_current_urls] eqn:Hurls;
      [apply Hlater; simpl; done || lia|].
    assert (Forall (listed_live w track_key) (u :: all_current_urls)) as Hsrc.
    { apply Forall_forall. intros u' Hu'.
      exists (clock (tick st)), (item :: live_tracks), mode, live_track.
      by rewrite Hurls. }
    pose proof (live_for_provenance w patience _ (u :: all_current_urls) false
                  (tick (tick st)) Hsrc) as Hfor.
    destruct (live_for w patience (u :: all_current_urls) false (tick (tick st)))
      as [[st2 found_new] s].
    simpl in Hfor. specialize (Hfor ltac:(apply Hlater; simpl; done || lia)).
    destruct s; try done; apply IH; destruct found_new; try done;
      (eapply provenance_later; [exact Hfor | done | done | simpl; lia]).
  - apply IH, Hlater; simpl; done || lia.
Qed.

(** What holds of the producer's state when the loop is left or cut,
    before the end marker is put. *)
Lemma segment_fetcher_sources (fuel : nat) (track : Track) (mpd_type : string) :
  provenance w
    (if String.eqb mpd_type "static" then (λ u, u ∈ track_urls track)
     else listed_live w (track_key track))
    (fetch_loop w patience fuel track mpd_type).1.
Proof.
  unfold fetch_loop. destruct (String.eqb mpd_type "static").
  - apply vod_while_provenance; [by apply Forall_forall | constructor].
  - apply live_while_provenance. constructor.
Qed.

Lemma segment_fetcher_state (fuel : nat) (track : Track) (mpd_type : string) :
  let run := fetch_loop w patience fuel track mpd_type in
  let st := (segment_fetcher w patience fuel track mpd_type).1 in
  delivered st = delivered run.1 ∧ (clock run.1 ≤ clock st)%nat ∧
  payloads (queue st) = payloads (queue run.1).
Proof.
  destruct (segment_fetcher_final w patience fuel track mpd_type)
    as (Hd & _ & Hc & Hq).
  cbv zeta in *. rewrite Hq. split; [done|]. split; [done|].
  destruct (segment_fetcher w patience fuel track mpd_type).2;
    by rewrite ?payloads_marker, ?app_nil_r.
Qed.

(** X15. Every chunk the producer has put in the queue is the content of
    a fetch of the URL delivered at the same position: a fetch that
    succeeded, made by the producer before now, right after it saw the
    stop event clear. Nothing else is put but the end marker. *)
Theorem producer_provenance (fuel : nat) (track : Track) (mpd_type : string) :
  let st := (segment_fetcher w patience fuel track mpd_type).1 in
  Forall2 (λ u content, ∃ t, stop_is_set w t = false ∧
                             session_get w (S t) u = Ok content ∧
                             (S t < clock st)%nat)
    (delivered st) (payloads (queue st)).
Proof.
  destruct (segment_fetcher_state fuel track mpd_type) as (Hd & Hc & Hq).
  cbv zeta in *. rewrite Hd, Hq.
  eapply Forall2_impl;
    [exact (proj2 (provenance_payloads w _ _
                     (segment_fetcher_sources fuel track mpd_type)))|].
  intros u content (t & Hstop & Hget & Ht). exists t. repeat split; try done. lia.
Qed.

(** X16. In the static mode every URL delivered is one of the URLs of
    the track handed to the producer. In the live mode the URLs of that
    track are not used: every URL delivered is a URL that some re-parse of
    the manifest listed under the track's key. *)
Theorem producer_sources (fuel : nat) (track : Track) (mpd_type : string) :
  let st := (segment_fetcher w patience fuel track mpd_type).1 in
  (mpd_type = "static" → Forall (λ u, u ∈ track_urls track) (delivered st)) ∧
  (mpd_type ≠ "static" → Forall (listed_live w (track_key track)) (delivered st)).
Proof.
  destruct (segment_fetcher_state fuel track mpd_type) as (Hd & _ & _).
  cbv zeta in *. rewrite Hd.
  pose proof (proj1 (provenance_payloads w _ _
                       (segment_fetcher_sources fuel track mpd_type))) as Hsrc.
  split.
  - intros ->. by rewrite String.eqb_refl in Hsrc.
  - intros Hmode%String.eqb_neq. by rewrite Hmode in Hsrc.
Qed.

End LiveProvenance.

Section ProvenanceRuns.
#[local] Existing Instance Sample.lib.

(** A closed instance: the four chunks of the live session of the sample
    surroundings, each the content fetched for the URL at its place. *)
Lemma producer_provenance_witness :
  payloads (queue (segment_fetcher Sample.world 5 20 Sample.track "dynamic").1)
  = (λ u, "data of " +:+ u)
    <$> delivered (segment_fetcher Sample.world 5 20 Sample.track "dynamic").1 ∧
  Forall2 (λ u content, ∃ t, stop_is_set Sample.world t = false ∧
                             session_get Sample.world (S t) u = Ok content ∧
                             (S t < 12)%nat)
    (delivered (segment_fetcher Sample.world 5 20 Sample.track "dynamic").1)
    (payloads (queue (segment_fetcher Sample.world 5 20 Sample.track "dynamic").1)).
Proof.
  split; [vm_compute; reflexivity|].
  exact (producer_provenance Sample.world 5 20 Sample.track "dynamic").
Defined.

(** A closed instance: the live session delivers URLs of the manifest,
    none of which is a URL of the track it was started with. *)
Lemma producer_sources_witness :
  Forall (listed_live Sample.world "video_v0")
    (delivered (segment_fetcher Sample.world 5 20 Sample.track "dynamic").1) ∧
  Forall (λ u, u ∉ track_urls Sample.track)
    (delivered (segment_fetcher Sample.world 5 20 Sample.track "dynamic").1).
Proof.
  split.
  - apply (proj2 (producer_sources Sample.world 5 20 Sample.track "dynamic")).
    discriminate.
  - vm_compute delivered.
    repeat (apply Forall_cons_2;
            [intros Hin; repeat (apply elem_of_cons in Hin as [Hin | Hin];
                                 [discriminate Hin|]);
             by apply elem_of_nil in Hin|]).
    apply Forall_nil_2.
Defined.

End ProvenanceRuns.
